(** * The peer handshake of libtransmission (handshake.cc)

    A shallow embedding of [tr_handshake]: the BitTorrent plaintext
    handshake and the Message Stream Encryption (MSE) handshake, as a
    state machine driven by the read and error callbacks of a peer IO.

    Bytes are 8-bit integers in [Z]; [uint16_t] and [uint32_t] values are
    [Z] too.  A handler of the C++ class mutates the handshake object, the
    peer IO and (through the mediator) the session; here it is a function
    of a small state monad over the record [World] holding the three.

    Logging is left out, and so are the [TR_ASSERT]s, which release builds
    compile to nothing. *)

From Stdlib Require Import ZArith List Bool Lia Setoid.
Import ListNotations.
Local Open Scope Z_scope.

(** ** Bytes *)

Definition bytes := list Z.

Fixpoint bytes_eqb (a b : bytes) : bool :=
  match a, b with
  | [], [] => true
  | x :: a', y :: b' => (x =? y) && bytes_eqb a' b'
  | _, _ => false
  end.

(** [Buffer::startsWith]: the buffer holds at least [length needle] bytes
    and the first ones are the needle's. *)
Fixpoint starts_with (buf needle : bytes) {struct needle} : bool :=
  match needle, buf with
  | [], _ => true
  | _ :: _, [] => false
  | x :: needle', y :: buf' => (x =? y) && starts_with buf' needle'
  end.

Fixpoint xor_bytes (a b : bytes) : bytes :=
  match a, b with
  | x :: a', y :: b' => Z.lxor x y :: xor_bytes a' b'
  | _, _ => []
  end.

Definition zeros (n : nat) : bytes := repeat 0 n.

(** Network byte order, as [readUint16], [readUint32], [addUint16] and
    [addUint32] use it. *)
Definition be_decode (bs : bytes) : Z :=
  fold_left (fun acc b => acc * 256 + b) bs 0.

Definition be16 (v : Z) : bytes := [Z.land (Z.shiftr v 8) 255; Z.land v 255].

Definition be32 (v : Z) : bytes :=
  [Z.land (Z.shiftr v 24) 255; Z.land (Z.shiftr v 16) 255;
   Z.land (Z.shiftr v 8) 255; Z.land v 255].

(** ** Constants of handshake.cc *)

Definition HandshakeName : bytes :=
  [19; 66; 105; 116; 84; 111; 114; 114; 101; 110;
   116; 32; 112; 114; 111; 116; 111; 99; 111; 108].

Definition HandshakeFlagsLen : Z := 8.
Definition HandshakeSize : Z := 68.
Definition IncomingHandshakeLen : Z := 48.

Definition PadaMaxlen : Z := 512.
Definition PadbMaxlen : Z := 512.
Definition PadcMaxlen : Z := 512.
Definition CryptoProvidePlaintext : Z := 1.
Definition CryptoProvideCrypto : Z := 2.

(** [VC]: eight zero bytes. *)
Definition VC : bytes := zeros 8.

(** [tr_sha1_digest_t{}] and the sizes of the fixed arrays. *)
Definition Sha1Len : Z := 20.
Definition PeerIdLen : Z := 20.
Definition KeyLen : Z := 96.
Definition zero_digest : bytes := zeros 20.

(** The values of <cerrno> on Linux. *)
Definition ETIMEDOUT : Z := 110.
Definition ECONNREFUSED : Z := 111.

Definition HANDSHAKE_HAS_LTEP (bits : bytes) : bool :=
  negb (Z.land (nth 5 bits 0) 16 =? 0).
Definition HANDSHAKE_HAS_FASTEXT (bits : bytes) : bool :=
  negb (Z.land (nth 7 bits 0) 4 =? 0).
Definition HANDSHAKE_HAS_DHT (bits : bytes) : bool :=
  negb (Z.land (nth 7 bits 0) 1 =? 0).

Fixpoint set_bits (i : nat) (mask : Z) (bits : bytes) : bytes :=
  match bits, i with
  | [], _ => []
  | b :: bits', O => Z.lor b mask :: bits'
  | b :: bits', S i' => b :: set_bits i' mask bits'
  end.

Definition HANDSHAKE_SET_LTEP := set_bits 5 16.
Definition HANDSHAKE_SET_FASTEXT := set_bits 7 4.
Definition HANDSHAKE_SET_DHT := set_bits 7 1.

(** ** Enumerations *)

Inductive tr_encryption_mode :=
| TR_CLEAR_PREFERRED
| TR_ENCRYPTION_PREFERRED
| TR_ENCRYPTION_REQUIRED.

Inductive State :=
| AwaitingHandshake
| AwaitingPeerId
| AwaitingYa
| AwaitingPadA
| AwaitingCryptoProvide
| AwaitingPadC
| AwaitingIa
| AwaitingPayloadStream
| AwaitingYb
| AwaitingVc
| AwaitingCryptoSelect
| AwaitingPadD.

Inductive ReadState := READ_NOW | READ_LATER | READ_ERR.

Inductive ParseResult := Ok | EncryptionWrong | BadTorrent | PeerIsSelf.

Definition State_eqb (a b : State) : bool :=
  match a, b with
  | AwaitingHandshake, AwaitingHandshake
  | AwaitingPeerId, AwaitingPeerId
  | AwaitingYa, AwaitingYa
  | AwaitingPadA, AwaitingPadA
  | AwaitingCryptoProvide, AwaitingCryptoProvide
  | AwaitingPadC, AwaitingPadC
  | AwaitingIa, AwaitingIa
  | AwaitingPayloadStream, AwaitingPayloadStream
  | AwaitingYb, AwaitingYb
  | AwaitingVc, AwaitingVc
  | AwaitingCryptoSelect, AwaitingCryptoSelect
  | AwaitingPadD, AwaitingPadD => true
  | _, _ => false
  end.

Definition mode_eqb (a b : tr_encryption_mode) : bool :=
  match a, b with
  | TR_CLEAR_PREFERRED, TR_CLEAR_PREFERRED
  | TR_ENCRYPTION_PREFERRED, TR_ENCRYPTION_PREFERRED
  | TR_ENCRYPTION_REQUIRED, TR_ENCRYPTION_REQUIRED => true
  | _, _ => false
  end.

(** ** getCryptoSelect

    The array [choices] has two slots, both zero at first; the switch
    fills one or two of them and the loop walks over both. *)

Definition crypto_choices (encryption_mode : tr_encryption_mode) : list Z :=
  match encryption_mode with
  | TR_ENCRYPTION_REQUIRED => [CryptoProvideCrypto; 0]
  | TR_ENCRYPTION_PREFERRED => [CryptoProvideCrypto; CryptoProvidePlaintext]
  | TR_CLEAR_PREFERRED => [CryptoProvidePlaintext; CryptoProvideCrypto]
  end.

Fixpoint first_choice (choices : list Z) (crypto_provide : Z) : Z :=
  match choices with
  | [] => 0
  | choice :: rest =>
      if negb (Z.land crypto_provide choice =? 0) then choice
      else first_choice rest crypto_provide
  end.

Definition getCryptoSelect (encryption_mode : tr_encryption_mode)
  (crypto_provide : Z) : Z :=
  first_choice (crypto_choices encryption_mode) crypto_provide.

(** ** The collaborators of the handshake

    Only handshake.cc is at hand; its header and the classes it drives
    (the peer IO, the stream filter, the SHA-1 and Diffie-Hellman helpers,
    the mediator) are taken as interfaces. *)

(** Modelled from the spec: the primitives of crypto-utils and peer-mse
    (section 4.1).  [sha1] is [tr_sha1::digest] of the concatenated
    arguments, [dh_public_key] and [dh_shared_secret] are DH-768, and
    [keystream key n] is the byte of the RC4 keystream of [key] that
    transforms the [n]-th byte after keying (the discarded 1024 apart). *)
Record Crypto := {
  sha1 : bytes -> bytes;
  dh_public_key : bytes -> bytes;
  dh_shared_secret : bytes -> bytes -> bytes;
  keystream : bytes -> nat -> Z
}.

(** [Mediator::torrent_info] of handshake.h. *)
Record tr_torrent_info := {
  info_hash : bytes;
  client_peer_id : bytes;
  id : Z;
  is_done : bool
}.

(** Modelled from the spec: the mediator of handshake.h (section 4.4), a
    query interface.  [pad n] is the random padding that
    [send_public_key_and_pad] asks for, and [done_func] is what the
    [DoneFunc] of the session's owner answers to the terminal callback.
    [set_utp_failed], the one command of the interface, is recorded in
    [World]. *)
Record Mediator := {
  torrent_info : bytes -> option tr_torrent_info;
  torrent_info_from_obfuscated : bytes -> option tr_torrent_info;
  is_peer_known_seed : Z -> Z -> bool;
  allows_dht : bool;
  allows_tcp : bool;
  private_key : bytes;
  pad : Z -> bytes;
  done_func : bool -> bool
}.

(** One direction of [tr_message_stream_encryption::Filter]: the key and
    the count of bytes transformed so far. *)
Record Cipher := {
  cipher_key : bytes;
  cipher_pos : nat
}.

(** Modelled from the spec: the peer IO of peer-io.h (sections 4.2, 4.3).
    [io_inbuf] holds the bytes received and not yet read, as they came
    from the wire: the decrypt filter is applied when bytes are read out
    of the buffer, which is why a handler can install it between two
    reads of bytes that arrived together.  [io_outbuf] collects the bytes
    handed to the transport, after the encrypt filter.  [io_reconnects]
    lists the outcomes of the calls of [reconnect] still to come. *)
Record tr_peerIo := {
  io_is_incoming : bool;
  io_is_utp : bool;
  io_address : Z;
  io_torrent_hash : bytes;
  io_inbuf : bytes;
  io_outbuf : bytes;
  io_decrypt : option Cipher;
  io_encrypt : option Cipher;
  io_dht : bool;
  io_ltep : bool;
  io_fext : bool;
  io_reconnects : list bool
}.

(** [tr_message_stream_encryption::DH]: our private key and the peer's
    public key. *)
Record DH := {
  dh_private_key : bytes;
  dh_peer_public_key : bytes
}.

(** The members of [tr_handshake].  [done_result] is [Some ok] once the
    done callback has fired with [is_connected = ok]. *)
Record tr_handshake := {
  state_ : State;
  encryption_mode_ : tr_encryption_mode;
  dh_ : DH;
  have_read_anything_from_peer_ : bool;
  have_sent_bittorrent_handshake_ : bool;
  peer_id_ : option bytes;
  crypto_provide_ : Z;
  crypto_select_ : Z;
  pad_c_len_ : Z;
  pad_d_len_ : Z;
  ia_len_ : Z;
  done_result : option bool
}.

(** What a handler can touch: the handshake, its IO, and the peers the
    mediator was told to mark as not speaking uTP. *)
Record World := {
  hs : tr_handshake;
  io : tr_peerIo;
  utp_failed : list (bytes * Z)
}.

(** *** Field updates *)

Definition io_with_torrent_hash (h : bytes) (i : tr_peerIo) : tr_peerIo :=
  {| io_is_incoming := io_is_incoming i; io_is_utp := io_is_utp i;
     io_address := io_address i; io_torrent_hash := h;
     io_inbuf := io_inbuf i; io_outbuf := io_outbuf i;
     io_decrypt := io_decrypt i; io_encrypt := io_encrypt i;
     io_dht := io_dht i; io_ltep := io_ltep i; io_fext := io_fext i;
     io_reconnects := io_reconnects i |}.

Definition io_with_in (buf : bytes) (d : option Cipher) (i : tr_peerIo)
  : tr_peerIo :=
  {| io_is_incoming := io_is_incoming i; io_is_utp := io_is_utp i;
     io_address := io_address i; io_torrent_hash := io_torrent_hash i;
     io_inbuf := buf; io_outbuf := io_outbuf i;
     io_decrypt := d; io_encrypt := io_encrypt i;
     io_dht := io_dht i; io_ltep := io_ltep i; io_fext := io_fext i;
     io_reconnects := io_reconnects i |}.

Definition io_with_out (buf : bytes) (e : option Cipher) (i : tr_peerIo)
  : tr_peerIo :=
  {| io_is_incoming := io_is_incoming i; io_is_utp := io_is_utp i;
     io_address := io_address i; io_torrent_hash := io_torrent_hash i;
     io_inbuf := io_inbuf i; io_outbuf := buf;
     io_decrypt := io_decrypt i; io_encrypt := e;
     io_dht := io_dht i; io_ltep := io_ltep i; io_fext := io_fext i;
     io_reconnects := io_reconnects i |}.

Definition io_with_extensions (dht ltep fext : bool) (i : tr_peerIo)
  : tr_peerIo :=
  {| io_is_incoming := io_is_incoming i; io_is_utp := io_is_utp i;
     io_address := io_address i; io_torrent_hash := io_torrent_hash i;
     io_inbuf := io_inbuf i; io_outbuf := io_outbuf i;
     io_decrypt := io_decrypt i; io_encrypt := io_encrypt i;
     io_dht := dht; io_ltep := ltep; io_fext := fext;
     io_reconnects := io_reconnects i |}.

Definition io_with_socket (utp : bool) (rs : list bool) (i : tr_peerIo)
  : tr_peerIo :=
  {| io_is_incoming := io_is_incoming i; io_is_utp := utp;
     io_address := io_address i; io_torrent_hash := io_torrent_hash i;
     io_inbuf := io_inbuf i; io_outbuf := io_outbuf i;
     io_decrypt := io_decrypt i; io_encrypt := io_encrypt i;
     io_dht := io_dht i; io_ltep := io_ltep i; io_fext := io_fext i;
     io_reconnects := rs |}.

Definition hs_with_state (s : State) (h : tr_handshake) : tr_handshake :=
  {| state_ := s; encryption_mode_ := encryption_mode_ h; dh_ := dh_ h;
     have_read_anything_from_peer_ := have_read_anything_from_peer_ h;
     have_sent_bittorrent_handshake_ := have_sent_bittorrent_handshake_ h;
     peer_id_ := peer_id_ h; crypto_provide_ := crypto_provide_ h;
     crypto_select_ := crypto_select_ h; pad_c_len_ := pad_c_len_ h;
     pad_d_len_ := pad_d_len_ h; ia_len_ := ia_len_ h;
     done_result := done_result h |}.

Definition hs_with_dh (d : DH) (h : tr_handshake) : tr_handshake :=
  {| state_ := state_ h; encryption_mode_ := encryption_mode_ h; dh_ := d;
     have_read_anything_from_peer_ := have_read_anything_from_peer_ h;
     have_sent_bittorrent_handshake_ := have_sent_bittorrent_handshake_ h;
     peer_id_ := peer_id_ h; crypto_provide_ := crypto_provide_ h;
     crypto_select_ := crypto_select_ h; pad_c_len_ := pad_c_len_ h;
     pad_d_len_ := pad_d_len_ h; ia_len_ := ia_len_ h;
     done_result := done_result h |}.

Definition hs_with_have_read (b : bool) (h : tr_handshake) : tr_handshake :=
  {| state_ := state_ h; encryption_mode_ := encryption_mode_ h;
     dh_ := dh_ h; have_read_anything_from_peer_ := b;
     have_sent_bittorrent_handshake_ := have_sent_bittorrent_handshake_ h;
     peer_id_ := peer_id_ h; crypto_provide_ := crypto_provide_ h;
     crypto_select_ := crypto_select_ h; pad_c_len_ := pad_c_len_ h;
     pad_d_len_ := pad_d_len_ h; ia_len_ := ia_len_ h;
     done_result := done_result h |}.

Definition hs_with_have_sent (b : bool) (h : tr_handshake) : tr_handshake :=
  {| state_ := state_ h; encryption_mode_ := encryption_mode_ h;
     dh_ := dh_ h;
     have_read_anything_from_peer_ := have_read_anything_from_peer_ h;
     have_sent_bittorrent_handshake_ := b;
     peer_id_ := peer_id_ h; crypto_provide_ := crypto_provide_ h;
     crypto_select_ := crypto_select_ h; pad_c_len_ := pad_c_len_ h;
     pad_d_len_ := pad_d_len_ h; ia_len_ := ia_len_ h;
     done_result := done_result h |}.

Definition hs_with_peer_id (p : bytes) (h : tr_handshake) : tr_handshake :=
  {| state_ := state_ h; encryption_mode_ := encryption_mode_ h;
     dh_ := dh_ h;
     have_read_anything_from_peer_ := have_read_anything_from_peer_ h;
     have_sent_bittorrent_handshake_ := have_sent_bittorrent_handshake_ h;
     peer_id_ := Some p; crypto_provide_ := crypto_provide_ h;
     crypto_select_ := crypto_select_ h; pad_c_len_ := pad_c_len_ h;
     pad_d_len_ := pad_d_len_ h; ia_len_ := ia_len_ h;
     done_result := done_result h |}.

Definition hs_with_crypto_provide (v : Z) (h : tr_handshake) : tr_handshake :=
  {| state_ := state_ h; encryption_mode_ := encryption_mode_ h;
     dh_ := dh_ h;
     have_read_anything_from_peer_ := have_read_anything_from_peer_ h;
     have_sent_bittorrent_handshake_ := have_sent_bittorrent_handshake_ h;
     peer_id_ := peer_id_ h; crypto_provide_ := v;
     crypto_select_ := crypto_select_ h; pad_c_len_ := pad_c_len_ h;
     pad_d_len_ := pad_d_len_ h; ia_len_ := ia_len_ h;
     done_result := done_result h |}.

Definition hs_with_crypto_select (v : Z) (h : tr_handshake) : tr_handshake :=
  {| state_ := state_ h; encryption_mode_ := encryption_mode_ h;
     dh_ := dh_ h;
     have_read_anything_from_peer_ := have_read_anything_from_peer_ h;
     have_sent_bittorrent_handshake_ := have_sent_bittorrent_handshake_ h;
     peer_id_ := peer_id_ h; crypto_provide_ := crypto_provide_ h;
     crypto_select_ := v; pad_c_len_ := pad_c_len_ h;
     pad_d_len_ := pad_d_len_ h; ia_len_ := ia_len_ h;
     done_result := done_result h |}.

Definition hs_with_pad_c_len (v : Z) (h : tr_handshake) : tr_handshake :=
  {| state_ := state_ h; encryption_mode_ := encryption_mode_ h;
     dh_ := dh_ h;
     have_read_anything_from_peer_ := have_read_anything_from_peer_ h;
     have_sent_bittorrent_handshake_ := have_sent_bittorrent_handshake_ h;
     peer_id_ := peer_id_ h; crypto_provide_ := crypto_provide_ h;
     crypto_select_ := crypto_select_ h; pad_c_len_ := v;
     pad_d_len_ := pad_d_len_ h; ia_len_ := ia_len_ h;
     done_result := done_result h |}.

Definition hs_with_pad_d_len (v : Z) (h : tr_handshake) : tr_handshake :=
  {| state_ := state_ h; encryption_mode_ := encryption_mode_ h;
     dh_ := dh_ h;
     have_read_anything_from_peer_ := have_read_anything_from_peer_ h;
     have_sent_bittorrent_handshake_ := have_sent_bittorrent_handshake_ h;
     peer_id_ := peer_id_ h; crypto_provide_ := crypto_provide_ h;
     crypto_select_ := crypto_select_ h; pad_c_len_ := pad_c_len_ h;
     pad_d_len_ := v; ia_len_ := ia_len_ h;
     done_result := done_result h |}.

Definition hs_with_ia_len (v : Z) (h : tr_handshake) : tr_handshake :=
  {| state_ := state_ h; encryption_mode_ := encryption_mode_ h;
     dh_ := dh_ h;
     have_read_anything_from_peer_ := have_read_anything_from_peer_ h;
     have_sent_bittorrent_handshake_ := have_sent_bittorrent_handshake_ h;
     peer_id_ := peer_id_ h; crypto_provide_ := crypto_provide_ h;
     crypto_select_ := crypto_select_ h; pad_c_len_ := pad_c_len_ h;
     pad_d_len_ := pad_d_len_ h; ia_len_ := v;
     done_result := done_result h |}.

Definition hs_with_done (ok : bool) (h : tr_handshake) : tr_handshake :=
  {| state_ := state_ h; encryption_mode_ := encryption_mode_ h;
     dh_ := dh_ h;
     have_read_anything_from_peer_ := have_read_anything_from_peer_ h;
     have_sent_bittorrent_handshake_ := have_sent_bittorrent_handshake_ h;
     peer_id_ := peer_id_ h; crypto_provide_ := crypto_provide_ h;
     crypto_select_ := crypto_select_ h; pad_c_len_ := pad_c_len_ h;
     pad_d_len_ := pad_d_len_ h; ia_len_ := ia_len_ h;
     done_result := Some ok |}.

(** ** The monad of the handlers *)

Definition M (A : Type) : Type := World -> A * World.

Definition ret {A : Type} (a : A) : M A := fun w => (a, w).

Definition bind {A B : Type} (m : M A) (k : A -> M B) : M B :=
  fun w => match m w with (a, w') => k a w' end.

Declare Scope hs_scope.
Delimit Scope hs_scope with hs.
Notation "x <- m ;; k" := (bind m (fun x => k))
  (at level 61, m at next level, right associativity) : hs_scope.
Notation "m ;; k" := (bind m (fun _ => k))
  (at level 61, right associativity) : hs_scope.
Local Open Scope hs_scope.

Definition mod_hs (f : tr_handshake -> tr_handshake) : M unit :=
  fun w => (tt, {| hs := f (hs w); io := io w; utp_failed := utp_failed w |}).

Definition mod_io (f : tr_peerIo -> tr_peerIo) : M unit :=
  fun w => (tt, {| hs := hs w; io := f (io w); utp_failed := utp_failed w |}).

Definition get_hs {A : Type} (f : tr_handshake -> A) : M A :=
  fun w => (f (hs w), w).

Definition get_io {A : Type} (f : tr_peerIo -> A) : M A :=
  fun w => (f (io w), w).

Definition when (b : bool) (m : M unit) : M unit :=
  if b then m else ret tt.

(** ** The handshake *)

Section Handshake.

Context (cr : Crypto) (med : Mediator).

(** [tr_handshake::crypto_provide()] of handshake.h: the bit set the
    initiator offers under a policy. *)
Variable crypto_provide : tr_encryption_mode -> Z.

(** *** The stream filter *)

Fixpoint crypt (key : bytes) (pos : nat) (bs : bytes) : bytes :=
  match bs with
  | [] => []
  | b :: bs' => Z.lxor b (keystream cr key pos) :: crypt key (S pos) bs'
  end.

(** Modelled from the spec: [Filter::decrypt] and [Filter::encrypt] of
    peer-mse (sections 4.1, 4.3).  The bytes go through the keystream when
    the direction is keyed, and the keystream moves on. *)
Definition filter_crypt (f : option Cipher) (bs : bytes) : bytes :=
  match f with
  | None => bs
  | Some c => crypt (cipher_key c) (cipher_pos c) bs
  end.

Definition filter_advance (f : option Cipher) (n : nat) : option Cipher :=
  match f with
  | None => None
  | Some c =>
      Some {| cipher_key := cipher_key c; cipher_pos := (cipher_pos c + n)%nat |}
  end.

Definition keyA : bytes := [107; 101; 121; 65].
Definition keyB : bytes := [107; 101; 121; 66].
Definition req1 : bytes := [114; 101; 113; 49].
Definition req2 : bytes := [114; 101; 113; 50].
Definition req3 : bytes := [114; 101; 113; 51].

Definition secret (dh : DH) : bytes :=
  dh_shared_secret cr (dh_private_key dh) (dh_peer_public_key dh).

(** Modelled from the spec: the keys of [Filter::encryptInit] and
    [Filter::decryptInit] of peer-mse (section 4.1), SHA1("keyA", S, SKEY)
    for what the initiator sends and SHA1("keyB", S, SKEY) for what it
    receives; the receiver swaps the labels. *)
Definition encrypt_key (is_incoming : bool) (dh : DH) (info_hash : bytes)
  : bytes :=
  sha1 cr ((if is_incoming then keyB else keyA) ++ secret dh ++ info_hash).

Definition decrypt_key (is_incoming : bool) (dh : DH) (info_hash : bytes)
  : bytes :=
  sha1 cr ((if is_incoming then keyA else keyB) ++ secret dh ++ info_hash).

(** *** The peer IO, as the handlers use it *)

Definition readBufferSize : M Z :=
  get_io (fun i => Z.of_nat (length (io_inbuf i))).

Definition readBufferStartsWith (needle : bytes) : M bool :=
  get_io (fun i => starts_with (io_inbuf i) needle).

(** Modelled from the spec: [readBytes] of peer-io (section 4.3) takes
    the bytes out of the buffer and through the decrypt filter. *)
Definition readBytes (n : Z) : M bytes :=
  fun w =>
    let i := io w in
    let raw := firstn (Z.to_nat n) (io_inbuf i) in
    (filter_crypt (io_decrypt i) raw,
     {| hs := hs w;
        io := io_with_in (skipn (Z.to_nat n) (io_inbuf i))
                (filter_advance (io_decrypt i) (length raw)) i;
        utp_failed := utp_failed w |}).

(** [readBufferDrain] reads the bytes through the filter and drops them. *)
Definition readBufferDrain (n : Z) : M unit :=
  _ <- readBytes n ;; ret tt.

Definition readUint16 : M Z :=
  bs <- readBytes 2 ;; ret (be_decode bs).

Definition readUint32 : M Z :=
  bs <- readBytes 4 ;; ret (be_decode bs).

(** Modelled from the spec: [write] and [writeBytes] of peer-io
    (section 4.3), through the encrypt filter, to the wire; [write] leaves
    the handler's buffer empty. *)
Definition writeBytes (bs : bytes) : M unit :=
  mod_io (fun i =>
    io_with_out (io_outbuf i ++ filter_crypt (io_encrypt i) bs)
      (filter_advance (io_encrypt i) (length bs)) i).

Definition torrentHash : M bytes := get_io io_torrent_hash.

Definition setTorrentHash (h : bytes) : M unit :=
  mod_io (io_with_torrent_hash h).

Definition isIncoming : M bool := get_io io_is_incoming.

Definition encryptInit (is_incoming : bool) (dh : DH) (info_hash : bytes)
  : M unit :=
  mod_io (fun i =>
    io_with_out (io_outbuf i)
      (Some {| cipher_key := encrypt_key is_incoming dh info_hash;
               cipher_pos := 0 |}) i).

Definition decryptInit (is_incoming : bool) (dh : DH) (info_hash : bytes)
  : M unit :=
  mod_io (fun i =>
    io_with_in (io_inbuf i)
      (Some {| cipher_key := decrypt_key is_incoming dh info_hash;
               cipher_pos := 0 |}) i).

Definition enableExtensions (reserved : bytes) : M unit :=
  mod_io (io_with_extensions (HANDSHAKE_HAS_DHT reserved)
            (HANDSHAKE_HAS_LTEP reserved) (HANDSHAKE_HAS_FASTEXT reserved)).

(** Modelled from the spec: [reconnect] of peer-io (sections 4.3, 4.6),
    0 when a TCP socket to the peer could be opened, which then replaces
    the old one. *)
Definition reconnect : M Z :=
  fun w =>
    match io_reconnects (io w) with
    | true :: rest =>
        (0, {| hs := hs w; io := io_with_socket false rest (io w);
               utp_failed := utp_failed w |})
    | false :: rest =>
        (-1, {| hs := hs w; io := io_with_socket (io_is_utp (io w)) rest (io w);
                utp_failed := utp_failed w |})
    | [] => (-1, w)
    end.

(** *** The members of handshake.h *)

Definition set_state (s : State) : M unit := mod_hs (hs_with_state s).

Definition is_state (s : State) : M bool :=
  get_hs (fun h => State_eqb (state_ h) s).

Definition set_peer_id (p : bytes) : M unit := mod_hs (hs_with_peer_id p).

Definition set_have_read_anything_from_peer (b : bool) : M unit :=
  mod_hs (hs_with_have_read b).

Definition setPeerPublicKey (k : bytes) : M unit :=
  mod_hs (fun h =>
    hs_with_dh {| dh_private_key := dh_private_key (dh_ h);
                  dh_peer_public_key := k |} h).

(** Modelled from the spec: [set_utp_failed] (section 4.4) tells the
    mediator that the peer at [addr] does not speak uTP for the torrent. *)
Definition set_utp_failed (info_hash : bytes) (addr : Z) : M unit :=
  fun w => (tt, {| hs := hs w; io := io w;
                   utp_failed := utp_failed w ++ [(info_hash, addr)] |}).

(** Modelled from the spec: [done] of handshake.h (sections 3 and 4.5).
    The done callback fires at most once, with the success flag; the
    handler's result follows the callback's answer. *)
Definition done (is_connected : bool) : M ReadState :=
  fun w =>
    match done_result (hs w) with
    | Some _ => (READ_ERR, w)
    | None =>
        ((if done_func med is_connected then READ_LATER else READ_ERR),
         {| hs := hs_with_done is_connected (hs w); io := io w;
            utp_failed := utp_failed w |})
    end.

(** Modelled from the spec: [send_public_key_and_pad<PadMax>] of
    handshake.h (section 4.5): our public key and a random padding. *)
Definition send_public_key_and_pad (PadMax : Z) : M unit :=
  k <- get_hs (fun h => dh_public_key cr (dh_private_key (dh_ h))) ;;
  writeBytes (k ++ pad med PadMax).

(** *** build_handshake_message

    The result and the 68 bytes of [buf] afterwards: untouched when the
    mediator does not know the torrent of the IO. *)
Definition build_handshake_message (i : tr_peerIo) (buf : bytes)
  : bool * bytes :=
  match torrent_info med (io_torrent_hash i) with
  | None => (false, buf)
  | Some info =>
      let flags := zeros 8 in
      let flags := HANDSHAKE_SET_LTEP flags in
      let flags := HANDSHAKE_SET_FASTEXT flags in
      let flags := if allows_dht med then HANDSHAKE_SET_DHT flags else flags in
      (true,
       HandshakeName ++ flags ++ io_torrent_hash i ++ client_peer_id info)
  end.

(** *** parse_handshake *)

Definition parse_handshake : M ParseResult :=
  sz <- readBufferSize ;;
  if sz <? HandshakeSize then ret EncryptionWrong else
  name <- readBytes 20 ;;
  if negb (bytes_eqb name HandshakeName) then ret EncryptionWrong else
  reserved <- readBytes HandshakeFlagsLen ;;
  info_hash <- readBytes Sha1Len ;;
  th <- torrentHash ;;
  if bytes_eqb info_hash zero_digest || negb (bytes_eqb info_hash th)
  then ret BadTorrent else
  peer_id <- readBytes PeerIdLen ;;
  set_peer_id peer_id ;;
  match torrent_info med info_hash with
  | Some info =>
      if bytes_eqb (client_peer_id info) peer_id then ret PeerIsSelf
      else enableExtensions reserved ;; ret Ok
  | None => enableExtensions reserved ;; ret Ok
  end.

(** *** Outgoing connections *)

Definition send_ya : M unit :=
  send_public_key_and_pad PadaMaxlen ;;
  set_state AwaitingYb.

Definition read_yb : M ReadState :=
  sz <- readBufferSize ;;
  if sz <? 20 then ret READ_LATER else
  starts <- readBufferStartsWith HandshakeName ;;
  let is_encrypted := negb starts in
  sz <- readBufferSize ;;
  if is_encrypted && (sz <? KeyLen) then ret READ_LATER else
  if negb is_encrypted then
    set_state AwaitingHandshake ;; ret READ_NOW
  else
  set_have_read_anything_from_peer true ;;
  peer_public_key <- readBytes KeyLen ;;
  setPeerPublicKey peer_public_key ;;
  dh <- get_hs dh_ ;;
  let outbuf := sha1 cr (req1 ++ secret dh) in
  info_hash <- torrentHash ;;
  let x_or := xor_bytes (sha1 cr (req2 ++ info_hash))
                        (sha1 cr (req3 ++ secret dh)) in
  let outbuf := outbuf ++ x_or in
  writeBytes outbuf ;;
  inc <- isIncoming ;;
  encryptInit inc dh info_hash ;;
  mode <- get_hs encryption_mode_ ;;
  let outbuf := VC ++ be32 (crypto_provide mode) ++ be16 0 in
  i <- get_io (fun i => i) ;;
  match build_handshake_message i (zeros 68) with
  | (true, msg) =>
      let outbuf := outbuf ++ be16 68 ++ msg in
      mod_hs (hs_with_have_sent true) ;;
      set_state AwaitingVc ;;
      writeBytes outbuf ;;
      ret READ_NOW
  | (false, _) => done false
  end.

Fixpoint read_vc_scan (n : nat) (needle info_hash : bytes) : M ReadState :=
  match n with
  | O => done false
  | S n' =>
      sz <- readBufferSize ;;
      if sz <? 8 then ret READ_LATER else
      found <- readBufferStartsWith needle ;;
      if found then
        inc <- isIncoming ;;
        dh <- get_hs dh_ ;;
        decryptInit inc dh info_hash ;;
        _ <- readBytes 8 ;;
        set_state AwaitingCryptoSelect ;;
        ret READ_NOW
      else
        readBufferDrain 1 ;;
        read_vc_scan n' needle info_hash
  end.

Definition read_vc : M ReadState :=
  info_hash <- torrentHash ;;
  dh <- get_hs dh_ ;;
  let needle := crypt (encrypt_key true dh info_hash) 0 VC in
  read_vc_scan (Z.to_nat PadbMaxlen) needle info_hash.

Definition read_crypto_select : M ReadState :=
  sz <- readBufferSize ;;
  if sz <? 4 + 2 then ret READ_LATER else
  crypto_select <- readUint32 ;;
  mod_hs (hs_with_crypto_select crypto_select) ;;
  mode <- get_hs encryption_mode_ ;;
  if Z.land crypto_select (crypto_provide mode) =? 0 then done false else
  pad_d_len <- readUint16 ;;
  if pad_d_len >? 512 then done false else
  mod_hs (hs_with_pad_d_len pad_d_len) ;;
  set_state AwaitingPadD ;;
  ret READ_NOW.

Definition read_pad_d : M ReadState :=
  needlen <- get_hs pad_d_len_ ;;
  sz <- readBufferSize ;;
  if sz <? needlen then ret READ_LATER else
  readBufferDrain needlen ;;
  set_state AwaitingHandshake ;;
  ret READ_NOW.

(** *** Incoming connections *)

Definition read_handshake : M ReadState :=
  sz <- readBufferSize ;;
  if sz <? IncomingHandshakeLen then ret READ_LATER else
  set_have_read_anything_from_peer true ;;
  starts <- readBufferStartsWith HandshakeName ;;
  mode <- get_hs encryption_mode_ ;;
  inc <- isIncoming ;;
  if starts && mode_eqb mode TR_ENCRYPTION_REQUIRED then done false else
  if negb starts && inc then set_state AwaitingYa ;; ret READ_NOW else
  name <- readBytes 20 ;;
  if negb (bytes_eqb name HandshakeName) then done false else
  reserved <- readBytes HandshakeFlagsLen ;;
  enableExtensions reserved ;;
  hash <- readBytes Sha1Len ;;
  th <- torrentHash ;;
  if inc && match torrent_info med hash with None => true | _ => false end
  then done false else
  if negb inc && negb (bytes_eqb th hash) then done false else
  when inc (setTorrentHash hash) ;;
  sent <- get_hs have_sent_bittorrent_handshake_ ;;
  i <- get_io (fun i => i) ;;
  if sent then set_state AwaitingPeerId ;; ret READ_NOW else
  match build_handshake_message i (zeros 68) with
  | (false, _) => done false
  | (true, msg) =>
      writeBytes msg ;;
      mod_hs (hs_with_have_sent true) ;;
      set_state AwaitingPeerId ;;
      ret READ_NOW
  end.

Definition read_peer_id : M ReadState :=
  sz <- readBufferSize ;;
  if sz <? PeerIdLen then ret READ_LATER else
  peer_id <- readBytes PeerIdLen ;;
  set_peer_id peer_id ;;
  info_hash <- torrentHash ;;
  let connected_to_self :=
    match torrent_info med info_hash with
    | Some info => bytes_eqb (client_peer_id info) peer_id
    | None => false
    end in
  done (negb connected_to_self).

Definition read_ya : M ReadState :=
  sz <- readBufferSize ;;
  if sz <? KeyLen then ret READ_LATER else
  peer_public_key <- readBytes KeyLen ;;
  setPeerPublicKey peer_public_key ;;
  send_public_key_and_pad PadbMaxlen ;;
  set_state AwaitingPadA ;;
  ret READ_NOW.

(** The body of the loop of [read_pad_a], [n] iterations to go; what
    follows the loop is the case [O]. *)
Fixpoint read_pad_a_scan (n : nat) (needle : bytes) : M ReadState :=
  match n with
  | O => done false
  | S n' =>
      sz <- readBufferSize ;;
      if sz <? Sha1Len then ret READ_LATER else
      found <- readBufferStartsWith needle ;;
      if found then
        readBufferDrain Sha1Len ;;
        set_state AwaitingCryptoProvide ;;
        ret READ_NOW
      else
        readBufferDrain 1 ;;
        read_pad_a_scan n' needle
  end.

Definition read_pad_a : M ReadState :=
  dh <- get_hs dh_ ;;
  let needle := sha1 cr (req1 ++ secret dh) in
  read_pad_a_scan (Z.to_nat PadaMaxlen) needle.

Definition read_crypto_provide : M ReadState :=
  let needlen := Sha1Len + 8 + 4 + 2 in
  sz <- readBufferSize ;;
  if sz <? needlen then ret READ_LATER else
  req2_in <- readBytes Sha1Len ;;
  dh <- get_hs dh_ ;;
  let req3_d := sha1 cr (req3 ++ secret dh) in
  let obfuscated_hash := xor_bytes req2_in req3_d in
  match torrent_info_from_obfuscated med obfuscated_hash with
  | None => done false
  | Some info =>
      let client_is_seed := is_done info in
      addr <- get_io io_address ;;
      let peer_is_seed := is_peer_known_seed med (id info) addr in
      setTorrentHash (info_hash info) ;;
      if client_is_seed && peer_is_seed then done false else
      info_hash <- torrentHash ;;
      inc <- isIncoming ;;
      decryptInit inc dh info_hash ;;
      vc_in <- readBytes 8 ;;
      crypto_provide_in <- readUint32 ;;
      mod_hs (hs_with_crypto_provide crypto_provide_in) ;;
      padc_len <- readUint16 ;;
      if padc_len >? PadcMaxlen then done false else
      mod_hs (hs_with_pad_c_len padc_len) ;;
      set_state AwaitingPadC ;;
      ret READ_NOW
  end.

Definition read_pad_c : M ReadState :=
  pad_c_len <- get_hs pad_c_len_ ;;
  sz <- readBufferSize ;;
  if sz <? pad_c_len + 2 then ret READ_LATER else
  _ <- readBytes pad_c_len ;;
  ia_len <- readUint16 ;;
  mod_hs (hs_with_ia_len ia_len) ;;
  set_state AwaitingIa ;;
  ret READ_NOW.

Definition read_ia : M ReadState :=
  needlen <- get_hs ia_len_ ;;
  sz <- readBufferSize ;;
  if sz <? needlen then ret READ_LATER else
  info_hash <- torrentHash ;;
  inc <- isIncoming ;;
  dh <- get_hs dh_ ;;
  encryptInit inc dh info_hash ;;
  let outbuf := VC in
  mode <- get_hs encryption_mode_ ;;
  provided <- get_hs crypto_provide_ ;;
  let crypto_select := getCryptoSelect mode provided in
  if crypto_select =? 0 then done false else
  let outbuf := outbuf ++ be32 crypto_select in
  let outbuf := outbuf ++ be16 0 in
  outbuf <- (if crypto_select =? CryptoProvidePlaintext
             then writeBytes outbuf ;; ret []
             else ret outbuf) ;;
  i <- get_io (fun i => i) ;;
  match build_handshake_message i (zeros 68) with
  | (false, _) => done false
  | (true, msg) =>
      let outbuf := outbuf ++ msg in
      mod_hs (hs_with_have_sent true) ;;
      writeBytes outbuf ;;
      set_state AwaitingPayloadStream ;;
      ret READ_NOW
  end.

Definition read_payload_stream : M ReadState :=
  sz <- readBufferSize ;;
  if sz <? HandshakeSize then ret READ_LATER else
  i <- parse_handshake ;;
  match i with
  | Ok => done true
  | _ => done false
  end.

(** *** The read callback *)

Definition dispatch : M ReadState :=
  st <- get_hs state_ ;;
  match st with
  | AwaitingHandshake => read_handshake
  | AwaitingPeerId => read_peer_id
  | AwaitingYa => read_ya
  | AwaitingPadA => read_pad_a
  | AwaitingCryptoProvide => read_crypto_provide
  | AwaitingPadC => read_pad_c
  | AwaitingIa => read_ia
  | AwaitingPayloadStream => read_payload_stream
  | AwaitingYb => read_yb
  | AwaitingVc => read_vc
  | AwaitingCryptoSelect => read_crypto_select
  | AwaitingPadD => read_pad_d
  end.

Definition ready_for_more (r : ReadState) : M bool :=
  match r with
  | READ_NOW =>
      st <- get_hs state_ ;;
      sz <- readBufferSize ;;
      match st with
      | AwaitingPadC => n <- get_hs pad_c_len_ ;; ret (n <=? sz)
      | AwaitingPadD => n <- get_hs pad_d_len_ ;; ret (n <=? sz)
      | AwaitingIa => n <- get_hs ia_len_ ;; ret (n <=? sz)
      | _ => ret true
      end
  | _ => ret false
  end.

(** The loop of [can_read], at most [fuel] rounds; [None] when the rounds
    are used up before the loop ends. *)
Fixpoint can_read_loop (fuel : nat) : M (option ReadState) :=
  match fuel with
  | O => ret None
  | S fuel' =>
      r <- dispatch ;;
      more <- ready_for_more r ;;
      if more then can_read_loop fuel' else ret (Some r)
  end.

(** No run of the loop goes through more than the twelve states. *)
Definition can_read : M (option ReadState) := can_read_loop 12.

(** *** The error callback *)

Definition send_plain_handshake : M unit :=
  i <- get_io (fun i => i) ;;
  let msg := snd (build_handshake_message i (zeros 68)) in
  mod_hs (hs_with_have_sent true) ;;
  set_state AwaitingHandshake ;;
  writeBytes msg.

Definition on_error (errcode : Z) : M unit :=
  utp <- get_io io_is_utp ;;
  inc <- isIncoming ;;
  yb <- is_state AwaitingYb ;;
  when (utp && negb inc && yb)
    (info_hash <- torrentHash ;;
     addr <- get_io io_address ;;
     let info := torrent_info med info_hash in
     when (((errcode =? ETIMEDOUT) || (errcode =? ECONNREFUSED)) &&
           match info with Some _ => true | None => false end)
       (set_utp_failed info_hash addr) ;;
     when (allows_tcp med)
       (r <- reconnect ;;
        when (r =? 0) send_plain_handshake)) ;;
  yb <- is_state AwaitingYb ;;
  vc <- is_state AwaitingVc ;;
  mode <- get_hs encryption_mode_ ;;
  if (yb || vc) && negb (mode_eqb mode TR_ENCRYPTION_REQUIRED) &&
     allows_tcp med
  then
    r <- reconnect ;;
    if r =? 0 then send_plain_handshake
    else _ <- done false ;; ret tt
  else _ <- done false ;; ret tt.

(** *** The constructor

    [members] stands for the default member initialisers of handshake.h:
    the constructor itself sets the key pair, the mode and, in each of its
    three branches, the state. *)

Definition new_handshake (i : tr_peerIo) (mode_in : tr_encryption_mode)
  (members : tr_handshake) (marked : list (bytes * Z)) : World :=
  let h :=
    {| state_ := state_ members; encryption_mode_ := mode_in;
       dh_ := {| dh_private_key := private_key med;
                 dh_peer_public_key := dh_peer_public_key (dh_ members) |};
       have_read_anything_from_peer_ := have_read_anything_from_peer_ members;
       have_sent_bittorrent_handshake_ :=
         have_sent_bittorrent_handshake_ members;
       peer_id_ := peer_id_ members;
       crypto_provide_ := crypto_provide_ members;
       crypto_select_ := crypto_select_ members;
       pad_c_len_ := pad_c_len_ members;
       pad_d_len_ := pad_d_len_ members;
       ia_len_ := ia_len_ members;
       done_result := None |} in
  let w := {| hs := h; io := i; utp_failed := marked |} in
  snd ((if io_is_incoming i then set_state AwaitingHandshake
        else if negb (mode_eqb mode_in TR_CLEAR_PREFERRED) then send_ya
        else send_plain_handshake) w).

End Handshake.

(** ** Vocabulary of the statements *)

(** The session has completed with failure: the done callback fired with
    [is_connected = false]. *)
Definition failed (w : World) : Prop := done_result (hs w) = Some false.

(** Bit 0 of a [crypto_provide] word offers plaintext, bit 1 offers RC4. *)
Definition offers_plaintext (crypto_provide : Z) : bool :=
  Z.testbit crypto_provide 0.
Definition offers_rc4 (crypto_provide : Z) : bool :=
  Z.testbit crypto_provide 1.

(** The 68 bytes of a plaintext handshake, as section 4.5 of the
    specification lays them out: the length byte and the protocol name,
    the reserved flags (LTEP, FastExt and, when allowed, DHT), the
    info-hash and the peer-id. *)
Definition handshake_message (dht : bool) (info_hash peer_id : bytes)
  : bytes :=
  HandshakeName ++ [0; 0; 0; 0; 0; 16; 0; if dht then 5 else 4] ++
  info_hash ++ peer_id.

(** The needle is at none of the first [n] offsets of the buffer. *)
Definition no_needle_before (n : nat) (needle buf : bytes) : Prop :=
  forall k, (k < n)%nat -> starts_with (skipn k buf) needle = false.

Definition no_needle_beforeb (n : nat) (needle buf : bytes) : bool :=
  forallb (fun k => negb (starts_with (skipn k buf) needle)) (seq 0 n).

(** The world after [n] bytes went from the read buffer through the
    decrypt filter. *)
Definition after_read (n : nat) (w : World) : World :=
  {| hs := hs w;
     io := io_with_in (skipn n (io_inbuf (io w)))
             (filter_advance (io_decrypt (io w)) n) (io w);
     utp_failed := utp_failed w |}.

(** Bytes arrive from the wire. *)
Definition receive (bs : bytes) (w : World) : World :=
  {| hs := hs w;
     io := io_with_in (io_inbuf (io w) ++ bs) (io_decrypt (io w)) (io w);
     utp_failed := utp_failed w |}.

Definition with_inbuf (buf : bytes) (w : World) : World :=
  {| hs := hs w; io := io_with_in buf (io_decrypt (io w)) (io w);
     utp_failed := utp_failed w |}.

(** An IO with its unread bytes left out of the comparison. *)
Definition io_sans_inbuf (i : tr_peerIo) : tr_peerIo :=
  io_with_in [] (io_decrypt i) i.

(** The two places where a session learns the peer-id. *)
Inductive PeerIdPath := PlaintextPath | EncryptedPath.

(** The order in which a session goes through the states. *)
Definition rank (s : State) : nat :=
  match s with
  | AwaitingYb => 0
  | AwaitingVc => 1
  | AwaitingCryptoSelect => 2
  | AwaitingPadD => 3
  | AwaitingHandshake => 4
  | AwaitingYa => 5
  | AwaitingPadA => 6
  | AwaitingCryptoProvide => 7
  | AwaitingPadC => 8
  | AwaitingIa => 9
  | AwaitingPayloadStream => 10
  | AwaitingPeerId => 11
  end.

(** A session that is to run [read_pad_c] has a PadC length within the
    handler's array. *)
Definition pad_c_ok (w : World) : Prop :=
  state_ (hs w) = AwaitingPadC -> pad_c_len_ (hs w) <= PadcMaxlen.

(** Since a world in state [s0] with PadC length [c0], [pad_c_len_] has
    not been written and AwaitingPadC has not been entered. *)
Definition keeps_pad_c (s0 : State) (c0 : Z) (w : World) : Prop :=
  pad_c_len_ (hs w) = c0 /\
  (state_ (hs w) = AwaitingPadC -> s0 = AwaitingPadC).

(** A computation keeps a property of the world. *)
Definition preserves {A : Type} (P : World -> Prop) (m : M A) : Prop :=
  forall w, P w -> P (snd (m w)).

Section Vocabulary.

Context (cr : Crypto) (med : Mediator).
Variable crypto_provide : tr_encryption_mode -> Z.

(** What reading [raw] gives when [skip] bytes went through the filter
    [f] before. *)
Definition plain_of (f : option Cipher) (skip : nat) (raw : bytes) : bytes :=
  filter_crypt cr (filter_advance f skip) raw.

Definition learn_peer_id (p : PeerIdPath) : M ReadState :=
  match p with
  | PlaintextPath => read_peer_id cr med
  | EncryptedPath => read_payload_stream cr med
  end.

(** The handler of path [p] is about to read the peer-id [peer_id]; on
    the encrypted path, of a handshake that names the torrent of the IO. *)
Definition learns_peer_id (p : PeerIdPath) (w : World) (peer_id : bytes)
  : Prop :=
  let buf := io_inbuf (io w) in
  let d := io_decrypt (io w) in
  match p with
  | PlaintextPath =>
      20 <= Z.of_nat (length buf) /\
      peer_id = plain_of d 0 (firstn 20 buf)
  | EncryptedPath =>
      68 <= Z.of_nat (length buf) /\
      plain_of d 0 (firstn 20 buf) = HandshakeName /\
      plain_of d 28 (firstn 20 (skipn 28 buf)) = io_torrent_hash (io w) /\
      io_torrent_hash (io w) <> zero_digest /\
      peer_id = plain_of d 48 (firstn 20 (skipn 48 buf))
  end.

(** The mediator's peer-id of ours for the torrent is the one received. *)
Definition is_self (info_hash peer_id : bytes) : Prop :=
  exists info, torrent_info med info_hash = Some info /\
               client_peer_id info = peer_id.

(** What can happen to a session that has not completed: bytes arrive,
    the read callback runs a handler, the error callback runs, the timer
    fires. *)
Inductive step (w : World) : World -> Prop :=
| step_receive (bs : bytes) :
    done_result (hs w) = None -> step w (receive bs w)
| step_read :
    done_result (hs w) = None ->
    step w (snd (dispatch cr med crypto_provide w))
| step_error (errcode : Z) :
    done_result (hs w) = None ->
    step w (snd (on_error cr med errcode w))
| step_timeout :
    done_result (hs w) = None -> step w (snd (done med false w)).

Inductive reachable : World -> Prop :=
| reachable_new (i : tr_peerIo) (mode : tr_encryption_mode)
    (members : tr_handshake) (marked : list (bytes * Z)) :
    reachable (new_handshake cr med i mode members marked)
| reachable_step (w w' : World) :
    reachable w -> step w w' -> reachable w'.

End Vocabulary.

(** ** Vocabulary of the properties of whole sessions *)

(** The unread bytes as the handlers would read them now: through the
    decrypt filter as it stands. *)
Definition pending (cr : Crypto) (w : World) : bytes :=
  filter_crypt cr (io_decrypt (io w)) (io_inbuf (io w)).

(** An IO that has carried nothing yet. *)
Definition fresh_io (i : tr_peerIo) : Prop :=
  io_inbuf i = [] /\ io_outbuf i = [] /\
  io_decrypt i = None /\ io_encrypt i = None.

(** The states of the two halves of the source file, and those that come
    after our handshake went out and after the peer was heard. *)
Definition incoming_state (s : State) : bool :=
  match s with
  | AwaitingYa | AwaitingPadA | AwaitingCryptoProvide | AwaitingPadC
  | AwaitingIa | AwaitingPayloadStream => true
  | _ => false
  end.

Definition outgoing_state (s : State) : bool :=
  match s with
  | AwaitingYb | AwaitingVc | AwaitingCryptoSelect | AwaitingPadD => true
  | _ => false
  end.

Definition sent_state (s : State) : bool :=
  match s with
  | AwaitingPeerId | AwaitingPayloadStream | AwaitingVc
  | AwaitingCryptoSelect | AwaitingPadD => true
  | _ => false
  end.

Definition heard_state (s : State) : bool :=
  match s with
  | AwaitingHandshake | AwaitingYb => false
  | _ => true
  end.

(** What holds of a session all along. *)
Definition session_ok (med : Mediator) (w : World) : Prop :=
  (incoming_state (state_ (hs w)) = true -> io_is_incoming (io w) = true) /\
  (outgoing_state (state_ (hs w)) = true -> io_is_incoming (io w) = false) /\
  (sent_state (state_ (hs w)) = true ->
   have_sent_bittorrent_handshake_ (hs w) = true) /\
  (heard_state (state_ (hs w)) = true ->
   have_read_anything_from_peer_ (hs w) = true) /\
  (done_result (hs w) = Some true ->
   have_sent_bittorrent_handshake_ (hs w) = true /\
   have_read_anything_from_peer_ (hs w) = true /\
   exists p, peer_id_ (hs w) = Some p /\ length p = 20%nat /\
             ~ is_self med (io_torrent_hash (io w)) p).

(** The states that come after the decrypt key, and after the encrypt
    key, when nothing is accepted in the clear. *)
Definition decrypting_state (s : State) : bool :=
  match s with
  | AwaitingCryptoSelect | AwaitingPadD | AwaitingPadC | AwaitingIa
  | AwaitingPayloadStream | AwaitingPeerId => true
  | _ => false
  end.

Definition encrypting_state (s : State) : bool :=
  match s with
  | AwaitingVc | AwaitingCryptoSelect | AwaitingPadD
  | AwaitingPayloadStream | AwaitingPeerId => true
  | _ => false
  end.

(** What holds all along of a session that requires encryption. *)
Definition required_ok (w : World) : Prop :=
  encryption_mode_ (hs w) = TR_ENCRYPTION_REQUIRED /\
  (done_result (hs w) = None ->
   (decrypting_state (state_ (hs w)) = true -> io_decrypt (io w) <> None) /\
   (encrypting_state (state_ (hs w)) = true -> io_encrypt (io w) <> None) /\
   (io_is_incoming (io w) = false -> io_decrypt (io w) <> None ->
    io_encrypt (io w) <> None)) /\
  (done_result (hs w) = Some true ->
   io_decrypt (io w) <> None /\ io_encrypt (io w) <> None).

(** What no step of a session changes, and the one way the state moves. *)
Definition moves_on (w w' : World) : Prop :=
  (rank (state_ (hs w)) <= rank (state_ (hs w')))%nat /\
  encryption_mode_ (hs w') = encryption_mode_ (hs w) /\
  dh_private_key (dh_ (hs w')) = dh_private_key (dh_ (hs w)) /\
  io_is_incoming (io w') = io_is_incoming (io w) /\
  io_address (io w') = io_address (io w).

(** The read callback has answered READ_NOW for want of padding or of
    the initial payload. *)
Definition short_of (w : World) : Prop :=
  let sz := Z.of_nat (length (io_inbuf (io w))) in
  (state_ (hs w) = AwaitingPadC /\ sz < pad_c_len_ (hs w)) \/
  (state_ (hs w) = AwaitingPadD /\ sz < pad_d_len_ (hs w)) \/
  (state_ (hs w) = AwaitingIa /\ sz < ia_len_ (hs w)).

Section Onwards.

Context (cr : Crypto) (med : Mediator).
Variable crypto_provide : tr_encryption_mode -> Z.

(** The sessions that a given one can become. *)
Inductive reachable_from (w0 : World) : World -> Prop :=
| from_here : reachable_from w0 w0
| from_step (w w' : World) :
    reachable_from w0 w -> step cr med crypto_provide w w' ->
    reachable_from w0 w'.

End Onwards.

(** ** A small instance of the collaborators

    Stand-ins for SHA-1, DH and RC4 that compute, and a mediator that
    hosts one torrent: enough to run the handlers on concrete sessions. *)

Module Sample.

Fixpoint mix (acc : Z) (bs : bytes) : Z :=
  match bs with
  | [] => acc
  | b :: bs' => mix (Z.land (acc * 5 + b + 1) 1023) bs'
  end.

Fixpoint upto (n : nat) (from : Z) : list Z :=
  match n with
  | O => []
  | Datatypes.S n' => from :: upto n' (from + 1)
  end.

Definition crypto : Crypto :=
  {| sha1 := fun bs =>
       let m := mix 17 bs in
       map (fun k => Z.land (m + 37 * k) 255) (upto 20 1);
     dh_public_key := fun priv =>
       let m := mix 3 priv in
       map (fun k => Z.land (m + k) 255) (upto 96 1);
     dh_shared_secret := fun priv pub =>
       let m := mix 5 priv + mix 5 pub in
       map (fun k => Z.land (m + 3 * k) 255) (upto 96 1);
     keystream := fun key n =>
       Z.land (mix 11 key + 13 * Z.of_nat n) 255 |}.

Definition torrent_hash : bytes := repeat 170 20.

(** "-TR3000-abcdefghijkl" and "-TR3000-zzzzzzzzzzzz". *)
Definition our_peer_id : bytes :=
  [45; 84; 82; 51; 48; 48; 48; 45;
   97; 98; 99; 100; 101; 102; 103; 104; 105; 106; 107; 108].

Definition their_peer_id : bytes :=
  [45; 84; 82; 51; 48; 48; 48; 45] ++ repeat 122 12.

Definition torrent : tr_torrent_info :=
  {| info_hash := torrent_hash; client_peer_id := our_peer_id;
     id := 1; is_done := false |}.

Definition mediator : Mediator :=
  {| torrent_info := fun h =>
       if bytes_eqb h torrent_hash then Some torrent else None;
     torrent_info_from_obfuscated := fun o =>
       if bytes_eqb o (sha1 crypto (req2 ++ torrent_hash))
       then Some torrent else None;
     is_peer_known_seed := fun _ _ => false;
     allows_dht := true;
     allows_tcp := true;
     private_key := [1; 2; 3; 4; 5];
     pad := fun _ => [];
     done_func := fun ok => ok |}.

Definition crypto_provide (mode : tr_encryption_mode) : Z :=
  match mode with
  | TR_CLEAR_PREFERRED => 3
  | _ => 2
  end.

Definition new_io (incoming utp : bool) (hash : bytes)
  (reconnects : list bool) : tr_peerIo :=
  {| io_is_incoming := incoming; io_is_utp := utp; io_address := 7;
     io_torrent_hash := hash; io_inbuf := []; io_outbuf := [];
     io_decrypt := None; io_encrypt := None;
     io_dht := false; io_ltep := false; io_fext := false;
     io_reconnects := reconnects |}.

(** Members that start at zero. *)
Definition members : tr_handshake :=
  {| state_ := AwaitingHandshake; encryption_mode_ := TR_CLEAR_PREFERRED;
     dh_ := {| dh_private_key := []; dh_peer_public_key := [] |};
     have_read_anything_from_peer_ := false;
     have_sent_bittorrent_handshake_ := false;
     peer_id_ := None; crypto_provide_ := 0; crypto_select_ := 0;
     pad_c_len_ := 0; pad_d_len_ := 0; ia_len_ := 0;
     done_result := None |}.

Definition start (incoming utp : bool) (hash : bytes)
  (reconnects : list bool) (mode : tr_encryption_mode) : World :=
  new_handshake crypto mediator (new_io incoming utp hash reconnects) mode
    members [].

(** One round of the read callback. *)
Definition read (w : World) : World :=
  snd (dispatch crypto mediator crypto_provide w).

(** *** The peer of an encrypted handshake, seen from the wire *)

Definition peer_private_key : bytes := [9; 8; 7].
Definition Y : bytes := dh_public_key crypto peer_private_key.

(** The secret as our side computes it from the peer's key. *)
Definition S : bytes := dh_shared_secret crypto (private_key mediator) Y.

Definition needle : bytes := sha1 crypto (req1 ++ S).

Definition obfuscated : bytes :=
  xor_bytes (sha1 crypto (req2 ++ torrent_hash)) (sha1 crypto (req3 ++ S)).

Definition initiator_key : bytes := sha1 crypto (keyA ++ S ++ torrent_hash).
Definition responder_key : bytes := sha1 crypto (keyB ++ S ++ torrent_hash).

(** Messages 1 and 3 of an initiator, with [PadA = padA], the bytes [vc]
    where VC goes, a PadC of [pad_c_len] zero bytes, and its handshake as
    the payload. *)
Definition initiator_stream (padA vc : bytes) (pad_c_len : Z)
  (peer_id : bytes) : bytes :=
  Y ++ padA ++ needle ++ obfuscated ++
  crypt crypto initiator_key 0
    (vc ++ be32 3 ++ be16 pad_c_len ++ zeros (Z.to_nat pad_c_len) ++
     be16 0 ++ handshake_message true torrent_hash peer_id).

(** An incoming session that received all of it at once and has read the
    peer's key; then the next three rounds of the read callback. *)
Definition after_ya (padA vc : bytes) (pad_c_len : Z) (peer_id : bytes)
  : World :=
  read (read (receive (initiator_stream padA vc pad_c_len peer_id)
                (start true false [] [] TR_ENCRYPTION_PREFERRED))).

Definition after_pad_a (padA vc : bytes) (pad_c_len : Z) (peer_id : bytes)
  : World :=
  read (after_ya padA vc pad_c_len peer_id).

Definition after_crypto_provide (padA vc : bytes) (pad_c_len : Z)
  (peer_id : bytes) : World :=
  read (after_pad_a padA vc pad_c_len peer_id).

Definition after_ia (padA vc : bytes) (pad_c_len : Z) (peer_id : bytes)
  : World :=
  read (read (after_crypto_provide padA vc pad_c_len peer_id)).

(** The same stream in two deliveries, the first of [n] bytes, with a
    round of the read callback after each state change. *)
Definition after_pad_a_in_two (n : nat) (padA : bytes) : World :=
  let stream := initiator_stream padA VC 0 their_peer_id in
  let w := start true false [] [] TR_ENCRYPTION_PREFERRED in
  let w := read (read (read (receive (firstn n stream) w))) in
  read (receive (skipn n stream) w).

(** Message 2 and 4 of a responder that selects [crypto_select] and
    announces a PadD of [pad_d_len] bytes. *)
Definition responder_stream (padB : bytes) (crypto_select pad_d_len : Z)
  : bytes :=
  Y ++ padB ++
  crypt crypto responder_key 0 (VC ++ be32 crypto_select ++ be16 pad_d_len).

(** An outgoing session that has received the responder's key. *)
Definition got_yb : World :=
  receive Y (start false false torrent_hash [] TR_ENCRYPTION_PREFERRED).

(** An outgoing session that has found the responder's VC. *)
Definition after_vc (crypto_select pad_d_len : Z) : World :=
  read (read (receive (responder_stream [5; 6] crypto_select pad_d_len)
                (start false false torrent_hash [] TR_ENCRYPTION_PREFERRED))).

(** An incoming plaintext session that has read the first 48 bytes of the
    peer's handshake. *)
Definition after_handshake (peer_id : bytes) : World :=
  read (receive (handshake_message true torrent_hash peer_id)
          (start true false [] [] TR_CLEAR_PREFERRED)).

(** An outgoing uTP session on torrent [hash], waiting for Yb. *)
Definition utp_session (hash : bytes) (reconnects : list bool) : World :=
  start false true hash reconnects TR_ENCRYPTION_PREFERRED.

(** A session whose IO names the all-zero torrent, holding a handshake
    that names it too. *)
Definition zero_hash_session : World :=
  receive (handshake_message true zero_digest their_peer_id)
    (start true false zero_digest [] TR_ENCRYPTION_PREFERRED).

End Sample.

(** ** Two clients of one torrent

    The client of [Sample] and a second one, with a peer-id, a private key
    and padding of its own, and a Diffie-Hellman stand-in on whose secret
    the two sides agree: the public key carries a number made from the
    private key, and the secret is made from the sum of the two numbers. *)

Module Pair.

Definition number (priv : bytes) : Z := Z.land (Sample.mix 3 priv) 255.

Definition crypto : Crypto :=
  {| sha1 := sha1 Sample.crypto;
     dh_public_key := fun priv => number priv :: repeat 1 95;
     dh_shared_secret := fun priv pub =>
       let m := number priv + hd 0 pub in
       map (fun k => Z.land (m + 3 * k) 255) (Sample.upto 96 1);
     keystream := keystream Sample.crypto |}.

Definition torrent_b : tr_torrent_info :=
  {| info_hash := Sample.torrent_hash;
     client_peer_id := Sample.their_peer_id;
     id := 1; is_done := false |}.

Definition mediator_a : Mediator :=
  {| torrent_info := torrent_info Sample.mediator;
     torrent_info_from_obfuscated :=
       torrent_info_from_obfuscated Sample.mediator;
     is_peer_known_seed := fun _ _ => false;
     allows_dht := true;
     allows_tcp := true;
     private_key := [1; 2; 3; 4; 5];
     pad := fun _ => [7; 7; 7];
     done_func := fun ok => ok |}.

Definition mediator_b : Mediator :=
  {| torrent_info := fun h =>
       if bytes_eqb h Sample.torrent_hash then Some torrent_b else None;
     torrent_info_from_obfuscated := fun o =>
       if bytes_eqb o (sha1 crypto (req2 ++ Sample.torrent_hash))
       then Some torrent_b else None;
     is_peer_known_seed := fun _ _ => false;
     allows_dht := false;
     allows_tcp := true;
     private_key := [9; 8; 7];
     pad := fun _ => [9; 9];
     done_func := fun ok => ok |}.

(** The initiator's IO names the torrent; the responder's does not yet. *)
Definition io_a : tr_peerIo :=
  Sample.new_io false false Sample.torrent_hash [].
Definition io_b : tr_peerIo := Sample.new_io true false [] [].

(** The responder, with the torrent already on its IO, has received the
    initiator's handshake and [rest]. *)
Definition heard_a (rest : bytes) : World :=
  receive
    (handshake_message true Sample.torrent_hash Sample.our_peer_id ++ rest)
    (new_handshake crypto mediator_b
       (Sample.new_io true false Sample.torrent_hash [])
       TR_ENCRYPTION_PREFERRED Sample.members []).

(** *** Sessions of the sample client *)

(** An outgoing session that has answered the responder's key and is to
    look for its VC behind [padB]. *)
Definition before_vc (padB : bytes) : World :=
  Sample.read
    (receive (Sample.responder_stream padB 2 0)
       (Sample.start false false Sample.torrent_hash []
          TR_ENCRYPTION_PREFERRED)).

(** A session in the clear that holds the peer's handshake. *)
Definition holds_handshake (incoming : bool) : World :=
  receive (handshake_message true Sample.torrent_hash Sample.their_peer_id)
    (Sample.start incoming false (if incoming then [] else Sample.torrent_hash)
       [] TR_CLEAR_PREFERRED).

(** [n] rounds of the read callback. *)
Fixpoint rounds (n : nat) (w : World) : World :=
  match n with
  | O => w
  | S n' => Sample.read (rounds n' w)
  end.

(** An incoming session that requires encryption, [n] rounds after the
    initiator's stream arrived. *)
Definition required_session (n : nat) : World :=
  rounds n
    (receive (Sample.initiator_stream [1; 2; 3] VC 2 Sample.their_peer_id)
       (Sample.start true false [] [] TR_ENCRYPTION_REQUIRED)).

End Pair.

(** ** Running a handler in a proof *)

Ltac hs_run :=
  cbv beta iota zeta delta
    [bind ret get_io get_hs mod_io mod_hs when
     readBufferSize readBufferStartsWith readUint16 readUint32
     readBufferDrain readBytes writeBytes torrentHash setTorrentHash
     isIncoming encryptInit decryptInit enableExtensions set_state
     is_state set_peer_id set_have_read_anything_from_peer
     setPeerPublicKey set_utp_failed done send_public_key_and_pad
     hs io utp_failed fst snd].

Ltac hs_simpl :=
  cbn [hs io utp_failed fst snd negb andb orb
       state_ encryption_mode_ dh_ have_read_anything_from_peer_
       have_sent_bittorrent_handshake_ peer_id_ crypto_provide_
       crypto_select_ pad_c_len_ pad_d_len_ ia_len_ done_result
       hs_with_state hs_with_dh hs_with_have_read hs_with_have_sent
       hs_with_peer_id hs_with_crypto_provide hs_with_crypto_select
       hs_with_pad_c_len hs_with_pad_d_len hs_with_ia_len hs_with_done
       io_is_incoming io_is_utp io_address io_torrent_hash io_inbuf
       io_outbuf io_decrypt io_encrypt io_dht io_ltep io_fext io_reconnects
       io_with_torrent_hash io_with_in io_with_out io_with_extensions
       io_with_socket] in *.

Ltac hs_step := hs_run; hs_simpl.

(** Run, and split on the tests the run gets stuck at. *)
Ltac hs_cases :=
  repeat (hs_step;
          try match goal with
              | |- context [if ?c then _ else _] => destruct c eqn:?
              | |- context [build_handshake_message ?m ?i ?b] =>
                  destruct (build_handshake_message m i b) as [[|] ?] eqn:?
              | |- context [torrent_info ?m ?h] =>
                  destruct (torrent_info m h) eqn:?
              | |- context [torrent_info_from_obfuscated ?m ?h] =>
                  destruct (torrent_info_from_obfuscated m h) eqn:?
              | |- context [match ?x with Some _ => _ | None => _ end] =>
                  destruct x eqn:?
              end).

(** ** Bytes, buffers and filters *)

Lemma size_ok (l : bytes) (n : Z) :
  n <= Z.of_nat (length l) -> (Z.of_nat (length l) <? n) = false.
Proof. intros H. apply Z.ltb_ge. exact H. Qed.

Lemma firstn_len (n : nat) (l : bytes) :
  (n <= length l)%nat -> length (firstn n l) = n.
Proof. intros H. rewrite length_firstn. lia. Qed.

Lemma firstn_exact (a b : bytes) (n : nat) :
  length a = n -> firstn n (a ++ b) = a.
Proof.
  intros <-. rewrite firstn_app, Nat.sub_diag, firstn_all. apply app_nil_r.
Qed.

Lemma skipn_exact (a b : bytes) (n : nat) :
  length a = n -> skipn n (a ++ b) = b.
Proof.
  intros <-. rewrite skipn_app, Nat.sub_diag, skipn_all. reflexivity.
Qed.

Lemma bytes_eqb_eq (a b : bytes) : bytes_eqb a b = true <-> a = b.
Proof.
  revert b. induction a as [|x a IH]; intros [|y b]; cbn;
    try (split; [discriminate|discriminate]); [tauto|].
  rewrite andb_true_iff, Z.eqb_eq, IH. split.
  - intros [-> ->]. reflexivity.
  - intros E. inversion E. auto.
Qed.

Lemma bytes_eqb_refl (a : bytes) : bytes_eqb a a = true.
Proof. apply bytes_eqb_eq. reflexivity. Qed.

Lemma bytes_eqb_neq (a b : bytes) : bytes_eqb a b = false <-> a <> b.
Proof.
  rewrite <- bytes_eqb_eq. destruct (bytes_eqb a b); split; congruence.
Qed.

Lemma starts_with_app (needle rest : bytes) :
  starts_with (needle ++ rest) needle = true.
Proof.
  induction needle as [|x needle IH]; cbn; [reflexivity|].
  rewrite Z.eqb_refl. exact IH.
Qed.

Lemma no_needle_before_tail (n : nat) (needle buf : bytes) :
  no_needle_before (S n) needle buf ->
  no_needle_before n needle (skipn 1 buf).
Proof.
  intros H k Hk. rewrite skipn_skipn. apply H. lia.
Qed.

Lemma no_needle_before_check (n : nat) (needle buf : bytes) :
  no_needle_beforeb n needle buf = true -> no_needle_before n needle buf.
Proof.
  unfold no_needle_beforeb, no_needle_before. rewrite forallb_forall.
  intros H k Hk. apply negb_true_iff. apply H. apply in_seq. lia.
Qed.

Lemma filter_advance_add (f : option Cipher) (a b : nat) :
  filter_advance (filter_advance f a) b = filter_advance f (a + b).
Proof. destruct f; cbn; [rewrite Nat.add_assoc|]; reflexivity. Qed.

Lemma after_read_0 (w : World) : after_read 0 w = w.
Proof.
  destruct w as [h i u], i as [? ? ? ? ? ? d ? ? ? ? ?].
  unfold after_read. hs_simpl. cbn [skipn].
  destruct d as [[k p]|]; cbn; [rewrite Nat.add_0_r|]; reflexivity.
Qed.

Lemma land_pow2 (a k : Z) : 0 <= k ->
  Z.land a (2 ^ k) = if Z.testbit a k then 2 ^ k else 0.
Proof.
  intros Hk. apply Z.bits_inj'. intros n Hn.
  rewrite Z.land_spec, Z.pow2_bits_eqb by assumption.
  destruct (Z.eqb_spec k n) as [->|Hne].
  - destruct (Z.testbit a n) eqn:E; simpl.
    + rewrite Z.pow2_bits_eqb, Z.eqb_refl by assumption. reflexivity.
    + rewrite Z.bits_0. reflexivity.
  - rewrite andb_false_r. destruct (Z.testbit a k).
    + rewrite Z.pow2_bits_eqb by assumption. symmetry.
      apply Z.eqb_neq. assumption.
    + rewrite Z.bits_0. reflexivity.
Qed.

Lemma land_plaintext (cp : Z) :
  Z.land cp CryptoProvidePlaintext = if offers_plaintext cp then 1 else 0.
Proof. exact (land_pow2 cp 0 (Z.le_refl 0)). Qed.

Lemma land_crypto (cp : Z) :
  Z.land cp CryptoProvideCrypto = if offers_rc4 cp then 2 else 0.
Proof. apply (land_pow2 cp 1). lia. Qed.

Section Filters.

Context (cr : Crypto).

Lemma plain_of_0 (f : option Cipher) (bs : bytes) :
  plain_of cr f 0 bs = filter_crypt cr f bs.
Proof.
  destruct f; unfold plain_of; cbn; [rewrite Nat.add_0_r|]; reflexivity.
Qed.

Lemma length_crypt (key : bytes) (pos : nat) (bs : bytes) :
  length (crypt cr key pos bs) = length bs.
Proof.
  revert pos. induction bs as [|b bs IH]; intros pos; cbn; [|rewrite IH];
    reflexivity.
Qed.

Lemma length_filter_crypt (f : option Cipher) (bs : bytes) :
  length (filter_crypt cr f bs) = length bs.
Proof. destruct f; cbn; [apply length_crypt|reflexivity]. Qed.

End Filters.

(** ** The handlers, step by step *)

Section Handlers.

Context (cr : Crypto) (med : Mediator).
Variable crypto_provide : tr_encryption_mode -> Z.

Lemma build_handshake_message_known (i : tr_peerIo) (buf : bytes)
  (info : tr_torrent_info) :
  torrent_info med (io_torrent_hash i) = Some info ->
  build_handshake_message med i buf =
    (true, handshake_message (allows_dht med) (io_torrent_hash i)
             (client_peer_id info)).
Proof.
  intros H. unfold build_handshake_message, handshake_message. rewrite H.
  destruct (allows_dht med); reflexivity.
Qed.

Lemma build_handshake_message_unknown (i : tr_peerIo) (buf : bytes) :
  torrent_info med (io_torrent_hash i) = None ->
  build_handshake_message med i buf = (false, buf).
Proof. intros H. unfold build_handshake_message. rewrite H. reflexivity. Qed.

Lemma is_self_known (info_hash peer_id : bytes) (info : tr_torrent_info) :
  torrent_info med info_hash = Some info ->
  (is_self med info_hash peer_id <->
   bytes_eqb (client_peer_id info) peer_id = true).
Proof.
  intros H. unfold is_self. rewrite bytes_eqb_eq. split.
  - intros [info' [E1 E2]]. congruence.
  - intros E. exists info. auto.
Qed.

Lemma is_self_unknown (info_hash peer_id : bytes) :
  torrent_info med info_hash = None -> ~ is_self med info_hash peer_id.
Proof. intros H [info [E _]]. congruence. Qed.

Lemma done_not_now (b : bool) (w : World) : fst (done med b w) <> READ_NOW.
Proof.
  unfold done. destruct (done_result (hs w)); cbn; [discriminate|].
  destruct (done_func med b); discriminate.
Qed.

(** *** The scan for the end of PadA *)

(** The loop runs out when the needle is at none of the [n] offsets it
    looks at: [n] bytes are drained and the session fails. *)
Lemma read_pad_a_scan_exhausted (n : nat) (needle : bytes) : forall w,
  (n + 19 <= length (io_inbuf (io w)))%nat ->
  no_needle_before n needle (io_inbuf (io w)) ->
  read_pad_a_scan cr med n needle w = done med false (after_read n w).
Proof.
  induction n as [|n IH]; intros w Hlen Hno.
  - rewrite after_read_0. reflexivity.
  - destruct w as [h i u]. cbn [hs io] in Hlen, Hno.
    pose proof (Hno 0%nat ltac:(lia)) as H0. cbn [skipn] in H0.
    cbn [read_pad_a_scan]. hs_step.
    rewrite size_ok by (unfold Sha1Len; lia). hs_step.
    rewrite H0. hs_step. change (Z.to_nat 1) with 1%nat.
    rewrite firstn_len by lia.
    match goal with |- read_pad_a_scan _ _ _ _ ?w1 = _ =>
      specialize (IH w1) end.
    hs_simpl. rewrite IH.
    + unfold after_read. hs_simpl.
      rewrite skipn_skipn, filter_advance_add, Nat.add_comm. reflexivity.
    + rewrite length_skipn. lia.
    + apply no_needle_before_tail. exact Hno.
Qed.

(** The loop finds a needle that follows fewer than [n] bytes. *)
Lemma read_pad_a_scan_found (pad needle rest : bytes) : forall n w,
  io_inbuf (io w) = pad ++ needle ++ rest ->
  length needle = 20%nat ->
  (length pad < n)%nat ->
  no_needle_before (length pad) needle (io_inbuf (io w)) ->
  read_pad_a_scan cr med n needle w =
    (READ_NOW,
     {| hs := hs_with_state AwaitingCryptoProvide (hs w);
        io := io (after_read (length pad + 20) w);
        utp_failed := utp_failed w |}).
Proof.
  induction pad as [|p pad IH]; intros n w Hbuf Hneedle Hn Hno;
    destruct w as [h i u]; cbn [hs io] in Hbuf, Hno.
  - destruct n as [|n]; [inversion Hn|].
    assert (Hlen : (20 <= length (io_inbuf i))%nat)
      by (rewrite Hbuf, !length_app; lia).
    assert (Hst : starts_with (io_inbuf i) needle = true)
      by (rewrite Hbuf; cbn [app]; apply starts_with_app).
    cbn [read_pad_a_scan]. hs_step.
    rewrite size_ok by (unfold Sha1Len; lia). hs_step.
    rewrite Hst. hs_step.
    change (Z.to_nat Sha1Len) with 20%nat.
    rewrite firstn_len by lia. reflexivity.
  - destruct n as [|n]; [inversion Hn|].
    assert (Hlen : (21 <= length (io_inbuf i))%nat)
      by (rewrite Hbuf, !length_app; cbn [length]; lia).
    pose proof (Hno 0%nat ltac:(cbn [length]; lia)) as H0.
    cbn [skipn] in H0.
    cbn [read_pad_a_scan]. hs_step.
    rewrite size_ok by (unfold Sha1Len; lia). hs_step.
    rewrite H0. hs_step. change (Z.to_nat 1) with 1%nat.
    rewrite firstn_len by lia.
    match goal with |- read_pad_a_scan _ _ _ _ ?w1 = _ =>
      specialize (IH n w1) end.
    hs_simpl. rewrite IH.
    + unfold after_read. hs_simpl.
      rewrite skipn_skipn, filter_advance_add. cbn [length].
      replace (length pad + 20 + 1)%nat with (S (length pad) + 20)%nat by lia.
      replace (1 + (length pad + 20))%nat with (S (length pad) + 20)%nat by lia.
      reflexivity.
    + rewrite Hbuf. reflexivity.
    + exact Hneedle.
    + cbn [length] in Hn. lia.
    + apply no_needle_before_tail. exact Hno.
Qed.

(** A PadA of up to 511 bytes that arrived whole, needle and all, is
    skipped, and the session goes on to AwaitingCryptoProvide. *)
Lemma read_pad_a_finds_short_pad (w : World) (pad rest : bytes) :
  let needle := sha1 cr (req1 ++ secret cr (dh_ (hs w))) in
  io_inbuf (io w) = pad ++ needle ++ rest ->
  (length pad <= 511)%nat ->
  length needle = 20%nat ->
  no_needle_before (length pad) needle (io_inbuf (io w)) ->
  fst (read_pad_a cr med w) = READ_NOW /\
  state_ (hs (snd (read_pad_a cr med w))) = AwaitingCryptoProvide /\
  done_result (hs (snd (read_pad_a cr med w))) = done_result (hs w) /\
  io_inbuf (io (snd (read_pad_a cr med w))) = rest.
Proof.
  intros needle Hbuf Hpad Hneedle Hno.
  unfold read_pad_a, bind, get_hs. fold needle.
  change (Z.to_nat PadaMaxlen) with 512%nat.
  rewrite (read_pad_a_scan_found pad needle rest) by (assumption || lia).
  unfold after_read. hs_simpl. repeat split.
  rewrite Hbuf, app_assoc. apply skipn_exact.
  rewrite length_app. lia.
Qed.

(** *** A handler that answers READ_NOW has moved the session forward
    and has not completed it *)

Lemma read_pad_a_scan_next (n : nat) (needle : bytes) (w : World) :
  fst (read_pad_a_scan cr med n needle w) = READ_NOW ->
  state_ (hs (snd (read_pad_a_scan cr med n needle w))) =
    AwaitingCryptoProvide /\
  done_result (hs (snd (read_pad_a_scan cr med n needle w))) =
    done_result (hs w).
Proof.
  revert w. induction n as [|n IH]; intros [h i u].
  - intros H. destruct (done_not_now _ _ H).
  - cbn [read_pad_a_scan]. hs_step.
    destruct (_ <? _); hs_step; [discriminate|].
    destruct (starts_with _ _); hs_step; [split; reflexivity|].
    intros H. apply IH in H. exact H.
Qed.

Lemma read_vc_scan_next (n : nat) (needle info_hash : bytes) (w : World) :
  fst (read_vc_scan cr med n needle info_hash w) = READ_NOW ->
  state_ (hs (snd (read_vc_scan cr med n needle info_hash w))) =
    AwaitingCryptoSelect /\
  done_result (hs (snd (read_vc_scan cr med n needle info_hash w))) =
    done_result (hs w).
Proof.
  revert w. induction n as [|n IH]; intros [h i u].
  - intros H. destruct (done_not_now _ _ H).
  - cbn [read_vc_scan]. hs_step.
    destruct (_ <? _); hs_step; [discriminate|].
    destruct (starts_with _ _); hs_step; [split; reflexivity|].
    intros H. apply IH in H. exact H.
Qed.

Lemma dispatch_advances (w : World) :
  fst (dispatch cr med crypto_provide w) = READ_NOW ->
  (rank (state_ (hs w)) <
   rank (state_ (hs (snd (dispatch cr med crypto_provide w)))))%nat /\
  done_result (hs (snd (dispatch cr med crypto_provide w))) =
    done_result (hs w).
Proof.
  destruct w as [[s mo dh hr hsent pid cpv csv pc pd ia dr] i u].
  destruct s.
  4: { unfold dispatch, read_pad_a, bind, get_hs. cbn [hs state_ dh_].
       intros H. apply read_pad_a_scan_next in H. destruct H as [-> ->].
       cbn [rank hs done_result]. split; [lia|reflexivity]. }
  9: { unfold dispatch, read_vc, bind, get_hs, torrentHash, get_io.
       cbn [hs io state_ dh_]. intros H.
       apply read_vc_scan_next in H. destruct H as [-> ->].
       cbn [rank hs done_result]. split; [lia|reflexivity]. }
  all: unfold dispatch; hs_step.
  all: unfold read_handshake, read_peer_id, read_ya, read_crypto_provide,
         read_pad_c, read_ia, read_payload_stream, read_yb,
         read_crypto_select, read_pad_d, parse_handshake;
       hs_cases; cbn [rank]; intros; try discriminate;
       (split; [lia|reflexivity]).
Qed.

Lemma ready_for_more_world (r : ReadState) (w : World) :
  snd (ready_for_more r w) = w /\
  (fst (ready_for_more r w) = true -> r = READ_NOW).
Proof.
  destruct w as [h i u]. unfold ready_for_more.
  destruct r; hs_step; try (split; [reflexivity|discriminate]).
  destruct (state_ h); hs_step; auto.
Qed.

Lemma rank_bound (s : State) : (rank s < 12)%nat.
Proof. destruct s; cbn; lia. Qed.

Lemma can_read_loop_total (fuel : nat) : forall w,
  (12 <= rank (state_ (hs w)) + fuel)%nat ->
  fst (can_read_loop cr med crypto_provide fuel w) <> None.
Proof.
  induction fuel as [|fuel IH]; intros w Hf.
  - pose proof (rank_bound (state_ (hs w))). lia.
  - cbn [can_read_loop]. unfold bind.
    pose proof (dispatch_advances w) as Hadv.
    destruct (dispatch cr med crypto_provide w) as [r w1].
    cbn [fst snd] in Hadv.
    pose proof (ready_for_more_world r w1) as [Hw Hr].
    destruct (ready_for_more r w1) as [more w2]. cbn [fst snd] in Hw, Hr.
    subst w2. destruct more.
    + apply IH. destruct (Hadv (Hr eq_refl)) as [Hlt _]. lia.
    + cbn. discriminate.
Qed.

(** The loop of [can_read] ends within its twelve rounds, whatever the
    session and the buffer. *)
Lemma can_read_total (w : World) :
  exists r, fst (can_read cr med crypto_provide w) = Some r.
Proof.
  pose proof (can_read_loop_total 12 w ltac:(lia)) as H. unfold can_read.
  destruct (fst (can_read_loop cr med crypto_provide 12 w)) as [r|];
    [exists r; reflexivity | contradiction].
Qed.

End Handlers.

(** ** The bound on [pad_c_len_] is an invariant

    [read_crypto_provide] alone writes [pad_c_len_] and enters
    AwaitingPadC, the one after the other and after its test; every other
    piece of the handshake keeps both as they are or leaves the state
    for another one. *)

Lemma preserves_ret {A : Type} (P : World -> Prop) (a : A) :
  preserves P (ret a).
Proof. intros w H. exact H. Qed.

Lemma preserves_bind {A B : Type} (P : World -> Prop) (m : M A)
  (k : A -> M B) :
  preserves P m -> (forall a, preserves P (k a)) -> preserves P (bind m k).
Proof.
  intros Hm Hk w H. unfold bind. specialize (Hm w H).
  destruct (m w) as [a w']. exact (Hk a w' Hm).
Qed.

Lemma preserves_get_hs {A : Type} (P : World -> Prop)
  (f : tr_handshake -> A) : preserves P (get_hs f).
Proof. intros w H. exact H. Qed.

Lemma preserves_get_io {A : Type} (P : World -> Prop)
  (f : tr_peerIo -> A) : preserves P (get_io f).
Proof. intros w H. exact H. Qed.

Section Keeps.

Variables (s0 : State) (c0 : Z).

Lemma keeps_mod_io (f : tr_peerIo -> tr_peerIo) :
  preserves (keeps_pad_c s0 c0) (mod_io f).
Proof. intros w H. exact H. Qed.

Lemma keeps_mod_hs (f : tr_handshake -> tr_handshake) :
  (forall h, pad_c_len_ (f h) = pad_c_len_ h /\ state_ (f h) = state_ h) ->
  preserves (keeps_pad_c s0 c0) (mod_hs f).
Proof.
  intros Hf w [Hc Hs]. unfold keeps_pad_c, mod_hs. cbn.
  destruct (Hf (hs w)) as [-> ->]. split; assumption.
Qed.

Lemma keeps_set_state (s : State) :
  s <> AwaitingPadC ->
  preserves (keeps_pad_c s0 c0) (mod_hs (hs_with_state s)).
Proof.
  intros Hs w [Hc _]. unfold keeps_pad_c. cbn. split; [exact Hc|].
  intros E. contradiction.
Qed.

Lemma keeps_set_utp_failed (h : bytes) (a : Z) :
  preserves (keeps_pad_c s0 c0) (set_utp_failed h a).
Proof. intros w H. exact H. Qed.

Lemma keeps_done (med : Mediator) (b : bool) :
  preserves (keeps_pad_c s0 c0) (done med b).
Proof.
  intros w H. unfold done. destruct (done_result (hs w)); exact H.
Qed.

Lemma keeps_readBytes (cr : Crypto) (n : Z) :
  preserves (keeps_pad_c s0 c0) (readBytes cr n).
Proof. intros w H. exact H. Qed.

Lemma keeps_reconnect : preserves (keeps_pad_c s0 c0) reconnect.
Proof.
  intros w H. unfold reconnect.
  destruct (io_reconnects (io w)) as [|[|] rest]; exact H.
Qed.

End Keeps.

Create HintDb hs_inv.
#[export] Hint Resolve preserves_ret preserves_get_hs preserves_get_io
  keeps_mod_io keeps_set_utp_failed keeps_done keeps_readBytes
  keeps_reconnect : hs_inv.

Ltac pres_step :=
  match goal with
  | |- preserves _ (bind _ _) => apply preserves_bind; [|intro]
  | |- preserves _ (mod_hs (hs_with_state _)) =>
      apply keeps_set_state; discriminate
  | |- preserves _ (mod_hs _) =>
      apply keeps_mod_hs; intros []; split; reflexivity
  | |- preserves _ (when ?c _) => destruct c eqn:?; cbn [when]
  | |- preserves _ (if ?c then _ else _) => destruct c eqn:?
  | |- preserves _ (match ?x with _ => _ end) => destruct x eqn:?
  | |- preserves _ _ => solve [auto with hs_inv]
  end.

Ltac pres :=
  unfold send_public_key_and_pad;
  unfold readBufferSize, readBufferStartsWith, readBufferDrain, readUint16,
    readUint32, writeBytes, torrentHash, setTorrentHash, isIncoming,
    encryptInit, decryptInit, enableExtensions, set_state, is_state,
    set_peer_id, set_have_read_anything_from_peer, setPeerPublicKey;
  repeat pres_step.

Lemma pad_c_ok_of_keeps {A : Type} (m : M A) :
  (forall s0 c0, preserves (keeps_pad_c s0 c0) m) -> preserves pad_c_ok m.
Proof.
  intros H w Hinv.
  destruct (H (state_ (hs w)) (pad_c_len_ (hs w)) w
              (conj eq_refl (fun e => e))) as [Hc Hs].
  intros Hst. rewrite Hc. apply Hinv. apply Hs. exact Hst.
Qed.

Section Invariant.

Context (cr : Crypto) (med : Mediator).
Variable crypto_provide : tr_encryption_mode -> Z.

Variables (s0 : State) (c0 : Z).

Lemma keeps_read_handshake :
  preserves (keeps_pad_c s0 c0) (read_handshake cr med).
Proof. unfold read_handshake. pres. Qed.

Lemma keeps_read_peer_id :
  preserves (keeps_pad_c s0 c0) (read_peer_id cr med).
Proof. unfold read_peer_id. pres. Qed.

Lemma keeps_read_ya : preserves (keeps_pad_c s0 c0) (read_ya cr med).
Proof. unfold read_ya. pres. Qed.

Lemma keeps_read_pad_a : preserves (keeps_pad_c s0 c0) (read_pad_a cr med).
Proof.
  unfold read_pad_a. pres.
  induction (Z.to_nat PadaMaxlen) as [|n IH]; cbn [read_pad_a_scan]; pres.
Qed.

Lemma keeps_read_pad_c : preserves (keeps_pad_c s0 c0) (read_pad_c cr).
Proof. unfold read_pad_c. pres. Qed.

Lemma keeps_read_ia : preserves (keeps_pad_c s0 c0) (read_ia cr med).
Proof. unfold read_ia. pres. Qed.

Lemma keeps_read_payload_stream :
  preserves (keeps_pad_c s0 c0) (read_payload_stream cr med).
Proof. unfold read_payload_stream, parse_handshake. pres. Qed.

Lemma keeps_read_yb :
  preserves (keeps_pad_c s0 c0) (read_yb cr med crypto_provide).
Proof. unfold read_yb. pres. Qed.

Lemma keeps_read_vc : preserves (keeps_pad_c s0 c0) (read_vc cr med).
Proof.
  unfold read_vc. pres.
  induction (Z.to_nat PadbMaxlen) as [|n IH]; cbn [read_vc_scan]; pres.
Qed.

Lemma keeps_read_crypto_select :
  preserves (keeps_pad_c s0 c0) (read_crypto_select cr med crypto_provide).
Proof. unfold read_crypto_select. pres. Qed.

Lemma keeps_read_pad_d : preserves (keeps_pad_c s0 c0) (read_pad_d cr).
Proof. unfold read_pad_d. pres. Qed.

Lemma keeps_send_plain_handshake :
  preserves (keeps_pad_c s0 c0) (send_plain_handshake cr med).
Proof. unfold send_plain_handshake. pres. Qed.

Lemma keeps_on_error (errcode : Z) :
  preserves (keeps_pad_c s0 c0) (on_error cr med errcode).
Proof.
  unfold on_error. pres; apply keeps_send_plain_handshake.
Qed.

End Invariant.

Section Reachable.

Context (cr : Crypto) (med : Mediator).
Variable crypto_provide : tr_encryption_mode -> Z.

(** The one handler that writes [pad_c_len_], after its test. *)
Lemma pad_c_ok_read_crypto_provide :
  preserves pad_c_ok (read_crypto_provide cr med).
Proof.
  intros [h i u] Hinv. unfold pad_c_ok in *. cbn [hs] in Hinv.
  unfold read_crypto_provide. hs_cases; try exact Hinv.
  all: intros _; change PadcMaxlen with 512 in *.
  all: match goal with H : (_ >? 512) = false |- _ =>
         rewrite Z.gtb_ltb in H; apply Z.ltb_ge in H; exact H end.
Qed.

Lemma pad_c_ok_dispatch :
  preserves pad_c_ok (dispatch cr med crypto_provide).
Proof.
  intros w Hinv. unfold dispatch, bind, get_hs.
  destruct (state_ (hs w)) eqn:Hs.
  5: exact (pad_c_ok_read_crypto_provide w Hinv).
  all: refine (pad_c_ok_of_keeps _ _ w Hinv); intros s0 c0.
  - apply keeps_read_handshake.
  - apply keeps_read_peer_id.
  - apply keeps_read_ya.
  - apply keeps_read_pad_a.
  - apply keeps_read_pad_c.
  - apply keeps_read_ia.
  - apply keeps_read_payload_stream.
  - apply keeps_read_yb.
  - apply keeps_read_vc.
  - apply keeps_read_crypto_select.
  - apply keeps_read_pad_d.
Qed.

Lemma pad_c_ok_new (i : tr_peerIo) (mode : tr_encryption_mode)
  (members : tr_handshake) (marked : list (bytes * Z)) :
  pad_c_ok (new_handshake cr med i mode members marked).
Proof.
  unfold new_handshake, pad_c_ok, send_ya, send_plain_handshake.
  destruct (io_is_incoming i); [|destruct (negb _)]; hs_step; discriminate.
Qed.

Lemma reachable_pad_c_ok (w : World) :
  reachable cr med crypto_provide w -> pad_c_ok w.
Proof.
  induction 1 as [i mode members marked | w w' _ IH Hstep].
  - apply pad_c_ok_new.
  - destruct Hstep.
    + exact IH.
    + apply pad_c_ok_dispatch. exact IH.
    + refine (pad_c_ok_of_keeps _ _ w IH). intros s0 c0.
      apply keeps_on_error.
    + refine (pad_c_ok_of_keeps _ _ w IH). intros s0 c0. apply keeps_done.
Qed.

(** The worlds that the loop of [can_read] goes through are reachable:
    what holds of reachable sessions holds at each handler it runs. *)
Lemma can_read_loop_reachable (fuel : nat) : forall w,
  reachable cr med crypto_provide w ->
  done_result (hs w) = None ->
  reachable cr med crypto_provide
    (snd (can_read_loop cr med crypto_provide fuel w)).
Proof.
  induction fuel as [|fuel IH]; intros w Hr Hd; [exact Hr|].
  cbn [can_read_loop]. unfold bind.
  pose proof (dispatch_advances cr med crypto_provide w) as Hadv.
  pose proof (reachable_step cr med crypto_provide w _ Hr
                (step_read cr med crypto_provide w Hd)) as Hr1.
  destruct (dispatch cr med crypto_provide w) as [r w1].
  cbn [fst snd] in Hadv, Hr1.
  pose proof (ready_for_more_world r w1) as [Hw Hm].
  destruct (ready_for_more r w1) as [more w2]. cbn [fst snd] in Hw, Hm.
  subst w2. destruct more; [|exact Hr1].
  apply IH; [exact Hr1|].
  destruct (Hadv (Hm eq_refl)) as [_ ->]. exact Hd.
Qed.

End Reachable.

(** ** The claims *)

Section Claims.

Context (cr : Crypto) (med : Mediator).
Variable crypto_provide : tr_encryption_mode -> Z.

(** C1, on the code.  Transport error on an outgoing uTP session in
    AwaitingYb that has not completed, TCP allowed and [reconnect]
    succeeding, whatever the errno (ETIMEDOUT and ECONNREFUSED among them)
    and whatever the mediator knows of the torrent.  The first [if] of
    [on_error] makes the fallback: the socket is TCP and the state is
    AwaitingHandshake.  It does not return: the second [if] then finds the
    state to be neither AwaitingYb nor AwaitingVc, and its [else] calls
    [done(false)].  The session has completed with failure when the
    callback returns. *)
Theorem on_error_utp_fallback_falls_through (w : World) (errcode : Z)
  (rest : list bool) :
  io_is_utp (io w) = true ->
  io_is_incoming (io w) = false ->
  state_ (hs w) = AwaitingYb ->
  allows_tcp med = true ->
  io_reconnects (io w) = true :: rest ->
  done_result (hs w) = None ->
  let w' := snd (on_error cr med errcode w) in
  state_ (hs w') = AwaitingHandshake /\
  io_is_utp (io w') = false /\
  io_reconnects (io w') = rest /\
  done_result (hs w') = Some false.
Proof.
  intros Hutp Hinc Hst Htcp Hrec Hd.
  destruct w as [h i u]. cbn [hs io utp_failed] in *.
  unfold on_error. hs_step.
  rewrite Hutp, Hinc, Hst, Htcp. cbn [State_eqb]. hs_step.
  unfold reconnect, send_plain_handshake.
  destruct (_ && _); hs_step; rewrite Hrec; hs_step; cbn [Z.eqb]; hs_step;
    cbn [State_eqb]; hs_step; rewrite Hd; hs_step; repeat split.
Qed.

(** What the first [if] has set up by then, when the errno is ETIMEDOUT or
    ECONNREFUSED and the mediator knows the torrent of the IO:
    [set_utp_failed] is recorded for the torrent and the peer's address;
    and when TCP is allowed and [reconnect] succeeds, the plaintext
    handshake has gone out on the new socket (as it is for an IO without an
    encrypt key), the handshake counts as sent and the state is
    AwaitingHandshake. *)
Lemma on_error_utp_fallback (w : World) (errcode : Z)
  (info : tr_torrent_info) :
  io_is_utp (io w) = true ->
  io_is_incoming (io w) = false ->
  state_ (hs w) = AwaitingYb ->
  errcode = ETIMEDOUT \/ errcode = ECONNREFUSED ->
  torrent_info med (io_torrent_hash (io w)) = Some info ->
  io_encrypt (io w) = None ->
  let w' := snd (on_error cr med errcode w) in
  utp_failed w' =
    utp_failed w ++ [(io_torrent_hash (io w), io_address (io w))] /\
  (allows_tcp med = true ->
   forall rest, io_reconnects (io w) = true :: rest ->
     io_outbuf (io w') =
       io_outbuf (io w) ++
       handshake_message (allows_dht med) (io_torrent_hash (io w))
         (client_peer_id info) /\
     io_is_utp (io w') = false /\
     have_sent_bittorrent_handshake_ (hs w') = true /\
     state_ (hs w') = AwaitingHandshake).
Proof.
  intros Hutp Hinc Hst Herr Hinfo Henc.
  destruct w as [h i u]. cbn [hs io utp_failed] in *.
  assert (Hcode : (errcode =? ETIMEDOUT) || (errcode =? ECONNREFUSED) = true).
  { destruct Herr as [-> | ->]; reflexivity. }
  unfold on_error. hs_step.
  rewrite Hutp, Hinc, Hst. cbn [State_eqb]. hs_step.
  rewrite Hcode, Hinfo. hs_step.
  unfold reconnect, send_plain_handshake.
  destruct (allows_tcp med) eqn:Htcp; hs_step.
  - destruct (io_reconnects i) as [|[|] rest] eqn:Hrec; hs_step;
      cbn [Z.eqb]; hs_step; cbn [State_eqb]; hs_step.
    + rewrite Hst. cbn [State_eqb]. hs_step.
      destruct (mode_eqb _ _); hs_step; rewrite ?Hrec; hs_step;
        cbn [Z.eqb]; hs_step;
        (destruct (done_result h); hs_step;
         (split; [reflexivity | intros _ rest0 X; discriminate X])).
    + rewrite (build_handshake_message_known med _ _ info) by exact Hinfo.
      rewrite Henc. cbn [filter_crypt].
      destruct (done_result h); hs_step; split;
        try reflexivity; intros _ rest0 X; repeat split.
    + rewrite Hst. cbn [State_eqb]. hs_step.
      destruct (mode_eqb _ _); hs_step.
      * destruct (done_result h); hs_step;
         (split; [reflexivity | intros _ rest0 X; discriminate X]).
      * destruct rest as [|[|] rest1]; hs_step; cbn [Z.eqb]; hs_step;
         (destruct (done_result h); hs_step;
          (split; [reflexivity | intros _ rest0 X; discriminate X])).
  - rewrite Hst. cbn [State_eqb]. rewrite andb_false_r. hs_step.
    destruct (done_result h); hs_step; split;
      try reflexivity; intros X; discriminate X.
Qed.

(** C2, on the code.  A PadA of exactly 512 bytes, buffered whole with
    the needle right behind it and the needle nowhere earlier: the 512
    rounds of the loop look at the offsets 0 to 511 and drain the pad, and
    [read_pad_a] completes the session with failure, the needle now at the
    head of the buffer, not looked at. *)
Theorem read_pad_a_512_fails (w : World) (pad rest : bytes) :
  let needle := sha1 cr (req1 ++ secret cr (dh_ (hs w))) in
  done_result (hs w) = None ->
  io_inbuf (io w) = pad ++ needle ++ rest ->
  length pad = 512%nat ->
  length needle = 20%nat ->
  no_needle_before 512 needle (io_inbuf (io w)) ->
  failed (snd (read_pad_a cr med w)) /\
  state_ (hs (snd (read_pad_a cr med w))) = state_ (hs w) /\
  starts_with (io_inbuf (io (snd (read_pad_a cr med w)))) needle = true.
Proof.
  intros needle Hd Hbuf Hpad Hneedle Hno.
  unfold read_pad_a. hs_step. fold needle.
  change (Z.to_nat PadaMaxlen) with 512%nat.
  rewrite read_pad_a_scan_exhausted.
  - unfold failed, done, after_read. hs_simpl. rewrite Hd. hs_simpl.
    repeat split. rewrite Hbuf, skipn_exact by exact Hpad.
    apply starts_with_app.
  - rewrite Hbuf, !length_app. lia.
  - exact Hno.
Qed.

(** C3.  Two runs of [read_crypto_provide] on buffers that differ in the
    eight bytes of VC only give the same answer, the same handshake
    (state, [crypto_provide_], [pad_c_len_], outcome) and, the unread
    bytes apart, the same IO. *)
Theorem read_crypto_provide_ignores_vc (w : World)
  (req2_in vc1 vc2 tail : bytes) :
  length req2_in = 20%nat -> length vc1 = 8%nat -> length vc2 = 8%nat ->
  let r1 := read_crypto_provide cr med
              (with_inbuf (req2_in ++ vc1 ++ tail) w) in
  let r2 := read_crypto_provide cr med
              (with_inbuf (req2_in ++ vc2 ++ tail) w) in
  fst r1 = fst r2 /\
  hs (snd r1) = hs (snd r2) /\
  utp_failed (snd r1) = utp_failed (snd r2) /\
  io_sans_inbuf (io (snd r1)) = io_sans_inbuf (io (snd r2)).
Proof.
  intros L2 L1 L1'.
  destruct w as [h i u].
  unfold read_crypto_provide, with_inbuf, io_sans_inbuf. hs_step.
  rewrite !length_app, L2, L1, L1'.
  destruct (_ <? _); hs_step; [repeat split|].
  change (Z.to_nat Sha1Len) with 20%nat.
  change (Z.to_nat 8) with 8%nat.
  rewrite !(firstn_exact req2_in _ 20 L2), !(skipn_exact req2_in _ 20 L2).
  destruct (torrent_info_from_obfuscated med _) as [info|]; hs_step.
  2: { destruct (done_result h); hs_step; repeat split. }
  destruct (is_done info && is_peer_known_seed med (id info) (io_address i));
    hs_step.
  { destruct (done_result h); hs_step; repeat split. }
  rewrite (firstn_exact vc1 _ 8 L1), (firstn_exact vc2 _ 8 L1').
  rewrite (skipn_exact vc1 _ 8 L1), (skipn_exact vc2 _ 8 L1').
  rewrite L1, L1'.
  destruct (_ >? PadcMaxlen); hs_step.
  { destruct (done_result h); hs_step; repeat split. }
  repeat split.
Qed.

(** C4.  [getCryptoSelect] follows the policy: required takes RC4 or
    nothing; preferred takes RC4, else plaintext; clear-preferred takes
    plaintext, else RC4; and the result is 0 or one bit that the peer
    offered.  For every [crypto_provide], the 32-bit ones among them. *)
Theorem getCryptoSelect_policy (mode : tr_encryption_mode) (cp : Z) :
  getCryptoSelect mode cp =
    match mode with
    | TR_ENCRYPTION_REQUIRED =>
        if offers_rc4 cp then 2 else 0
    | TR_ENCRYPTION_PREFERRED =>
        if offers_rc4 cp then 2 else if offers_plaintext cp then 1 else 0
    | TR_CLEAR_PREFERRED =>
        if offers_plaintext cp then 1 else if offers_rc4 cp then 2 else 0
    end
  /\ (getCryptoSelect mode cp = 0 \/
      (getCryptoSelect mode cp = 1 /\ offers_plaintext cp = true) \/
      (getCryptoSelect mode cp = 2 /\ offers_rc4 cp = true)).
Proof.
  unfold getCryptoSelect.
  destruct mode; cbn [crypto_choices first_choice];
    rewrite ?land_plaintext, ?land_crypto, ?Z.land_0_r;
    destruct (offers_plaintext cp), (offers_rc4 cp); cbn; auto.
Qed.

(** C5.  [read_crypto_select] with six bytes or more in the buffer reads
    [crypto_select] (four bytes) and [pad_d_len] (the next two) through
    the decrypt filter; it fails exactly when [crypto_select] has no bit
    of what we offered or [pad_d_len] is over 512, and otherwise stores
    [pad_d_len] and goes to AwaitingPadD. *)
Theorem read_crypto_select_spec (w : World) :
  done_result (hs w) = None ->
  6 <= Z.of_nat (length (io_inbuf (io w))) ->
  let buf := io_inbuf (io w) in
  let d := io_decrypt (io w) in
  let crypto_select := be_decode (plain_of cr d 0 (firstn 4 buf)) in
  let pad_d_len := be_decode (plain_of cr d 4 (firstn 2 (skipn 4 buf))) in
  let w' := snd (read_crypto_select cr med crypto_provide w) in
  (failed w' <->
     Z.land crypto_select (crypto_provide (encryption_mode_ (hs w))) = 0 \/
     pad_d_len > 512) /\
  (~ failed w' ->
     fst (read_crypto_select cr med crypto_provide w) = READ_NOW /\
     done_result (hs w') = None /\
     crypto_select_ (hs w') = crypto_select /\
     pad_d_len_ (hs w') = pad_d_len /\
     state_ (hs w') = AwaitingPadD /\
     io_inbuf (io w') = skipn 6 buf).
Proof.
  intros Hd H.
  destruct w as [h i u]. cbn [hs io] in *.
  unfold read_crypto_select, failed. hs_run.
  rewrite size_ok by (cbn; lia). hs_simpl.
  assert (L4 : length (firstn (Z.to_nat 4) (io_inbuf i)) = 4%nat)
    by (rewrite length_firstn; change (Z.to_nat 4) with 4%nat; lia).
  rewrite plain_of_0. unfold plain_of.
  change (Z.to_nat 4) with 4%nat in *. change (Z.to_nat 2) with 2%nat in *.
  set (cs := be_decode (filter_crypt cr (io_decrypt i)
                          (firstn 4 (io_inbuf i)))).
  destruct (Z.eqb_spec (Z.land cs (crypto_provide (encryption_mode_ h))) 0)
    as [E|E]; hs_run; hs_simpl.
  - rewrite Hd. hs_simpl. split; [tauto|].
    intros X. exfalso. apply X. reflexivity.
  - rewrite L4.
    set (pd := be_decode
                 (filter_crypt cr (filter_advance (io_decrypt i) 4)
                    (firstn 2 (skipn 4 (io_inbuf i))))).
    destruct (Z.gtb_spec pd 512) as [G|G]; hs_run; hs_simpl.
    + rewrite Hd. hs_simpl. split.
      * split; [intros _; right; lia | reflexivity].
      * intros X. exfalso. apply X. reflexivity.
    + rewrite Hd. split.
      * split; [discriminate|]. intros [X|X]; [contradiction|lia].
      * intros _. repeat split. rewrite skipn_skipn. reflexivity.
Qed.

(** C6.  [read_yb] on the encrypted path, the torrent known and no
    encryption installed before: the bytes handed to the transport are
    SHA1("req1", S) and SHA1("req2", SKEY) xor SHA1("req3", S) as they
    are, then VC, [crypto_provide], the zero PadC length, the length 68
    and the handshake, these through the keystream from its start. *)
Theorem read_yb_clear_then_encrypted (w : World) (info : tr_torrent_info) :
  96 <= Z.of_nat (length (io_inbuf (io w))) ->
  starts_with (io_inbuf (io w)) HandshakeName = false ->
  io_encrypt (io w) = None ->
  torrent_info med (io_torrent_hash (io w)) = Some info ->
  let Yb := filter_crypt cr (io_decrypt (io w)) (firstn 96 (io_inbuf (io w))) in
  let dh := {| dh_private_key := dh_private_key (dh_ (hs w));
               dh_peer_public_key := Yb |} in
  let S := secret cr dh in
  let skey := io_torrent_hash (io w) in
  let field1 := sha1 cr (req1 ++ S) in
  let field2 := xor_bytes (sha1 cr (req2 ++ skey)) (sha1 cr (req3 ++ S)) in
  let field3 :=
    VC ++ be32 (crypto_provide (encryption_mode_ (hs w))) ++ be16 0 ++
    be16 68 ++
    handshake_message (allows_dht med) skey (client_peer_id info) in
  let key := encrypt_key cr (io_is_incoming (io w)) dh skey in
  let r := read_yb cr med crypto_provide w in
  fst r = READ_NOW /\
  state_ (hs (snd r)) = AwaitingVc /\
  io_outbuf (io (snd r)) =
    io_outbuf (io w) ++ (field1 ++ field2) ++ crypt cr key 0 field3 /\
  io_encrypt (io (snd r)) =
    Some {| cipher_key := key; cipher_pos := length field3 |}.
Proof.
  intros Hsz Hst He Hinfo.
  destruct w as [h i u]. cbn [hs io] in *.
  unfold read_yb. hs_step.
  rewrite size_ok by lia. hs_step. rewrite Hst. hs_step.
  rewrite size_ok by (unfold KeyLen; lia). hs_step.
  change (Z.to_nat KeyLen) with 96%nat.
  rewrite build_handshake_message_known with (info := info) by exact Hinfo.
  hs_step. rewrite He.
  cbn [filter_crypt filter_advance cipher_key cipher_pos].
  repeat split. rewrite <- !app_assoc. reflexivity.
Qed.

(** C7.  [read_crypto_provide] with its 34 bytes in the buffer fails when
    the obfuscated hash names no torrent, when we are a seed and the peer
    is a known seed, or when the PadC length is over 512; otherwise the
    torrent's hash is on the IO, the decrypt filter is installed (14 bytes
    in), [crypto_provide_] and [pad_c_len_] are stored and the state is
    AwaitingPadC. *)
Theorem read_crypto_provide_spec (w : World) :
  done_result (hs w) = None ->
  34 <= Z.of_nat (length (io_inbuf (io w))) ->
  let buf := io_inbuf (io w) in
  let dh := dh_ (hs w) in
  let obfuscated_hash :=
    xor_bytes (filter_crypt cr (io_decrypt (io w)) (firstn 20 buf))
              (sha1 cr (req3 ++ secret cr dh)) in
  let r := read_crypto_provide cr med w in
  let w' := snd r in
  match torrent_info_from_obfuscated med obfuscated_hash with
  | None => failed w'
  | Some info =>
      let key := decrypt_key cr (io_is_incoming (io w)) dh (info_hash info) in
      let pad_c_len := be_decode (crypt cr key 12 (firstn 2 (skipn 32 buf))) in
      if is_done info && is_peer_known_seed med (id info) (io_address (io w))
      then failed w'
      else if pad_c_len >? 512 then failed w'
      else
        fst r = READ_NOW /\
        done_result (hs w') = None /\
        io_torrent_hash (io w') = info_hash info /\
        io_decrypt (io w') = Some {| cipher_key := key; cipher_pos := 14 |} /\
        crypto_provide_ (hs w') =
          be_decode (crypt cr key 8 (firstn 4 (skipn 28 buf))) /\
        pad_c_len_ (hs w') = pad_c_len /\
        state_ (hs w') = AwaitingPadC /\
        io_inbuf (io w') = skipn 34 buf
  end.
Proof.
  intros Hd H.
  destruct w as [h i u]. cbn [hs io] in *.
  assert (Hn : (34 <= length (io_inbuf i))%nat) by lia.
  unfold read_crypto_provide, failed. hs_step.
  rewrite size_ok by (cbn; lia).
  change (Z.to_nat Sha1Len) with 20%nat.
  destruct (torrent_info_from_obfuscated med _) as [info|]; hs_step.
  2: { rewrite Hd. reflexivity. }
  destruct (is_done info && is_peer_known_seed med (id info) (io_address i));
    hs_step.
  { rewrite Hd. reflexivity. }
  change (Z.to_nat 8) with 8%nat. change (Z.to_nat 4) with 4%nat.
  change (Z.to_nat 2) with 2%nat.
  rewrite !skipn_skipn. cbn [Nat.add].
  rewrite !firstn_len by (rewrite length_skipn; lia).
  cbn [filter_crypt filter_advance cipher_key cipher_pos Nat.add].
  match goal with |- context [if ?c >? PadcMaxlen then _ else _] =>
    change (c >? PadcMaxlen) with (c >? 512); destruct (c >? 512) end; hs_step.
  { rewrite Hd. reflexivity. }
  rewrite Hd. repeat split.
Qed.

(** C8.  Where the session learns the peer-id, in [read_peer_id] or in
    [parse_handshake] under [read_payload_stream]: it keeps the peer-id;
    it completes with failure when the mediator's peer-id of ours for the
    torrent is that very peer-id, and with success otherwise. *)
Theorem peer_id_self_check (p : PeerIdPath) (w : World) (peer_id : bytes) :
  done_result (hs w) = None ->
  learns_peer_id cr p w peer_id ->
  let w' := snd (learn_peer_id cr med p w) in
  peer_id_ (hs w') = Some peer_id /\
  (is_self med (io_torrent_hash (io w)) peer_id ->
     done_result (hs w') = Some false) /\
  (~ is_self med (io_torrent_hash (io w)) peer_id ->
     done_result (hs w') = Some true).
Proof.
  intros Hd Hl.
  destruct w as [h i u]. cbn [hs io] in *.
  destruct p; cbn [learn_peer_id learns_peer_id] in *; hs_simpl.
  - destruct Hl as [Hsz ->]. rewrite plain_of_0.
    unfold read_peer_id. hs_step.
    rewrite size_ok by (unfold PeerIdLen; lia). hs_step.
    change (Z.to_nat PeerIdLen) with 20%nat. rewrite Hd. hs_simpl.
    destruct (torrent_info med (io_torrent_hash i)) as [info|] eqn:Ei.
    + rewrite (is_self_known med _ _ _ Ei).
      destruct (bytes_eqb (client_peer_id info) _); cbn [negb];
        repeat split; congruence.
    + pose proof (is_self_unknown med _ (filter_crypt cr (io_decrypt i)
                    (firstn 20 (io_inbuf i))) Ei).
      cbn [negb]. repeat split; tauto.
  - destruct Hl as (Hsz & Hname & Hhash & Hnz & ->).
    assert (Hn : (68 <= length (io_inbuf i))%nat) by lia.
    rewrite plain_of_0 in Hname. unfold plain_of in *.
    unfold read_payload_stream, parse_handshake. hs_step.
    rewrite !size_ok by (unfold HandshakeSize; lia). hs_step.
    change (Z.to_nat 20) with 20%nat. rewrite Hname.
    rewrite bytes_eqb_refl. hs_step.
    change (Z.to_nat HandshakeFlagsLen) with 8%nat.
    change (Z.to_nat Sha1Len) with 20%nat.
    change (Z.to_nat PeerIdLen) with 20%nat.
    rewrite !skipn_skipn. cbn [Nat.add].
    rewrite !firstn_len by (rewrite ?length_skipn; lia).
    rewrite !filter_advance_add. cbn [Nat.add].
    rewrite Hhash. rewrite bytes_eqb_refl.
    apply bytes_eqb_neq in Hnz. rewrite Hnz. cbn [orb negb]. hs_step.
    destruct (torrent_info med (io_torrent_hash i)) as [info|] eqn:Ei; hs_step.
    + rewrite (is_self_known med _ _ _ Ei).
      destruct (bytes_eqb (client_peer_id info) _); hs_step;
        rewrite Hd; hs_simpl; repeat split; congruence.
    + rewrite Hd. hs_simpl. split; [reflexivity|split].
      * intros X. destruct (is_self_unknown med _ _ Ei X).
      * reflexivity.
Qed.

(** C9.  [parse_handshake] on 68 bytes that begin with the protocol name
    and carry twenty zero bytes as the info-hash answers BadTorrent,
    whatever hash the IO holds. *)
Theorem parse_handshake_rejects_zero_hash (w : World) :
  68 <= Z.of_nat (length (io_inbuf (io w))) ->
  plain_of cr (io_decrypt (io w)) 0 (firstn 20 (io_inbuf (io w))) =
    HandshakeName ->
  plain_of cr (io_decrypt (io w)) 28 (firstn 20 (skipn 28 (io_inbuf (io w)))) =
    zero_digest ->
  fst (parse_handshake cr med w) = BadTorrent.
Proof.
  intros Hsz Hname Hzero.
  destruct w as [h i u]. cbn [hs io] in *.
  assert (Hn : (68 <= length (io_inbuf i))%nat) by lia.
  rewrite plain_of_0 in Hname. unfold plain_of in Hzero.
  unfold parse_handshake. hs_step.
  rewrite size_ok by (unfold HandshakeSize; lia). hs_step.
  change (Z.to_nat 20) with 20%nat. rewrite Hname.
  rewrite bytes_eqb_refl. hs_step.
  change (Z.to_nat HandshakeFlagsLen) with 8%nat.
  change (Z.to_nat Sha1Len) with 20%nat.
  rewrite !skipn_skipn. cbn [Nat.add].
  rewrite !firstn_len by (rewrite ?length_skipn; lia).
  rewrite filter_advance_add. cbn [Nat.add].
  rewrite Hzero. rewrite bytes_eqb_refl. reflexivity.
Qed.

(** C10.  In every reachable session that is about to run [read_pad_c],
    [pad_c_len_] is at most 512, and so is the count of bytes that the
    handler reads into its 512-byte array. *)
Theorem read_pad_c_in_bounds (w : World) :
  reachable cr med crypto_provide w ->
  state_ (hs w) = AwaitingPadC ->
  pad_c_len_ (hs w) <= PadcMaxlen /\
  Z.of_nat (length (fst (readBytes cr (pad_c_len_ (hs w)) w))) <= PadcMaxlen.
Proof.
  intros Hr Hs.
  pose proof (reachable_pad_c_ok cr med crypto_provide w Hr Hs) as H.
  split; [exact H|].
  unfold readBytes. cbn [fst]. rewrite length_filter_crypt, length_firstn.
  unfold PadcMaxlen in *. lia.
Qed.

End Claims.

(** ** The claims on concrete sessions *)

(** C1: spec scenario 3.  An outgoing uTP session on the hosted torrent
    times out while it waits for Yb; TCP is allowed and the reconnect
    succeeds. *)
Lemma on_error_utp_fallback_falls_through_witness :
  let w := Sample.utp_session Sample.torrent_hash [true] in
  let w' := snd (on_error Sample.crypto Sample.mediator ETIMEDOUT w) in
  state_ (hs w') = AwaitingHandshake /\
  io_is_utp (io w') = false /\
  io_reconnects (io w') = [] /\
  done_result (hs w') = Some false.
Proof.
  exact (on_error_utp_fallback_falls_through Sample.crypto Sample.mediator
           (Sample.utp_session Sample.torrent_hash [true]) ETIMEDOUT []
           eq_refl eq_refl eq_refl eq_refl eq_refl eq_refl).
Defined.

(** The same session: what the fallback has set up before the callback
    gives the session up. *)
Lemma on_error_utp_fallback_witness :
  let w := Sample.utp_session Sample.torrent_hash [true] in
  let w' := snd (on_error Sample.crypto Sample.mediator ETIMEDOUT w) in
  utp_failed w' = [(Sample.torrent_hash, 7)] /\
  io_outbuf (io w') =
    io_outbuf (io w) ++
    handshake_message true Sample.torrent_hash Sample.our_peer_id /\
  io_is_utp (io w') = false /\
  have_sent_bittorrent_handshake_ (hs w') = true /\
  state_ (hs w') = AwaitingHandshake.
Proof.
  destruct (on_error_utp_fallback Sample.crypto Sample.mediator
              (Sample.utp_session Sample.torrent_hash [true]) ETIMEDOUT
              Sample.torrent eq_refl eq_refl eq_refl (or_introl eq_refl)
              eq_refl eq_refl) as [H1 H2].
  split; [exact H1 | exact (H2 eq_refl [] eq_refl)].
Defined.

(** Both on concrete sessions.  On the hosted torrent, with TCP allowed
    and [reconnect] succeeding, the fallback is made (TCP socket,
    handshake written, AwaitingHandshake) and the same call of [on_error]
    then completes the session with failure.  And on a torrent the
    mediator does not know, nothing is recorded with [set_utp_failed] (the
    test of line 882 has [&& info]) and the 68 bytes written are zeros. *)
Lemma on_error_utp_fallback_sessions :
  (let w := Sample.utp_session Sample.torrent_hash [true] in
   let w' := snd (on_error Sample.crypto Sample.mediator ETIMEDOUT w) in
   (io_is_utp (io w) = true /\ io_is_incoming (io w) = false /\
    state_ (hs w) = AwaitingYb /\ done_result (hs w) = None /\
    allows_tcp Sample.mediator = true /\ io_reconnects (io w) = [true]) /\
   io_is_utp (io w') = false /\
   state_ (hs w') = AwaitingHandshake /\
   done_result (hs w') = Some false) /\
  (let w := Sample.utp_session (repeat 1 20) [true] in
   let w' := snd (on_error Sample.crypto Sample.mediator ETIMEDOUT w) in
   (io_is_utp (io w) = true /\ io_is_incoming (io w) = false /\
    state_ (hs w) = AwaitingYb /\ done_result (hs w) = None) /\
   utp_failed w' = [] /\
   io_outbuf (io w') = io_outbuf (io w) ++ zeros 68).
Proof. vm_compute. repeat split. Qed.

(** C2: the sample initiator sends 512 zero bytes as PadA, and all of its
    stream is in the buffer when [read_pad_a] runs. *)
Lemma read_pad_a_512_fails_witness :
  let w := Sample.after_ya (repeat 0 512) VC 0 Sample.their_peer_id in
  done_result (hs w) = None /\
  state_ (hs w) = AwaitingPadA /\
  firstn 532 (io_inbuf (io w)) = repeat 0 512 ++ Sample.needle /\
  failed (snd (read_pad_a Sample.crypto Sample.mediator w)).
Proof.
  split; [vm_compute; reflexivity|].
  split; [vm_compute; reflexivity|].
  split; [vm_compute; reflexivity|].
  refine (proj1 (read_pad_a_512_fails Sample.crypto Sample.mediator
           (Sample.after_ya (repeat 0 512) VC 0 Sample.their_peer_id)
           (repeat 0 512)
           (skipn 532 (io_inbuf
              (io (Sample.after_ya (repeat 0 512) VC 0
                     Sample.their_peer_id)))) _ _ _ _ _)).
  - vm_compute. reflexivity.
  - vm_compute. reflexivity.
  - vm_compute. reflexivity.
  - vm_compute. reflexivity.
  - apply no_needle_before_check. vm_compute. reflexivity.
Defined.

(** With 511 bytes of PadA the same session goes on, and with 513 bytes
    it fails when the stream arrives whole but goes on when the first 126
    bytes arrive ahead of the rest: each call of [read_pad_a] counts its
    512 rounds from zero. *)
Lemma read_pad_a_boundaries :
  let result padA :=
    hs (Sample.after_pad_a padA VC 0 Sample.their_peer_id) in
  (state_ (result (repeat 0 511)) = AwaitingCryptoProvide /\
   done_result (result (repeat 0 511)) = None) /\
  done_result (result (repeat 0 512)) = Some false /\
  done_result (result (repeat 0 513)) = Some false /\
  (state_ (hs (Sample.after_pad_a_in_two 126 (repeat 0 513))) =
     AwaitingCryptoProvide /\
   done_result (hs (Sample.after_pad_a_in_two 126 (repeat 0 513))) = None).
Proof. vm_compute. repeat split. Qed.

(** C3: the sample initiator sends eight bytes 255 instead of VC. *)
Lemma read_crypto_provide_ignores_vc_witness :
  let w := Sample.after_pad_a [1; 2; 3] VC 2 Sample.their_peer_id in
  let tail := skipn 28 (io_inbuf (io w)) in
  let r1 := read_crypto_provide Sample.crypto Sample.mediator
              (with_inbuf (Sample.obfuscated ++ VC ++ tail) w) in
  let r2 := read_crypto_provide Sample.crypto Sample.mediator
              (with_inbuf (Sample.obfuscated ++ repeat 255 8 ++ tail) w) in
  fst r1 = fst r2 /\
  hs (snd r1) = hs (snd r2) /\
  utp_failed (snd r1) = utp_failed (snd r2) /\
  io_sans_inbuf (io (snd r1)) = io_sans_inbuf (io (snd r2)).
Proof.
  exact (read_crypto_provide_ignores_vc Sample.crypto Sample.mediator
           (Sample.after_pad_a [1; 2; 3] VC 2 Sample.their_peer_id)
           Sample.obfuscated VC (repeat 255 8)
           (skipn 28 (io_inbuf
              (io (Sample.after_pad_a [1; 2; 3] VC 2 Sample.their_peer_id))))
           eq_refl eq_refl eq_refl).
Defined.

(** C5: the sample responder selects RC4 and announces no PadD. *)
Lemma read_crypto_select_spec_witness :
  let w := Sample.after_vc 2 0 in
  let w' := snd (read_crypto_select Sample.crypto Sample.mediator
                   Sample.crypto_provide w) in
  state_ (hs w) = AwaitingCryptoSelect /\
  ~ failed w' /\
  pad_d_len_ (hs w') = 0 /\
  state_ (hs w') = AwaitingPadD.
Proof.
  destruct (read_crypto_select_spec Sample.crypto Sample.mediator
              Sample.crypto_provide (Sample.after_vc 2 0)
              ltac:(vm_compute; reflexivity)
              ltac:(vm_compute; discriminate)) as [H1 H2].
  cbv zeta in H1, H2.
  assert (Hn : ~ failed (snd (read_crypto_select Sample.crypto Sample.mediator
                                 Sample.crypto_provide (Sample.after_vc 2 0)))).
  { intros X. apply H1 in X. revert X. vm_compute.
    intros [X|X]; discriminate X. }
  destruct (H2 Hn) as (_ & _ & _ & H3 & H4 & _).
  cbv zeta. split; [vm_compute; reflexivity|].
  split; [exact Hn|]. split; [|exact H4].
  rewrite H3. vm_compute. reflexivity.
Defined.

(** C6: an outgoing session on the hosted torrent has received Yb. *)
Lemma read_yb_clear_then_encrypted_witness :
  let w := Sample.got_yb in
  let r := read_yb Sample.crypto Sample.mediator Sample.crypto_provide w in
  let key := sha1 Sample.crypto (keyA ++ Sample.S ++ Sample.torrent_hash) in
  state_ (hs (snd r)) = AwaitingVc /\
  io_outbuf (io (snd r)) =
    io_outbuf (io w) ++
    (Sample.needle ++ Sample.obfuscated) ++
    crypt Sample.crypto key 0
      (VC ++ be32 2 ++ be16 0 ++ be16 68 ++
       handshake_message true Sample.torrent_hash Sample.our_peer_id).
Proof.
  destruct (read_yb_clear_then_encrypted Sample.crypto Sample.mediator
              Sample.crypto_provide Sample.got_yb Sample.torrent
              ltac:(vm_compute; discriminate)
              ltac:(vm_compute; reflexivity)
              eq_refl eq_refl) as (_ & H2 & H3 & _).
  split; [exact H2 | exact H3].
Defined.

(** C7: the sample initiator's third message names the hosted torrent and
    announces a PadC of two bytes. *)
Lemma read_crypto_provide_spec_witness :
  let w := Sample.after_pad_a [1; 2; 3] VC 2 Sample.their_peer_id in
  let w' := snd (read_crypto_provide Sample.crypto Sample.mediator w) in
  state_ (hs w) = AwaitingCryptoProvide /\
  io_torrent_hash (io w') = Sample.torrent_hash /\
  pad_c_len_ (hs w') = 2 /\
  state_ (hs w') = AwaitingPadC.
Proof.
  pose proof (read_crypto_provide_spec Sample.crypto Sample.mediator
                (Sample.after_pad_a [1; 2; 3] VC 2 Sample.their_peer_id)
                ltac:(vm_compute; reflexivity)
                ltac:(vm_compute; discriminate)) as H.
  cbv zeta in H.
  match type of H with
  | context [torrent_info_from_obfuscated ?m ?o] =>
      assert (E : torrent_info_from_obfuscated m o = Some Sample.torrent)
        by (vm_compute; reflexivity);
      rewrite E in H
  end.
  cbn [is_done Sample.torrent andb] in H.
  match type of H with
  | context [if ?c then _ else _] =>
      assert (E' : c = false) by (vm_compute; reflexivity);
      rewrite E' in H
  end.
  destruct H as (_ & _ & H1 & _ & _ & H2 & H3 & _).
  cbv zeta. split; [vm_compute; reflexivity|].
  split; [exact H1|]. split; [|exact H3].
  rewrite H2. vm_compute. reflexivity.
Defined.

(** C8: on the plaintext path the peer presents our own peer-id and is
    turned away; on the encrypted path another peer is let in, and one
    with our peer-id is not. *)
Lemma peer_id_self_check_witness :
  let outcome p w :=
    done_result
      (hs (snd (learn_peer_id Sample.crypto Sample.mediator p w))) in
  outcome PlaintextPath (Sample.after_handshake Sample.our_peer_id)
    = Some false /\
  outcome EncryptedPath
    (Sample.after_ia [1; 2; 3] VC 2 Sample.their_peer_id) = Some true /\
  outcome EncryptedPath
    (Sample.after_ia [1; 2; 3] VC 2 Sample.our_peer_id) = Some false.
Proof.
  assert (Hself : is_self Sample.mediator Sample.torrent_hash
                    Sample.our_peer_id).
  { exists Sample.torrent. split; reflexivity. }
  assert (Hother : ~ is_self Sample.mediator Sample.torrent_hash
                       Sample.their_peer_id).
  { intros [info [E1 E2]]. vm_compute in E1. injection E1 as E.
    subst info. vm_compute in E2. discriminate E2. }
  cbv zeta. split; [|split].
  - refine (proj1 (proj2
      (peer_id_self_check Sample.crypto Sample.mediator PlaintextPath
         (Sample.after_handshake Sample.our_peer_id) Sample.our_peer_id
         _ _)) _).
    + vm_compute. reflexivity.
    + vm_compute. split; [discriminate|reflexivity].
    + vm_compute. exact Hself.
  - refine (proj2 (proj2
      (peer_id_self_check Sample.crypto Sample.mediator EncryptedPath
         (Sample.after_ia [1; 2; 3] VC 2 Sample.their_peer_id)
         Sample.their_peer_id _ _)) _).
    + vm_compute. reflexivity.
    + vm_compute. repeat split; discriminate.
    + vm_compute. exact Hother.
  - refine (proj1 (proj2
      (peer_id_self_check Sample.crypto Sample.mediator EncryptedPath
         (Sample.after_ia [1; 2; 3] VC 2 Sample.our_peer_id)
         Sample.our_peer_id _ _)) _).
    + vm_compute. reflexivity.
    + vm_compute. repeat split; discriminate.
    + vm_compute. exact Hself.
Defined.

(** C9: the IO itself holds the all-zero hash, and the handshake in the
    buffer names it. *)
Lemma parse_handshake_rejects_zero_hash_witness :
  io_torrent_hash (io Sample.zero_hash_session) = zero_digest /\
  fst (parse_handshake Sample.crypto Sample.mediator
         Sample.zero_hash_session) = BadTorrent.
Proof.
  split; [reflexivity|].
  apply (parse_handshake_rejects_zero_hash Sample.crypto Sample.mediator
           Sample.zero_hash_session).
  - vm_compute. discriminate.
  - vm_compute. reflexivity.
  - vm_compute. reflexivity.
Defined.

(** C10: an incoming encrypted session, four rounds of the read callback
    after the initiator's stream arrived, is about to run [read_pad_c]. *)
Lemma read_pad_c_in_bounds_witness :
  let w := Sample.after_crypto_provide [1; 2; 3] VC 2 Sample.their_peer_id in
  state_ (hs w) = AwaitingPadC /\
  pad_c_len_ (hs w) <= PadcMaxlen /\
  Z.of_nat (length (fst (readBytes Sample.crypto (pad_c_len_ (hs w)) w)))
    <= PadcMaxlen.
Proof.
  split; [vm_compute; reflexivity|].
  apply (read_pad_c_in_bounds Sample.crypto Sample.mediator
           Sample.crypto_provide).
  - unfold Sample.after_crypto_provide, Sample.after_pad_a, Sample.after_ya,
      Sample.read, Sample.start.
    repeat (eapply reachable_step;
            [| first [ apply step_read | apply step_receive ];
               vm_compute; reflexivity ]).
    apply reachable_new.
  - vm_compute. reflexivity.
Defined.

(** ** More on bytes, buffers and filters *)

Section Wire.
Context (cr : Crypto).

Lemma crypt_app (key : bytes) (a b : bytes) : forall pos,
  crypt cr key pos (a ++ b) =
  crypt cr key pos a ++ crypt cr key (pos + length a) b.
Proof.
  induction a as [|x a IH]; intros pos; cbn.
  - rewrite Nat.add_0_r. reflexivity.
  - rewrite IH. do 2 f_equal. f_equal. lia.
Qed.

Lemma crypt_firstn (key : bytes) (n : nat) : forall l pos,
  firstn n (crypt cr key pos l) = crypt cr key pos (firstn n l).
Proof.
  induction n as [|n IH]; intros [|x l] pos; cbn; try reflexivity.
  rewrite IH. reflexivity.
Qed.

Lemma crypt_skipn (key : bytes) (n : nat) : forall l pos,
  skipn n (crypt cr key pos l) = crypt cr key (pos + n) (skipn n l).
Proof.
  induction n as [|n IH]; intros l pos.
  - cbn. rewrite Nat.add_0_r. reflexivity.
  - destruct l as [|x l]; cbn; [reflexivity|].
    rewrite IH. f_equal. lia.
Qed.

Lemma crypt_involutive (key : bytes) : forall l pos,
  crypt cr key pos (crypt cr key pos l) = l.
Proof.
  induction l as [|x l IH]; intros pos; cbn; [reflexivity|].
  rewrite IH, Z.lxor_assoc, Z.lxor_nilpotent, Z.lxor_0_r. reflexivity.
Qed.

Lemma filter_crypt_firstn (f : option Cipher) (n : nat) (l : bytes) :
  firstn n (filter_crypt cr f l) = filter_crypt cr f (firstn n l).
Proof. destruct f; cbn; [apply crypt_firstn|reflexivity]. Qed.

Lemma filter_crypt_skipn (f : option Cipher) (n : nat) (l : bytes) :
  skipn n (filter_crypt cr f l) =
  filter_crypt cr (filter_advance f n) (skipn n l).
Proof. destruct f; cbn; [apply crypt_skipn|reflexivity]. Qed.

Lemma length_pending (w : World) :
  length (pending cr w) = length (io_inbuf (io w)).
Proof. apply length_filter_crypt. Qed.

End Wire.

Lemma xor_bytes_involutive (a b : bytes) :
  length a = length b -> xor_bytes (xor_bytes a b) b = a.
Proof.
  revert b. induction a as [|x a IH]; intros [|y b] H; cbn in *;
    try discriminate; [reflexivity|].
  rewrite IH by lia.
  rewrite Z.lxor_assoc, Z.lxor_nilpotent, Z.lxor_0_r. reflexivity.
Qed.

Lemma length_xor_bytes (a b : bytes) :
  length a = length b -> length (xor_bytes a b) = length a.
Proof.
  revert b. induction a as [|x a IH]; intros [|y b] H; cbn in *;
    try discriminate; [reflexivity|].
  rewrite IH by lia. reflexivity.
Qed.

Lemma be_decode_be32 (v : Z) : 0 <= v < 2 ^ 32 -> be_decode (be32 v) = v.
Proof.
  intros H. unfold be_decode, be32. cbn [fold_left].
  change 255 with (Z.ones 8). rewrite !Z.land_ones by lia.
  rewrite !Z.shiftr_div_pow2 by lia.
  change (2 ^ 8) with 256. change (2 ^ 16) with 65536.
  change (2 ^ 24) with 16777216. change (2 ^ 32) with 4294967296 in H.
  rewrite (Z.mod_small (v / 16777216) 256) by
    (split; [apply Z.div_pos; lia | apply Z.div_lt_upper_bound; lia]).
  pose proof (Z.div_mod v 256 ltac:(lia)).
  pose proof (Z.div_mod (v / 256) 256 ltac:(lia)).
  pose proof (Z.div_mod (v / 256 / 256) 256 ltac:(lia)).
  rewrite !Z.div_div in * by lia.
  change (256 * 256) with 65536 in *. change (65536 * 256) with 16777216 in *.
  lia.
Qed.

Lemma starts_with_firstn (needle : bytes) : forall buf,
  (length needle <= length buf)%nat ->
  starts_with buf needle = bytes_eqb (firstn (length needle) buf) needle.
Proof.
  induction needle as [|x needle IH]; intros [|y buf] H; cbn in *;
    try reflexivity.
  rewrite IH by lia. rewrite (Z.eqb_sym x y). reflexivity.
Qed.

Lemma starts_with_prefix (needle a b : bytes) :
  (length needle <= length a)%nat ->
  starts_with (a ++ b) needle = starts_with a needle.
Proof.
  intros H. rewrite !starts_with_firstn by (rewrite ?length_app; lia).
  rewrite firstn_app.
  replace (length needle - length a)%nat with 0%nat by lia.
  cbn [firstn]. rewrite app_nil_r. reflexivity.
Qed.

(** A needle that first shows at the end of the pad is not in the pad,
    and what is left of the pad does not hide it. *)
Lemma no_needle_in_pad (pad needle : bytes) :
  no_needle_before (length pad) needle (pad ++ needle) ->
  no_needle_before (length pad - (length needle - 1)) needle pad.
Proof.
  intros H k Hk.
  rewrite <- (H k) by lia.
  rewrite skipn_app. replace (k - length pad)%nat with 0%nat by lia.
  cbn [skipn]. symmetry. apply starts_with_prefix.
  rewrite length_skipn. lia.
Qed.

Lemma no_needle_in_tail (d : nat) (pad needle rest : bytes) :
  no_needle_before (length pad) needle (pad ++ needle) ->
  no_needle_before (length (skipn d pad)) needle
    (skipn d pad ++ needle ++ rest).
Proof.
  intros H k Hk. rewrite length_skipn in Hk.
  rewrite <- (H (k + d)%nat) by lia.
  rewrite !skipn_app, skipn_skipn, length_skipn.
  replace (k - (length pad - d))%nat with 0%nat by lia.
  replace (k + d - length pad)%nat with 0%nat by lia.
  cbn [skipn]. rewrite app_assoc. apply starts_with_prefix.
  rewrite length_app. lia.
Qed.

Lemma after_read_add (a b : nat) (w : World) :
  after_read b (after_read a w) = after_read (a + b) w.
Proof.
  unfold after_read. hs_simpl.
  rewrite skipn_skipn, filter_advance_add, (Nat.add_comm b a). reflexivity.
Qed.

Lemma filter_advance_none (f : option Cipher) (n : nat) :
  filter_advance f n = None <-> f = None.
Proof. destruct f; cbn; split; congruence. Qed.

Lemma mode_eqb_eq (a b : tr_encryption_mode) : mode_eqb a b = true <-> a = b.
Proof. destruct a, b; cbn; split; congruence. Qed.

Lemma negb_true_eq : negb true = false.
Proof. reflexivity. Qed.

Lemma getCryptoSelect_cases (mode : tr_encryption_mode) (cp : Z) :
  getCryptoSelect mode cp = 0 \/ getCryptoSelect mode cp = 1 \/
  getCryptoSelect mode cp = 2.
Proof.
  unfold getCryptoSelect.
  destruct mode; cbn [crypto_choices first_choice];
    repeat match goal with
           | |- context [if ?c then _ else _] => destruct c
           end; auto.
Qed.

(** What [getCryptoSelect] picks was offered. *)
Lemma getCryptoSelect_offered (mode : tr_encryption_mode) (cp : Z) :
  getCryptoSelect mode cp <> 0 ->
  (getCryptoSelect mode cp = 1 \/ getCryptoSelect mode cp = 2) /\
  (Z.land (getCryptoSelect mode cp) cp =? 0) = false.
Proof.
  unfold getCryptoSelect.
  destruct mode; cbn [crypto_choices first_choice];
    unfold CryptoProvideCrypto, CryptoProvidePlaintext;
    repeat match goal with
           | |- context [if negb (?c =? 0) then _ else _] =>
               destruct (Z.eqb_spec c 0); cbn [negb]
           end; intros H; try contradiction;
    (split; [auto|]); apply Z.eqb_neq; rewrite Z.land_comm; assumption.
Qed.

Lemma length_handshake_message (dht : bool) (h p : bytes) :
  length h = 20%nat -> length p = 20%nat ->
  length (handshake_message dht h p) = 68%nat.
Proof.
  intros Hh Hp. unfold handshake_message. rewrite !length_app, Hh, Hp.
  reflexivity.
Qed.

Lemma handshake_message_parts (dht : bool) (h p rest : bytes) :
  length h = 20%nat -> length p = 20%nat ->
  let m := handshake_message dht h p ++ rest in
  firstn 20 m = HandshakeName /\
  firstn 8 (skipn 20 m) = [0; 0; 0; 0; 0; 16; 0; if dht then 5 else 4] /\
  firstn 20 (skipn 28 m) = h /\
  firstn 20 (skipn 48 m) = p /\
  skipn 48 m = p ++ rest /\
  skipn 68 m = rest.
Proof.
  intros Hh Hp. cbv zeta. unfold handshake_message.
  rewrite <- !app_assoc.
  set (flags := [0; 0; 0; 0; 0; 16; 0; if dht then 5 else 4]).
  split; [apply firstn_exact; reflexivity|].
  split; [rewrite skipn_exact by reflexivity; apply firstn_exact;
          reflexivity|].
  assert (S28 : skipn 28 (HandshakeName ++ flags ++ h ++ p ++ rest) =
                h ++ p ++ rest).
  { rewrite app_assoc. apply skipn_exact. reflexivity. }
  assert (S48 : skipn 48 (HandshakeName ++ flags ++ h ++ p ++ rest) =
                p ++ rest).
  { change 48%nat with (20 + 28)%nat. rewrite <- skipn_skipn, S28.
    apply skipn_exact. exact Hh. }
  split; [rewrite S28; apply firstn_exact; exact Hh|].
  split; [rewrite S48; apply firstn_exact; exact Hp|].
  split; [exact S48|].
  change 68%nat with (20 + 48)%nat. rewrite <- skipn_skipn, S48.
  apply skipn_exact. exact Hp.
Qed.

Lemma flags_have (dht : bool) :
  let flags := [0; 0; 0; 0; 0; 16; 0; if dht then 5 else 4] in
  HANDSHAKE_HAS_DHT flags = dht /\
  HANDSHAKE_HAS_LTEP flags = true /\
  HANDSHAKE_HAS_FASTEXT flags = true.
Proof. destruct dht; repeat split. Qed.

(** ** Running a handler further *)

(** Normal forms of what a run leaves of buffers and filters. *)
Ltac hs_norm :=
  change (Z.to_nat 20) with 20%nat in *;
  change (Z.to_nat HandshakeFlagsLen) with 8%nat in *;
  change (Z.to_nat Sha1Len) with 20%nat in *;
  change (Z.to_nat PeerIdLen) with 20%nat in *;
  change (Z.to_nat KeyLen) with 96%nat in *;
  change (Z.to_nat 8) with 8%nat in *;
  change (Z.to_nat 4) with 4%nat in *;
  change (Z.to_nat 2) with 2%nat in *;
  change (Z.to_nat 1) with 1%nat in *;
  rewrite ?skipn_skipn;
  rewrite ?firstn_len by (rewrite ?length_skipn; lia);
  rewrite ?filter_advance_add;
  cbn [Nat.add].

(** Run a handler, rewriting with [rw] what the run gets stuck at. *)
Ltac hs_exec rw :=
  repeat (progress (hs_step; hs_norm;
                    cbn [filter_crypt filter_advance cipher_key cipher_pos
                         mode_eqb State_eqb dh_private_key
                         dh_peer_public_key];
                    rw)).

(** Boolean hypotheses, taken apart. *)
Ltac bool_hyps :=
  repeat match goal with
         | H : _ && _ = true |- _ => apply andb_true_iff in H; destruct H
         | H : negb _ = true |- _ => apply negb_true_iff in H
         | H : negb _ = false |- _ => apply negb_false_iff in H
         | H : true = true -> _ |- _ => specialize (H eq_refl)
         | H : false = true -> _ |- _ => clear H
         end.

(** Run the error callback up to the next test that does not compute,
    and split on the tests. *)
Ltac err_norm :=
  repeat (progress (hs_step; cbn [State_eqb andb orb negb Z.eqb];
                    rewrite ?andb_false_r)).

Ltac err_cases :=
  repeat (err_norm;
          try match goal with
              | |- context [if ?c then _ else _] => destruct c eqn:?
              | |- context [match ?x with nil => _ | cons _ _ => _ end] =>
                  destruct x as [|[|] ?]
              end).

(** ** The two scans

    The loops of [read_pad_a] and [read_vc]: a call waits, finds the
    needle, or runs out of rounds. *)

Section Scans.
Context (cr : Crypto) (med : Mediator).

Lemma read_pad_a_scan_later (needle : bytes) : forall n w,
  (length (io_inbuf (io w)) - 19 < n)%nat ->
  no_needle_before (length (io_inbuf (io w)) - 19) needle (io_inbuf (io w)) ->
  read_pad_a_scan cr med n needle w =
    (READ_LATER, after_read (length (io_inbuf (io w)) - 19) w).
Proof.
  induction n as [|n IH]; intros w Hn Hno; [lia|].
  destruct w as [h i u]. cbn [hs io] in Hn, Hno |- *.
  cbn [read_pad_a_scan]. hs_step.
  destruct (Z.ltb_spec (Z.of_nat (length (io_inbuf i))) Sha1Len) as [Hs|Hs];
    unfold Sha1Len in Hs; hs_step.
  - replace (length (io_inbuf i) - 19)%nat with 0%nat by lia.
    rewrite after_read_0. reflexivity.
  - pose proof (Hno 0%nat ltac:(lia)) as H0. cbn [skipn] in H0.
    rewrite H0. hs_step. change (Z.to_nat 1) with 1%nat.
    rewrite firstn_len by lia.
    match goal with |- read_pad_a_scan _ _ _ _ ?w1 = _ =>
      specialize (IH w1) end.
    hs_simpl. rewrite length_skipn in IH. rewrite IH.
    + unfold after_read. hs_simpl.
      rewrite skipn_skipn, filter_advance_add.
      replace (length (io_inbuf i) - 1 - 19 + 1)%nat
        with (length (io_inbuf i) - 19)%nat by lia.
      replace (1 + (length (io_inbuf i) - 1 - 19))%nat
        with (length (io_inbuf i) - 19)%nat by lia.
      reflexivity.
    + lia.
    + intros k Hk. rewrite skipn_skipn. apply Hno. lia.
Qed.

Lemma read_vc_scan_later (needle info_hash : bytes) : forall n w,
  (length (io_inbuf (io w)) - 7 < n)%nat ->
  no_needle_before (length (io_inbuf (io w)) - 7) needle (io_inbuf (io w)) ->
  read_vc_scan cr med n needle info_hash w =
    (READ_LATER, after_read (length (io_inbuf (io w)) - 7) w).
Proof.
  induction n as [|n IH]; intros w Hn Hno; [lia|].
  destruct w as [h i u]. cbn [hs io] in Hn, Hno |- *.
  cbn [read_vc_scan]. hs_step.
  destruct (Z.ltb_spec (Z.of_nat (length (io_inbuf i))) 8) as [Hs|Hs];
    hs_step.
  - replace (length (io_inbuf i) - 7)%nat with 0%nat by lia.
    rewrite after_read_0. reflexivity.
  - pose proof (Hno 0%nat ltac:(lia)) as H0. cbn [skipn] in H0.
    rewrite H0. hs_step. change (Z.to_nat 1) with 1%nat.
    rewrite firstn_len by lia.
    match goal with |- read_vc_scan _ _ _ _ _ ?w1 = _ =>
      specialize (IH w1) end.
    hs_simpl. rewrite length_skipn in IH. rewrite IH.
    + unfold after_read. hs_simpl.
      rewrite skipn_skipn, filter_advance_add.
      replace (length (io_inbuf i) - 1 - 7 + 1)%nat
        with (length (io_inbuf i) - 7)%nat by lia.
      replace (1 + (length (io_inbuf i) - 1 - 7))%nat
        with (length (io_inbuf i) - 7)%nat by lia.
      reflexivity.
    + lia.
    + intros k Hk. rewrite skipn_skipn. apply Hno. lia.
Qed.

(** The loop of [read_vc] finds a needle that follows fewer than [n]
    bytes: the pad is dropped, the decrypt key is installed and the needle
    is read through it. *)
Lemma read_vc_scan_found (pad needle info_hash rest : bytes) : forall n w,
  io_inbuf (io w) = pad ++ needle ++ rest ->
  length needle = 8%nat ->
  (length pad < n)%nat ->
  no_needle_before (length pad) needle (io_inbuf (io w)) ->
  read_vc_scan cr med n needle info_hash w =
    (READ_NOW,
     {| hs := hs_with_state AwaitingCryptoSelect (hs w);
        io := io_with_in rest
                (Some {| cipher_key :=
                           decrypt_key cr (io_is_incoming (io w)) (dh_ (hs w))
                             info_hash;
                         cipher_pos := 8 |}) (io w);
        utp_failed := utp_failed w |}).
Proof.
  induction pad as [|p pad IH]; intros n w Hbuf Hneedle Hn Hno;
    destruct w as [h i u]; cbn [hs io] in Hbuf, Hno |- *.
  - destruct n as [|n]; [inversion Hn|].
    assert (Hlen : (8 <= length (io_inbuf i))%nat)
      by (rewrite Hbuf, !length_app; lia).
    assert (Hst : starts_with (io_inbuf i) needle = true)
      by (rewrite Hbuf; cbn [app]; apply starts_with_app).
    cbn [read_vc_scan]. hs_step.
    rewrite size_ok by lia. hs_step.
    rewrite Hst. hs_step.
    change (Z.to_nat 8) with 8%nat.
    rewrite firstn_len by lia. cbn [filter_advance cipher_key cipher_pos].
    rewrite Hbuf. cbn [app]. rewrite skipn_exact by exact Hneedle.
    reflexivity.
  - destruct n as [|n]; [inversion Hn|].
    assert (Hlen : (9 <= length (io_inbuf i))%nat)
      by (rewrite Hbuf, !length_app; cbn [length]; lia).
    pose proof (Hno 0%nat ltac:(cbn [length]; lia)) as H0.
    cbn [skipn] in H0.
    cbn [read_vc_scan]. hs_step.
    rewrite size_ok by lia. hs_step.
    rewrite H0. hs_step. change (Z.to_nat 1) with 1%nat.
    rewrite firstn_len by lia.
    match goal with |- read_vc_scan _ _ _ _ _ ?w1 = _ =>
      specialize (IH n w1) end.
    hs_simpl. rewrite IH.
    + reflexivity.
    + rewrite Hbuf. reflexivity.
    + exact Hneedle.
    + cbn [length] in Hn. lia.
    + apply no_needle_before_tail. exact Hno.
Qed.

Lemma read_vc_scan_exhausted (n : nat) (needle info_hash : bytes) : forall w,
  (n + 7 <= length (io_inbuf (io w)))%nat ->
  no_needle_before n needle (io_inbuf (io w)) ->
  read_vc_scan cr med n needle info_hash w = done med false (after_read n w).
Proof.
  induction n as [|n IH]; intros w Hlen Hno.
  - rewrite after_read_0. reflexivity.
  - destruct w as [h i u]. cbn [hs io] in Hlen, Hno.
    pose proof (Hno 0%nat ltac:(lia)) as H0. cbn [skipn] in H0.
    cbn [read_vc_scan]. hs_step.
    rewrite size_ok by lia. hs_step.
    rewrite H0. hs_step. change (Z.to_nat 1) with 1%nat.
    rewrite firstn_len by lia.
    match goal with |- read_vc_scan _ _ _ _ _ ?w1 = _ =>
      specialize (IH w1) end.
    hs_simpl. rewrite IH.
    + unfold after_read. hs_simpl.
      rewrite skipn_skipn, filter_advance_add, Nat.add_comm. reflexivity.
    + rewrite length_skipn. lia.
    + apply no_needle_before_tail. exact Hno.
Qed.

End Scans.

Section Shapes.
Context (cr : Crypto) (med : Mediator).

(** What a call of the PadA loop can come to: it waits, it finds the
    needle, or it runs out of rounds; [k] bytes of padding are gone. *)
Lemma read_pad_a_scan_shape (needle : bytes) : forall n w,
  exists k, (k <= n)%nat /\
    (read_pad_a_scan cr med n needle w = (READ_LATER, after_read k w) \/
     read_pad_a_scan cr med n needle w =
       (READ_NOW,
        {| hs := hs_with_state AwaitingCryptoProvide (hs w);
           io := io (after_read (k + 20) w);
           utp_failed := utp_failed w |}) \/
     read_pad_a_scan cr med n needle w = done med false (after_read k w)).
Proof.
  induction n as [|n IH]; intros w.
  - exists 0%nat. split; [lia|]. right. right. rewrite after_read_0.
    reflexivity.
  - destruct w as [h i u]. cbn [read_pad_a_scan]. hs_step.
    destruct (Z.ltb_spec (Z.of_nat (length (io_inbuf i))) Sha1Len) as [Hs|Hs];
      unfold Sha1Len in Hs; hs_step.
    { exists 0%nat. split; [lia|]. left. rewrite after_read_0. reflexivity. }
    destruct (starts_with (io_inbuf i) needle); hs_step.
    { exists 0%nat. split; [lia|]. right. left. unfold after_read. hs_simpl.
      change (Z.to_nat Sha1Len) with 20%nat. rewrite firstn_len by lia.
      reflexivity. }
    change (Z.to_nat 1) with 1%nat. rewrite firstn_len by lia.
    match goal with |- context [read_pad_a_scan _ _ _ _ ?w1] =>
      destruct (IH w1) as (k & Hk & IHk);
      assert (E : w1 = after_read 1 {| hs := h; io := i; utp_failed := u |})
        by reflexivity
    end.
    rewrite E in IHk |- *. rewrite !after_read_add in IHk.
    exists (1 + k)%nat. split; [lia|].
    replace (1 + k + 20)%nat with (1 + (k + 20))%nat by lia. exact IHk.
Qed.

Lemma read_vc_scan_shape (needle info_hash : bytes) : forall n w,
  exists k, (k <= n)%nat /\
    (read_vc_scan cr med n needle info_hash w = (READ_LATER, after_read k w) \/
     read_vc_scan cr med n needle info_hash w =
       (READ_NOW,
        {| hs := hs_with_state AwaitingCryptoSelect (hs w);
           io := io_with_in (skipn (k + 8) (io_inbuf (io w)))
                   (Some {| cipher_key :=
                              decrypt_key cr (io_is_incoming (io w))
                                (dh_ (hs w)) info_hash;
                            cipher_pos := 8 |}) (io w);
           utp_failed := utp_failed w |}) \/
     read_vc_scan cr med n needle info_hash w =
       done med false (after_read k w)).
Proof.
  induction n as [|n IH]; intros w.
  - exists 0%nat. split; [lia|]. right. right. rewrite after_read_0.
    reflexivity.
  - destruct w as [h i u]. cbn [read_vc_scan]. hs_step.
    destruct (Z.ltb_spec (Z.of_nat (length (io_inbuf i))) 8) as [Hs|Hs];
      hs_step.
    { exists 0%nat. split; [lia|]. left. rewrite after_read_0. reflexivity. }
    destruct (starts_with (io_inbuf i) needle); hs_step.
    { exists 0%nat. split; [lia|]. right. left.
      change (Z.to_nat 8) with 8%nat. rewrite firstn_len by lia.
      reflexivity. }
    change (Z.to_nat 1) with 1%nat. rewrite firstn_len by lia.
    match goal with |- context [read_vc_scan _ _ _ _ _ ?w1] =>
      destruct (IH w1) as (k & Hk & IHk);
      assert (E : w1 = after_read 1 {| hs := h; io := i; utp_failed := u |})
        by reflexivity
    end.
    rewrite E in IHk |- *.
    exists (1 + k)%nat. split; [lia|].
    destruct IHk as [I|[I|I]]; rewrite I.
    + left. rewrite after_read_add. reflexivity.
    + right. left. unfold after_read. hs_simpl. rewrite skipn_skipn.
      replace (1 + k + 8)%nat with (k + 8 + 1)%nat by lia. reflexivity.
    + right. right. rewrite after_read_add. reflexivity.
Qed.

End Shapes.

Section HandlerShapes.
Context (cr : Crypto) (med : Mediator).

Lemma read_pad_a_shape (w : World) :
  exists k,
    (read_pad_a cr med w = (READ_LATER, after_read k w) \/
     read_pad_a cr med w =
       (READ_NOW,
        {| hs := hs_with_state AwaitingCryptoProvide (hs w);
           io := io (after_read (k + 20) w);
           utp_failed := utp_failed w |}) \/
     read_pad_a cr med w = done med false (after_read k w)).
Proof.
  unfold read_pad_a, bind, get_hs.
  destruct (read_pad_a_scan_shape cr med
              (sha1 cr (req1 ++ secret cr (dh_ (hs w))))
              (Z.to_nat PadaMaxlen) w) as (k & _ & H).
  exists k. exact H.
Qed.

Lemma read_vc_shape (w : World) :
  exists k,
    (read_vc cr med w = (READ_LATER, after_read k w) \/
     read_vc cr med w =
       (READ_NOW,
        {| hs := hs_with_state AwaitingCryptoSelect (hs w);
           io := io_with_in (skipn (k + 8) (io_inbuf (io w)))
                   (Some {| cipher_key :=
                              decrypt_key cr (io_is_incoming (io w))
                                (dh_ (hs w)) (io_torrent_hash (io w));
                            cipher_pos := 8 |}) (io w);
           utp_failed := utp_failed w |}) \/
     read_vc cr med w = done med false (after_read k w)).
Proof.
  unfold read_vc, bind, get_hs, torrentHash, get_io.
  destruct (read_vc_scan_shape cr med
              (crypt cr (encrypt_key cr true (dh_ (hs w))
                           (io_torrent_hash (io w))) 0 VC)
              (io_torrent_hash (io w))
              (Z.to_nat PadbMaxlen) w) as (k & _ & H).
  exists k. exact H.
Qed.

End HandlerShapes.

(** ** The constructor and the plaintext handshake *)

Section Constructor.
Context (cr : Crypto) (med : Mediator).

(** X1.  The constructor.  A new session has not completed, holds the
    mode it was given and the mediator's private key, and marks no peer.
    On an incoming IO it waits in AwaitingHandshake and writes nothing.
    On an outgoing IO it sends Ya and PadA and waits in AwaitingYb, unless
    the mode is clear-preferred: then it writes the plaintext handshake,
    notes that the handshake has been sent and waits in AwaitingHandshake.
    The result of [build_handshake_message] is not tested: when the
    mediator does not know the torrent, the 68 bytes written are zeros. *)
Theorem new_handshake_starts (i : tr_peerIo) (mode : tr_encryption_mode)
  (members : tr_handshake) (marked : list (bytes * Z)) :
  let w := new_handshake cr med i mode members marked in
  let sends (bs : bytes) :=
    io w = io_with_out (io_outbuf i ++ filter_crypt cr (io_encrypt i) bs)
             (filter_advance (io_encrypt i) (length bs)) i in
  done_result (hs w) = None /\
  encryption_mode_ (hs w) = mode /\
  dh_private_key (dh_ (hs w)) = private_key med /\
  utp_failed w = marked /\
  (io_is_incoming i = true ->
   state_ (hs w) = AwaitingHandshake /\ io w = i /\
   have_sent_bittorrent_handshake_ (hs w) =
     have_sent_bittorrent_handshake_ members) /\
  (io_is_incoming i = false -> mode <> TR_CLEAR_PREFERRED ->
   state_ (hs w) = AwaitingYb /\
   sends (dh_public_key cr (private_key med) ++ pad med PadaMaxlen) /\
   have_sent_bittorrent_handshake_ (hs w) =
     have_sent_bittorrent_handshake_ members) /\
  (io_is_incoming i = false -> mode = TR_CLEAR_PREFERRED ->
   state_ (hs w) = AwaitingHandshake /\
   have_sent_bittorrent_handshake_ (hs w) = true /\
   sends match torrent_info med (io_torrent_hash i) with
         | Some info =>
             handshake_message (allows_dht med) (io_torrent_hash i)
               (client_peer_id info)
         | None => zeros 68
         end).
Proof.
  cbv zeta. unfold new_handshake, send_ya, send_plain_handshake.
  destruct (io_is_incoming i) eqn:Hi; [|destruct mode];
    cbn [mode_eqb negb]; hs_step;
    repeat split; intros; try discriminate; try congruence.
  destruct (torrent_info med (io_torrent_hash i)) as [info|] eqn:Ei.
  - rewrite (build_handshake_message_known med i _ info Ei). reflexivity.
  - rewrite (build_handshake_message_unknown med i _ Ei). reflexivity.
Qed.

End Constructor.

Section ParseTable.
Context (cr : Crypto) (med : Mediator).

(** [parse_handshake] with 68 bytes at hand, test by test: the name, the
    hash against zero and against the IO, the peer-id against our own. *)
Lemma parse_handshake_cases (w : World) :
  68 <= Z.of_nat (length (io_inbuf (io w))) ->
  let p := pending cr w in
  let name := firstn 20 p in
  let reserved := firstn 8 (skipn 20 p) in
  let hash := firstn 20 (skipn 28 p) in
  let peer_id := firstn 20 (skipn 48 p) in
  let r := fst (parse_handshake cr med w) in
  let w' := snd (parse_handshake cr med w) in
  (name <> HandshakeName -> r = EncryptionWrong) /\
  (name = HandshakeName ->
   hash = zero_digest \/ hash <> io_torrent_hash (io w) -> r = BadTorrent) /\
  (name = HandshakeName ->
   hash <> zero_digest -> hash = io_torrent_hash (io w) ->
   peer_id_ (hs w') = Some peer_id /\
   (is_self med hash peer_id -> r = PeerIsSelf) /\
   (~ is_self med hash peer_id ->
    r = Ok /\
    io_dht (io w') = HANDSHAKE_HAS_DHT reserved /\
    io_ltep (io w') = HANDSHAKE_HAS_LTEP reserved /\
    io_fext (io w') = HANDSHAKE_HAS_FASTEXT reserved /\
    pending cr w' = skipn 68 p)).
Proof.
  intros Hsz. destruct w as [h i u]. cbn [hs io] in *.
  assert (Hn : (68 <= length (io_inbuf i))%nat) by lia.
  unfold pending. cbn [io io_inbuf io_decrypt]. cbv zeta.
  rewrite !filter_crypt_skipn, !filter_crypt_firstn.
  unfold parse_handshake. hs_step.
  rewrite size_ok by (unfold HandshakeSize; lia). hs_step. hs_norm.
  set (name := filter_crypt cr (io_decrypt i) (firstn 20 (io_inbuf i))).
  destruct (bytes_eqb name HandshakeName) eqn:En; hs_step.
  2: { apply bytes_eqb_neq in En. repeat split; intros; tauto. }
  apply bytes_eqb_eq in En. hs_norm.
  set (hash := filter_crypt cr (filter_advance (io_decrypt i) 28)
                 (firstn 20 (skipn 28 (io_inbuf i)))).
  set (reserved := filter_crypt cr (filter_advance (io_decrypt i) 20)
                     (firstn 8 (skipn 20 (io_inbuf i)))).
  destruct (bytes_eqb hash zero_digest) eqn:Ez; hs_step.
  { apply bytes_eqb_eq in Ez. repeat split; intros; tauto. }
  apply bytes_eqb_neq in Ez.
  destruct (bytes_eqb hash (io_torrent_hash i)) eqn:Eh; hs_step.
  2: { apply bytes_eqb_neq in Eh. repeat split; intros; tauto. }
  apply bytes_eqb_eq in Eh. hs_norm.
  set (pid := filter_crypt cr (filter_advance (io_decrypt i) 48)
                (firstn 20 (skipn 48 (io_inbuf i)))).
  split; [tauto|]. split; [intros _ [X|X]; contradiction|]. intros _ _ _.
  destruct (torrent_info med hash) as [info|] eqn:Ei; hs_step.
  - rewrite (is_self_known med _ pid _ Ei).
    destruct (bytes_eqb (client_peer_id info) pid); hs_step.
    + repeat split; congruence.
    + split; [reflexivity|]. split; [discriminate|]. intros _.
      unfold pending. hs_simpl. hs_norm. repeat split.
  - pose proof (is_self_unknown med _ pid Ei) as Hns.
    split; [reflexivity|]. split; [tauto|]. intros _.
    unfold pending. hs_simpl. hs_norm. repeat split.
Qed.

End ParseTable.

Section ParseTrip.
Context (cr : Crypto) (medA medB : Mediator).

(** X2.  What [build_handshake_message] of one client writes,
    [parse_handshake] of another accepts.  The torrent is known to the
    writer, hash and peer-id have 20 bytes, the hash is not all zero and
    is the one on the reader's IO, and the writer's peer-id is not the
    reader's own.  Then the reader answers Ok, has stored the writer's
    peer-id, has noted LTEP and FastExt as supported and DHT as the writer
    allows it, and what followed the handshake is left to read. *)
Theorem handshake_message_round_trip (iA : tr_peerIo) (infoA : tr_torrent_info)
  (w : World) (rest : bytes) :
  torrent_info medA (io_torrent_hash iA) = Some infoA ->
  length (io_torrent_hash iA) = 20%nat ->
  length (client_peer_id infoA) = 20%nat ->
  io_torrent_hash iA <> zero_digest ->
  io_torrent_hash (io w) = io_torrent_hash iA ->
  pending cr w = snd (build_handshake_message medA iA (zeros 68)) ++ rest ->
  ~ is_self medB (io_torrent_hash iA) (client_peer_id infoA) ->
  let r := parse_handshake cr medB w in
  fst r = Ok /\
  peer_id_ (hs (snd r)) = Some (client_peer_id infoA) /\
  io_ltep (io (snd r)) = true /\
  io_fext (io (snd r)) = true /\
  io_dht (io (snd r)) = allows_dht medA /\
  pending cr (snd r) = rest.
Proof.
  intros Hinfo Lh Lp Hnz Hio Hpend Hns.
  rewrite (build_handshake_message_known medA iA _ infoA Hinfo) in Hpend.
  cbn [snd] in Hpend. unfold handshake_message in Hpend.
  rewrite <- !app_assoc in Hpend.
  set (flags := [0; 0; 0; 0; 0; 16; 0; if allows_dht medA then 5 else 4])
    in Hpend.
  assert (Hsz : 68 <= Z.of_nat (length (io_inbuf (io w)))).
  { rewrite <- (length_pending cr), Hpend, !length_app, Lh, Lp.
    change (length HandshakeName) with 20%nat. change (length flags) with 8%nat.
    lia. }
  assert (N : firstn 20 (pending cr w) = HandshakeName).
  { rewrite Hpend. apply firstn_exact. reflexivity. }
  assert (R : firstn 8 (skipn 20 (pending cr w)) = flags).
  { rewrite Hpend, skipn_exact by reflexivity.
    apply firstn_exact. reflexivity. }
  assert (Hh : firstn 20 (skipn 28 (pending cr w)) = io_torrent_hash iA).
  { rewrite Hpend, app_assoc, skipn_exact by reflexivity.
    apply firstn_exact. exact Lh. }
  assert (P : firstn 20 (skipn 48 (pending cr w)) = client_peer_id infoA).
  { rewrite Hpend, !app_assoc, <- (app_assoc _ (client_peer_id infoA)).
    rewrite skipn_exact by (rewrite !length_app, Lh; reflexivity).
    apply firstn_exact. exact Lp. }
  assert (T : skipn 68 (pending cr w) = rest).
  { rewrite Hpend, !app_assoc.
    apply skipn_exact. rewrite !length_app, Lh, Lp. reflexivity. }
  destruct (parse_handshake_cases cr medB w Hsz) as (_ & _ & H).
  rewrite N, R, Hh, P, T, Hio in H.
  destruct (H eq_refl Hnz eq_refl) as (H1 & _ & H2).
  destruct (H2 Hns) as (H3 & H4 & H5 & H6 & H7).
  cbv zeta. split; [exact H3|]. split; [exact H1|].
  split; [rewrite H5; unfold flags; destruct (allows_dht medA); reflexivity|].
  split; [rewrite H6; unfold flags; destruct (allows_dht medA); reflexivity|].
  split; [rewrite H4; unfold flags; destruct (allows_dht medA); reflexivity|].
  exact H7.
Qed.

End ParseTrip.

Section ReadHandshake.
Context (cr : Crypto) (med : Mediator).

(** X3.  [read_handshake] on an incoming session whose filters are not
    keyed, with 48 bytes at hand.  It notes that the peer was heard.  A
    buffer that does not begin with the protocol name is taken for the
    start of an encrypted handshake: nothing is read, the state is
    AwaitingYa.  A plaintext handshake fails when the mode requires
    encryption or the mediator does not host the torrent named; else the
    48 bytes are read, the IO takes the hash and the three extension
    flags, our handshake is written unless it was sent before, and the
    state is AwaitingPeerId. *)
Theorem read_handshake_incoming (w : World) :
  io_is_incoming (io w) = true ->
  io_decrypt (io w) = None ->
  io_encrypt (io w) = None ->
  done_result (hs w) = None ->
  48 <= Z.of_nat (length (io_inbuf (io w))) ->
  let buf := io_inbuf (io w) in
  let reserved := firstn 8 (skipn 20 buf) in
  let hash := firstn 20 (skipn 28 buf) in
  let r := read_handshake cr med w in
  let w' := snd r in
  have_read_anything_from_peer_ (hs w') = true /\
  (firstn 20 buf <> HandshakeName ->
     fst r = READ_NOW /\ state_ (hs w') = AwaitingYa /\
     done_result (hs w') = None /\ io w' = io w) /\
  (firstn 20 buf = HandshakeName ->
     (encryption_mode_ (hs w) = TR_ENCRYPTION_REQUIRED \/
      torrent_info med hash = None ->
      failed w' /\ io_outbuf (io w') = io_outbuf (io w)) /\
     (encryption_mode_ (hs w) <> TR_ENCRYPTION_REQUIRED ->
      forall info, torrent_info med hash = Some info ->
        fst r = READ_NOW /\ state_ (hs w') = AwaitingPeerId /\
        done_result (hs w') = None /\
        io_torrent_hash (io w') = hash /\
        io_inbuf (io w') = skipn 48 buf /\
        io_dht (io w') = HANDSHAKE_HAS_DHT reserved /\
        io_ltep (io w') = HANDSHAKE_HAS_LTEP reserved /\
        io_fext (io w') = HANDSHAKE_HAS_FASTEXT reserved /\
        have_sent_bittorrent_handshake_ (hs w') = true /\
        io_outbuf (io w') =
          io_outbuf (io w) ++
          (if have_sent_bittorrent_handshake_ (hs w) then []
           else handshake_message (allows_dht med) hash
                  (client_peer_id info)))).
Proof.
  intros Hinc Hdec Henc Hd Hsz.
  destruct w as [h i u]. cbn [hs io] in *.
  assert (Hn : (48 <= length (io_inbuf i))%nat) by lia.
  cbv zeta. unfold read_handshake, failed. hs_step.
  rewrite size_ok by (unfold IncomingHandshakeLen; lia). hs_step.
  rewrite !Hinc.
  rewrite starts_with_firstn by (cbn; lia).
  change (length HandshakeName) with 20%nat.
  destruct (bytes_eqb (firstn 20 (io_inbuf i)) HandshakeName) eqn:En.
  - apply bytes_eqb_eq in En.
    destruct (mode_eqb (encryption_mode_ h) TR_ENCRYPTION_REQUIRED) eqn:Em;
      hs_step.
    + apply mode_eqb_eq in Em. rewrite Hd. hs_simpl.
      split; [reflexivity|]. split; [tauto|]. intros _.
      split; [intros _; split; reflexivity|]. intros X. contradiction.
    + assert (Hm : encryption_mode_ h <> TR_ENCRYPTION_REQUIRED).
      { intros X. apply mode_eqb_eq in X. congruence. }
      rewrite Hdec. cbn [filter_crypt filter_advance].
      hs_norm. rewrite En, bytes_eqb_refl. hs_step. hs_norm.
      rewrite ?Hdec. cbn [filter_crypt filter_advance].
      set (hash := firstn 20 (skipn 28 (io_inbuf i))).
      destruct (torrent_info med hash) as [info|] eqn:Ei; hs_step.
      * rewrite (build_handshake_message_known med _ _ info)
          by (hs_simpl; exact Ei).
        split; [destruct (have_sent_bittorrent_handshake_ h); reflexivity|].
        split; [tauto|]. intros _. split.
        { intros [X|X]; [contradiction|discriminate]. }
        intros _ info' E. injection E as <-.
        destruct (have_sent_bittorrent_handshake_ h) eqn:Hs; hs_step;
          rewrite ?Henc, ?app_nil_r; cbn [filter_crypt]; rewrite ?Hd;
          repeat split; exact Hs.
      * rewrite Hd. hs_simpl. split; [reflexivity|]. split; [tauto|].
        intros _. split; [intros _; split; reflexivity|].
        intros _ info E. discriminate E.
  - apply bytes_eqb_neq in En. hs_step.
    split; [reflexivity|]. split; [|tauto]. intros _.
    rewrite Hd. repeat split.
Qed.

(** X4.  [read_handshake] on an outgoing session, with 48 bytes at hand;
    the decrypt filter may be keyed.  It fails when the mode requires
    encryption and the raw buffer begins with the protocol name, when the
    bytes read do not begin with the protocol name, and when the hash
    read is not the one of the IO.  Else the 48 bytes are read, the IO
    takes the three extension flags, and the state is AwaitingPeerId;
    our handshake is written through the encrypt filter when it had not
    been sent, and the session fails when it has to be written and the
    mediator does not know the torrent. *)
Theorem read_handshake_outgoing (w : World) :
  io_is_incoming (io w) = false ->
  done_result (hs w) = None ->
  48 <= Z.of_nat (length (io_inbuf (io w))) ->
  let p := pending cr w in
  let name := firstn 20 p in
  let reserved := firstn 8 (skipn 20 p) in
  let hash := firstn 20 (skipn 28 p) in
  let r := read_handshake cr med w in
  let w' := snd r in
  (encryption_mode_ (hs w) = TR_ENCRYPTION_REQUIRED ->
   starts_with (io_inbuf (io w)) HandshakeName = true -> failed w') /\
  (name <> HandshakeName \/ hash <> io_torrent_hash (io w) -> failed w') /\
  (encryption_mode_ (hs w) <> TR_ENCRYPTION_REQUIRED \/
   starts_with (io_inbuf (io w)) HandshakeName = false ->
   name = HandshakeName -> hash = io_torrent_hash (io w) ->
   io_dht (io w') = HANDSHAKE_HAS_DHT reserved /\
   io_ltep (io w') = HANDSHAKE_HAS_LTEP reserved /\
   io_fext (io w') = HANDSHAKE_HAS_FASTEXT reserved /\
   pending cr w' = skipn 48 p /\
   io_torrent_hash (io w') = io_torrent_hash (io w) /\
   (have_sent_bittorrent_handshake_ (hs w) = true ->
      fst r = READ_NOW /\ state_ (hs w') = AwaitingPeerId /\
      done_result (hs w') = None /\
      io_outbuf (io w') = io_outbuf (io w)) /\
   (have_sent_bittorrent_handshake_ (hs w) = false ->
      match torrent_info med (io_torrent_hash (io w)) with
      | None => failed w' /\ io_outbuf (io w') = io_outbuf (io w)
      | Some info =>
          fst r = READ_NOW /\ state_ (hs w') = AwaitingPeerId /\
          done_result (hs w') = None /\
          have_sent_bittorrent_handshake_ (hs w') = true /\
          io_outbuf (io w') =
            io_outbuf (io w) ++
            filter_crypt cr (io_encrypt (io w))
              (handshake_message (allows_dht med) (io_torrent_hash (io w))
                 (client_peer_id info))
      end)).
Proof.
  intros Hinc Hd Hsz.
  destruct w as [h i u]. cbn [hs io] in *.
  assert (Hn : (48 <= length (io_inbuf i))%nat) by lia.
  unfold pending. cbn [io io_inbuf io_decrypt]. cbv zeta.
  rewrite !filter_crypt_skipn, !filter_crypt_firstn.
  unfold read_handshake, failed. hs_step.
  rewrite size_ok by (unfold IncomingHandshakeLen; lia). hs_step.
  rewrite Hinc. rewrite andb_false_r.
  destruct (starts_with (io_inbuf i) HandshakeName &&
            mode_eqb (encryption_mode_ h) TR_ENCRYPTION_REQUIRED) eqn:Eg;
    hs_step.
  { apply andb_true_iff in Eg. destruct Eg as [Es Em].
    apply mode_eqb_eq in Em. rewrite Hd. hs_simpl.
    split; [reflexivity|]. split; [reflexivity|].
    intros [X|X]; [contradiction|congruence]. }
  assert (Hg : encryption_mode_ h = TR_ENCRYPTION_REQUIRED ->
               starts_with (io_inbuf i) HandshakeName = true -> False).
  { intros Em Es. rewrite Es in Eg. apply mode_eqb_eq in Em.
    rewrite Em in Eg. discriminate Eg. }
  hs_norm.
  set (name := filter_crypt cr (io_decrypt i) (firstn 20 (io_inbuf i))).
  destruct (bytes_eqb name HandshakeName) eqn:En; hs_step.
  2: { apply bytes_eqb_neq in En. rewrite Hd. hs_simpl.
       split; [intros; exfalso; auto|]. split; [reflexivity|].
       intros _ X. contradiction. }
  apply bytes_eqb_eq in En. hs_norm.
  set (hash := filter_crypt cr (filter_advance (io_decrypt i) 28)
                 (firstn 20 (skipn 28 (io_inbuf i)))).
  set (reserved := filter_crypt cr (filter_advance (io_decrypt i) 20)
                     (firstn 8 (skipn 20 (io_inbuf i)))).
  destruct (bytes_eqb (io_torrent_hash i) hash) eqn:Eh; hs_step.
  2: { apply bytes_eqb_neq in Eh. rewrite Hd. hs_simpl.
       split; [intros; exfalso; auto|]. split; [reflexivity|].
       intros _ _ X. congruence. }
  apply bytes_eqb_eq in Eh.
  split; [intros; exfalso; auto|].
  split; [intros [X|X]; [contradiction|congruence]|].
  intros _ _ _.
  destruct (have_sent_bittorrent_handshake_ h) eqn:Hs; hs_step.
  - repeat split; try discriminate. exact Hd.
  - unfold build_handshake_message at 1. hs_simpl.
    destruct (torrent_info med (io_torrent_hash i)) as [info|] eqn:Ei.
    + rewrite (build_handshake_message_known med _ _ info)
        by (hs_simpl; exact Ei).
      hs_step. rewrite ?Hd.
      repeat split; intros; first [discriminate|assumption|reflexivity].
    + rewrite build_handshake_message_unknown by (hs_simpl; exact Ei).
      hs_step. rewrite Hd. hs_simpl.
      repeat split; intros; first [discriminate|assumption|reflexivity].
Qed.

End ReadHandshake.

(** ** The encrypted handshake *)

Section Resync.
Context (cr : Crypto) (med : Mediator).

(** X5.  [read_vc] finds ENCRYPT(VC) behind a PadB of at most 511 bytes:
    the needle is the keystream of the responder's key from position 0,
    the pad is dropped, the decrypt filter is keyed and has gone over the
    eight bytes of the needle, and the state is AwaitingCryptoSelect.  On
    an outgoing session the bytes then left to read are the responder's
    encrypted stream after VC, deciphered. *)
Theorem read_vc_resynchronises (w : World) (pad rest : bytes) :
  let key := encrypt_key cr true (dh_ (hs w)) (io_torrent_hash (io w)) in
  let needle := crypt cr key 0 VC in
  io_inbuf (io w) = pad ++ needle ++ rest ->
  (length pad <= 511)%nat ->
  no_needle_before (length pad) needle (io_inbuf (io w)) ->
  let r := read_vc cr med w in
  fst r = READ_NOW /\
  state_ (hs (snd r)) = AwaitingCryptoSelect /\
  done_result (hs (snd r)) = done_result (hs w) /\
  io_inbuf (io (snd r)) = rest /\
  io_decrypt (io (snd r)) =
    Some {| cipher_key :=
              decrypt_key cr (io_is_incoming (io w)) (dh_ (hs w))
                (io_torrent_hash (io w));
            cipher_pos := 8 |} /\
  (io_is_incoming (io w) = false ->
   pending cr (snd r) = crypt cr key 8 rest /\
   crypt cr key 0 (needle ++ rest) = VC ++ pending cr (snd r)).
Proof.
  intros key needle Hbuf Hpad Hno. cbv zeta.
  unfold read_vc, bind, torrentHash, get_io, get_hs. fold key. fold needle.
  change (Z.to_nat PadbMaxlen) with 512%nat.
  rewrite (read_vc_scan_found cr med pad needle _ rest)
    by (try assumption; try lia; unfold needle; rewrite length_crypt;
        reflexivity).
  unfold pending. hs_simpl. repeat split.
  - rewrite H. reflexivity.
  - rewrite H. cbn [filter_crypt cipher_key cipher_pos].
    rewrite crypt_app. unfold needle at 1. rewrite crypt_involutive.
    unfold needle. rewrite length_crypt. reflexivity.
Qed.

(** X6.  [read_vc] with a PadB of exactly 512 bytes, the needle at none
    of the offsets 0 to 511: the loop has 512 rounds, each drops one byte,
    and the session completes with failure with the needle at the head of
    the buffer, in the state it was in. *)
Theorem read_vc_512_fails (w : World) (pad rest : bytes) :
  let key := encrypt_key cr true (dh_ (hs w)) (io_torrent_hash (io w)) in
  let needle := crypt cr key 0 VC in
  done_result (hs w) = None ->
  io_inbuf (io w) = pad ++ needle ++ rest ->
  length pad = 512%nat ->
  no_needle_before 512 needle (io_inbuf (io w)) ->
  failed (snd (read_vc cr med w)) /\
  state_ (hs (snd (read_vc cr med w))) = state_ (hs w) /\
  io_decrypt (io (snd (read_vc cr med w))) =
    filter_advance (io_decrypt (io w)) 512 /\
  starts_with (io_inbuf (io (snd (read_vc cr med w)))) needle = true.
Proof.
  intros key needle Hd Hbuf Hpad Hno.
  assert (Ln : length needle = 8%nat)
    by (unfold needle; rewrite length_crypt; reflexivity).
  unfold read_vc, bind, torrentHash, get_io, get_hs. fold key. fold needle.
  change (Z.to_nat PadbMaxlen) with 512%nat.
  rewrite read_vc_scan_exhausted.
  - unfold failed, done, after_read. hs_simpl. rewrite Hd. hs_simpl.
    repeat split. rewrite Hbuf, skipn_exact by exact Hpad.
    apply starts_with_app.
  - rewrite Hbuf, !length_app. lia.
  - exact Hno.
Qed.

(** X7.  A scan that does not find the needle and runs out of bytes
    before it runs out of rounds asks for more and keeps the tail that may
    begin the needle: [read_pad_a] leaves the last 19 bytes of the buffer,
    [read_vc] the last 7. *)
Theorem scans_keep_tail (w : World) :
  let buf := io_inbuf (io w) in
  let needle_a := sha1 cr (req1 ++ secret cr (dh_ (hs w))) in
  let needle_b :=
    crypt cr (encrypt_key cr true (dh_ (hs w)) (io_torrent_hash (io w))) 0
      VC in
  ((length buf <= 530)%nat ->
   no_needle_before (length buf - 19) needle_a buf ->
   read_pad_a cr med w = (READ_LATER, after_read (length buf - 19) w)) /\
  ((length buf <= 518)%nat ->
   no_needle_before (length buf - 7) needle_b buf ->
   read_vc cr med w = (READ_LATER, after_read (length buf - 7) w)).
Proof.
  cbv zeta. split; intros Hlen Hno.
  - unfold read_pad_a, bind, get_hs.
    change (Z.to_nat PadaMaxlen) with 512%nat.
    apply read_pad_a_scan_later; [lia|exact Hno].
  - unfold read_vc, bind, torrentHash, get_io, get_hs.
    change (Z.to_nat PadbMaxlen) with 512%nat.
    apply read_vc_scan_later; [lia|exact Hno].
Qed.

End Resync.

Section Ia.
Context (cr : Crypto) (med : Mediator).

(** The run of [read_ia] that replies. *)
Lemma read_ia_run (w : World) (info : tr_torrent_info) :
  ia_len_ (hs w) <= Z.of_nat (length (io_inbuf (io w))) ->
  torrent_info med (io_torrent_hash (io w)) = Some info ->
  let crypto_select :=
    getCryptoSelect (encryption_mode_ (hs w)) (crypto_provide_ (hs w)) in
  let key :=
    encrypt_key cr (io_is_incoming (io w)) (dh_ (hs w))
      (io_torrent_hash (io w)) in
  let reply :=
    VC ++ be32 crypto_select ++ be16 0 ++
    handshake_message (allows_dht med) (io_torrent_hash (io w))
      (client_peer_id info) in
  crypto_select <> 0 ->
  read_ia cr med w =
    (READ_NOW,
     {| hs := hs_with_state AwaitingPayloadStream
                (hs_with_have_sent true (hs w));
        io := io_with_out (io_outbuf (io w) ++ crypt cr key 0 reply)
                (Some {| cipher_key := key; cipher_pos := length reply |})
                (io w);
        utp_failed := utp_failed w |}).
Proof.
  intros Hsz Hinfo. cbv zeta.
  destruct w as [h i u]. cbn [hs io utp_failed] in *.
  pose proof (getCryptoSelect_cases (encryption_mode_ h) (crypto_provide_ h))
    as Hcs.
  unfold read_ia. hs_step.
  rewrite size_ok by exact Hsz. hs_step.
  remember (getCryptoSelect (encryption_mode_ h) (crypto_provide_ h)) as cs
    eqn:Ecs0.
  clear Ecs0. intros E.
  destruct (Z.eqb_spec cs 0) as [X|_]; [contradiction|]. hs_step.
  assert (Ecs : cs = 1 \/ cs = 2).
  { destruct Hcs as [X|[X|X]]; auto. contradiction. }
  unfold CryptoProvidePlaintext.
  destruct Ecs as [-> | ->]; cbn [Z.eqb Pos.eqb]; hs_step;
    rewrite (build_handshake_message_known med _ _ info)
      by (hs_simpl; exact Hinfo);
    hs_step; cbn [filter_crypt filter_advance cipher_key cipher_pos];
    rewrite <- ?app_assoc; reflexivity.
Qed.

(** X8.  [read_ia], with the initial payload at hand and the torrent
    known to the mediator.  It reads and decrypts nothing.  When
    [getCryptoSelect] finds nothing acceptable in the peer's
    [crypto_provide], the session fails and nothing is written.  Else the
    encrypt filter is keyed with the responder's key and one write carries
    ENCRYPT(VC, crypto_select, len(PadD) = 0) and, encrypted too whatever
    was selected, our handshake; the state is AwaitingPayloadStream. *)
Theorem read_ia_replies (w : World) (info : tr_torrent_info) :
  done_result (hs w) = None ->
  ia_len_ (hs w) <= Z.of_nat (length (io_inbuf (io w))) ->
  torrent_info med (io_torrent_hash (io w)) = Some info ->
  let crypto_select :=
    getCryptoSelect (encryption_mode_ (hs w)) (crypto_provide_ (hs w)) in
  let key :=
    encrypt_key cr (io_is_incoming (io w)) (dh_ (hs w))
      (io_torrent_hash (io w)) in
  let reply :=
    VC ++ be32 crypto_select ++ be16 0 ++
    handshake_message (allows_dht med) (io_torrent_hash (io w))
      (client_peer_id info) in
  let r := read_ia cr med w in
  let w' := snd r in
  io_inbuf (io w') = io_inbuf (io w) /\
  io_decrypt (io w') = io_decrypt (io w) /\
  (crypto_select = 0 ->
   failed w' /\ io_outbuf (io w') = io_outbuf (io w)) /\
  (crypto_select <> 0 ->
   fst r = READ_NOW /\
   state_ (hs w') = AwaitingPayloadStream /\
   done_result (hs w') = None /\
   have_sent_bittorrent_handshake_ (hs w') = true /\
   io_outbuf (io w') = io_outbuf (io w) ++ crypt cr key 0 reply /\
   io_encrypt (io w') =
     Some {| cipher_key := key; cipher_pos := length reply |}).
Proof.
  intros Hd Hsz Hinfo.
  destruct w as [h i u]. cbn [hs io] in *. cbv zeta.
  unfold read_ia, failed. hs_step.
  rewrite size_ok by exact Hsz. hs_step.
  pose proof (getCryptoSelect_cases (encryption_mode_ h) (crypto_provide_ h))
    as Hcs.
  remember (getCryptoSelect (encryption_mode_ h) (crypto_provide_ h)) as cs
    eqn:Ecs0.
  clear Ecs0.
  destruct (Z.eqb_spec cs 0) as [E|E]; hs_step.
  { rewrite Hd. hs_simpl. split; [reflexivity|]. split; [reflexivity|].
    split; [intros _; split; reflexivity | intros X; contradiction]. }
  assert (Ecs : cs = 1 \/ cs = 2).
  { destruct Hcs as [X|[X|X]]; auto. contradiction. }
  unfold CryptoProvidePlaintext.
  destruct Ecs as [-> | ->]; cbn [Z.eqb Pos.eqb]; hs_step;
    rewrite (build_handshake_message_known med _ _ info)
      by (hs_simpl; exact Hinfo);
    hs_step; cbn [filter_crypt filter_advance cipher_key cipher_pos];
    rewrite Hd; repeat split; intros; try discriminate.
  rewrite <- app_assoc. reflexivity.
Qed.

End Ia.

(** ** The error callback *)

Section OnError.
Context (cr : Crypto) (med : Mediator).

(** X9.  The error callback gives the session up, with every errno, when
    the state is neither AwaitingYb nor AwaitingVc, when the mode requires
    encryption, and when TCP is not allowed.  Outside AwaitingYb the
    callback is [done(false)] and nothing else. *)
Theorem on_error_gives_up (w : World) (errcode : Z) :
  done_result (hs w) = None ->
  (state_ (hs w) <> AwaitingYb /\ state_ (hs w) <> AwaitingVc) \/
  encryption_mode_ (hs w) = TR_ENCRYPTION_REQUIRED \/
  allows_tcp med = false ->
  failed (snd (on_error cr med errcode w)) /\
  (state_ (hs w) <> AwaitingYb ->
   snd (on_error cr med errcode w) = snd (done med false w)).
Proof.
  destruct w as [[s mo dh hr hsent pid cpv csv pc pd ia dr] i u].
  cbn [hs done_result state_ encryption_mode_]. intros -> Hc.
  unfold failed, on_error, send_plain_handshake, reconnect, done.
  destruct s; err_cases; bool_hyps;
    first
      [ solve [split;
               [reflexivity
               | intros Hne;
                 first [reflexivity | exfalso; apply Hne; reflexivity]]]
      | exfalso; destruct Hc as [[Hy Hv]|[Hm|Ht]];
        [ first [apply Hy; reflexivity | apply Hv; reflexivity]
        | subst mo; discriminate
        | congruence ] ].
Qed.

(** X10.  The error callback on a TCP session in AwaitingYb or
    AwaitingVc whose mode does not require encryption, TCP allowed.  When
    [reconnect] succeeds the session lives on: the plaintext handshake
    counts as sent, the state is AwaitingHandshake, and the peers marked
    are those marked before.
    When [reconnect] fails the session completes with failure, in the
    state it was in and with nothing written. *)
Theorem on_error_retries_in_the_clear (w : World) (errcode : Z)
  (rest : list bool) :
  done_result (hs w) = None ->
  state_ (hs w) = AwaitingYb \/ state_ (hs w) = AwaitingVc ->
  io_is_utp (io w) = false ->
  encryption_mode_ (hs w) <> TR_ENCRYPTION_REQUIRED ->
  allows_tcp med = true ->
  let w' := snd (on_error cr med errcode w) in
  (io_reconnects (io w) = true :: rest ->
   done_result (hs w') = None /\
   state_ (hs w') = AwaitingHandshake /\
   have_sent_bittorrent_handshake_ (hs w') = true /\
   io_reconnects (io w') = rest /\
   utp_failed w' = utp_failed w) /\
  (hd false (io_reconnects (io w)) = false ->
   failed w' /\ state_ (hs w') = state_ (hs w) /\
   io_outbuf (io w') = io_outbuf (io w)).
Proof.
  destruct w as [[s mo dh hr hsent pid cpv csv pc pd ia dr] i u].
  cbn [hs io done_result state_ encryption_mode_].
  intros -> Hst Hutp Hm Htcp. cbv zeta.
  assert (Em : mode_eqb mo TR_ENCRYPTION_REQUIRED = false).
  { apply not_true_is_false. intros X. apply mode_eqb_eq in X. auto. }
  unfold failed, on_error, send_plain_handshake, reconnect. hs_step.
  rewrite Hutp.
  destruct Hst as [-> | ->];
    repeat (err_norm; rewrite ?Em, ?Htcp; cbn [Z.eqb];
            try match goal with
                | |- context [match ?x with nil => _ | cons _ _ => _ end] =>
                    destruct x as [|[|] ?]
                | |- context [if ?c then _ else _] => destruct c eqn:?
                end);
    cbn [hd];
    (split; intros Hr;
     first [ discriminate
           | injection Hr as <-; repeat split; fail
           | repeat split; fail ]).
Qed.

End OnError.

(** ** What holds of every session

    Invariants of the sessions that the constructor makes and that bytes,
    callbacks and the timer work on. *)

(** The end of a run: [session_ok] of the world it leaves. *)
Ltac ok_leaf :=
  unfold session_ok; hs_simpl;
  cbn [incoming_state outgoing_state sent_state heard_state] in *;
  bool_hyps;
  repeat split; intros; try discriminate; try tauto; try congruence.

Section Invariants.
Context (cr : Crypto) (med : Mediator).
Variable crypto_provide : tr_encryption_mode -> Z.

Lemma session_ok_dispatch (w : World) :
  done_result (hs w) = None ->
  session_ok med w ->
  session_ok med (snd (dispatch cr med crypto_provide w)).
Proof.
  destruct w as [[s mo dh hr hsent pid cpv csv pc pd ia dr] i u].
  cbn [hs done_result]. intros ->. intros (D1 & D2 & Sa & Sc & _).
  hs_simpl. unfold dispatch. hs_step.
  destruct s; cbn [incoming_state outgoing_state sent_state heard_state] in *.
  - (* read_handshake *)
    unfold read_handshake. hs_cases; ok_leaf.
  - (* read_peer_id *)
    unfold read_peer_id. hs_step.
    destruct (Z.ltb_spec (Z.of_nat (length (io_inbuf i))) PeerIdLen)
      as [Hs|Hs]; unfold PeerIdLen in Hs; hs_step; [ok_leaf|].
    change (Z.to_nat PeerIdLen) with 20%nat.
    set (p := filter_crypt cr (io_decrypt i) (firstn 20 (io_inbuf i))).
    assert (Lp : length p = 20%nat)
      by (unfold p; rewrite length_filter_crypt, firstn_len; lia).
    destruct (torrent_info med (io_torrent_hash i)) as [info|] eqn:Ei.
    + destruct (bytes_eqb (client_peer_id info) p) eqn:Eb; ok_leaf.
      exists p. split; [reflexivity|]. split; [exact Lp|].
      rewrite (is_self_known med _ p _ Ei). congruence.
    + ok_leaf. exists p. split; [reflexivity|]. split; [exact Lp|].
      apply is_self_unknown. exact Ei.
  - unfold read_ya. hs_cases; ok_leaf.
  - (* read_pad_a *)
    match goal with |- context [read_pad_a cr med ?w] =>
      destruct (read_pad_a_shape cr med w) as (k & [E|[E|E]]); rewrite E
    end; unfold done, after_read; hs_simpl; ok_leaf.
  - unfold read_crypto_provide. hs_cases; ok_leaf.
  - unfold read_pad_c. hs_cases; ok_leaf.
  - unfold read_ia. hs_cases; ok_leaf.
  - (* read_payload_stream *)
    unfold read_payload_stream. hs_step.
    destruct (Z.ltb_spec (Z.of_nat (length (io_inbuf i))) HandshakeSize)
      as [Hs|Hs]; unfold HandshakeSize in Hs; hs_step; [ok_leaf|].
    unfold parse_handshake. hs_step.
    rewrite size_ok by (unfold HandshakeSize; lia). hs_step.
    destruct (bytes_eqb _ HandshakeName); hs_step; [|ok_leaf].
    hs_norm.
    set (hash := filter_crypt cr (filter_advance (io_decrypt i) 28)
                   (firstn 20 (skipn 28 (io_inbuf i)))).
    destruct (bytes_eqb hash zero_digest); hs_step; [ok_leaf|].
    destruct (bytes_eqb hash (io_torrent_hash i)) eqn:Eh; hs_step;
      [|ok_leaf].
    apply bytes_eqb_eq in Eh. hs_norm.
    set (p := filter_crypt cr (filter_advance (io_decrypt i) 48)
                (firstn 20 (skipn 48 (io_inbuf i)))).
    assert (Lp : length p = 20%nat).
    { unfold p. rewrite length_filter_crypt, firstn_len; [reflexivity|].
      rewrite length_skipn. lia. }
    destruct (torrent_info med hash) as [info|] eqn:Ei; hs_step.
    + destruct (bytes_eqb (client_peer_id info) p) eqn:Eb; hs_step; ok_leaf.
      exists p. split; [reflexivity|]. split; [exact Lp|].
      rewrite <- Eh. rewrite (is_self_known med _ p _ Ei). congruence.
    + ok_leaf. exists p. split; [reflexivity|]. split; [exact Lp|].
      rewrite <- Eh. apply is_self_unknown. exact Ei.
  - unfold read_yb. hs_cases; ok_leaf.
  - (* read_vc *)
    match goal with |- context [read_vc cr med ?w] =>
      destruct (read_vc_shape cr med w) as (k & [E|[E|E]]); rewrite E
    end; unfold done, after_read; hs_simpl; ok_leaf.
  - unfold read_crypto_select. hs_cases; ok_leaf.
  - unfold read_pad_d. hs_cases; ok_leaf.
Qed.

Lemma session_ok_on_error (errcode : Z) (w : World) :
  done_result (hs w) = None ->
  session_ok med w ->
  session_ok med (snd (on_error cr med errcode w)).
Proof.
  destruct w as [[s mo dh hr hsent pid cpv csv pc pd ia dr] i u].
  cbn [hs done_result]. intros ->. intros (D1 & D2 & Sa & Sc & _).
  hs_simpl. unfold on_error, send_plain_handshake, reconnect.
  destruct s; cbn [incoming_state outgoing_state sent_state heard_state] in *;
    err_cases; ok_leaf.
Qed.

Lemma session_ok_done (b : bool) (w : World) :
  done_result (hs w) = None ->
  session_ok med w ->
  session_ok med (snd (done med false w)).
Proof.
  destruct w as [h i u]. cbn [hs]. intros Hd (D1 & D2 & Sa & Sc & _).
  unfold done. cbn [hs]. rewrite Hd. ok_leaf.
Qed.

Lemma session_ok_new (i : tr_peerIo) (mode : tr_encryption_mode)
  (members : tr_handshake) (marked : list (bytes * Z)) :
  session_ok med (new_handshake cr med i mode members marked).
Proof.
  unfold new_handshake, send_ya, send_plain_handshake.
  destruct (io_is_incoming i) eqn:Hi; [|destruct (negb _)]; hs_step;
    ok_leaf.
Qed.

Lemma reachable_session_ok (w : World) :
  reachable cr med crypto_provide w -> session_ok med w.
Proof.
  induction 1 as [i mode members marked | w w' _ IH Hstep].
  - apply session_ok_new.
  - destruct Hstep as [bs Hd | Hd | errcode Hd | Hd].
    + destruct w as [h i u]. destruct IH as (D1 & D2 & Sa & Sc & _).
      unfold receive. ok_leaf.
    + apply session_ok_dispatch; assumption.
    + apply session_ok_on_error; assumption.
    + apply (session_ok_done false); assumption.
Qed.

(** X11.  The two halves of the state machine keep to their directions:
    a session that the constructor, the read callback, the error callback
    and the timer have brought to a state of the outgoing half
    (AwaitingYb, AwaitingVc, AwaitingCryptoSelect, AwaitingPadD) is
    outgoing, and one in a state of the incoming half (AwaitingYa,
    AwaitingPadA, AwaitingCryptoProvide, AwaitingPadC, AwaitingIa,
    AwaitingPayloadStream) is incoming. *)
Theorem reachable_direction (w : World) :
  reachable cr med crypto_provide w ->
  (incoming_state (state_ (hs w)) = true -> io_is_incoming (io w) = true) /\
  (outgoing_state (state_ (hs w)) = true -> io_is_incoming (io w) = false).
Proof.
  intros H. destruct (reachable_session_ok w H) as (D1 & D2 & _).
  split; assumption.
Qed.

(** X12.  What [done(true)] stands for.  A session that has completed
    with success has sent its handshake, has heard the peer, and holds a
    peer-id of 20 bytes that is not the client's own for the torrent of
    the IO. *)
Theorem success_means (w : World) :
  reachable cr med crypto_provide w ->
  done_result (hs w) = Some true ->
  have_sent_bittorrent_handshake_ (hs w) = true /\
  have_read_anything_from_peer_ (hs w) = true /\
  exists p, peer_id_ (hs w) = Some p /\ length p = 20%nat /\
            ~ is_self med (io_torrent_hash (io w)) p.
Proof.
  intros H Hd. destruct (reachable_session_ok w H) as (_ & _ & _ & _ & S).
  exact (S Hd).
Qed.

End Invariants.

(** The end of a run: [required_ok] of the world it leaves. *)
Ltac req_leaf :=
  unfold required_ok; hs_simpl;
  cbn [decrypting_state encrypting_state filter_advance] in *;
  bool_hyps;
  repeat split; intros; rewrite ?filter_advance_none in *;
  try discriminate; try tauto; try congruence.

Section Required.
Context (cr : Crypto) (med : Mediator).
Variable crypto_provide : tr_encryption_mode -> Z.

Lemma required_ok_dispatch (w : World) :
  done_result (hs w) = None ->
  session_ok med w ->
  required_ok w ->
  required_ok (snd (dispatch cr med crypto_provide w)).
Proof.
  destruct w as [[s mo dh hr hsent pid cpv csv pc pd ia dr] i u].
  cbn [hs done_result]. intros ->. intros (D1 & _) (Hm & K & _).
  hs_simpl. subst mo. destruct (K eq_refl) as (Kd & Ke & Ko). clear K.
  unfold dispatch. hs_step.
  destruct s; cbn [decrypting_state encrypting_state incoming_state] in *.
  - (* read_handshake *)
    unfold read_handshake. hs_step.
    destruct (Z.ltb_spec (Z.of_nat (length (io_inbuf i)))
                IncomingHandshakeLen) as [Hs|Hs];
      unfold IncomingHandshakeLen in Hs; hs_step; [req_leaf|].
    rewrite starts_with_firstn by (cbn; lia).
    change (length HandshakeName) with 20%nat.
    cbn [mode_eqb]. rewrite andb_true_r.
    destruct (bytes_eqb (firstn 20 (io_inbuf i)) HandshakeName) eqn:En;
      hs_step; [req_leaf|].
    destruct (io_is_incoming i) eqn:Hi; hs_step; [req_leaf|].
    hs_norm.
    destruct (io_decrypt i) as [c|] eqn:Hdec.
    2: { cbn [filter_crypt]. rewrite En. hs_step. req_leaf. }
    assert (He : io_encrypt i <> None) by (apply Ko; congruence).
    hs_cases; req_leaf.
  - unfold read_peer_id. hs_cases; req_leaf.
  - unfold read_ya. hs_cases; req_leaf.
  - match goal with |- context [read_pad_a cr med ?w] =>
      destruct (read_pad_a_shape cr med w) as (k & [E|[E|E]]); rewrite E
    end; unfold done, after_read; hs_simpl; req_leaf.
  - unfold read_crypto_provide. hs_cases; req_leaf.
  - unfold read_pad_c. hs_cases; req_leaf.
  - unfold read_ia. hs_cases; req_leaf.
  - unfold read_payload_stream, parse_handshake. hs_cases; req_leaf.
  - unfold read_yb. hs_cases; req_leaf.
  - match goal with |- context [read_vc cr med ?w] =>
      destruct (read_vc_shape cr med w) as (k & [E|[E|E]]); rewrite E
    end; unfold done, after_read; hs_simpl; req_leaf.
  - unfold read_crypto_select. hs_cases; req_leaf.
  - unfold read_pad_d. hs_cases; req_leaf.
Qed.

Lemma required_ok_on_error (errcode : Z) (w : World) :
  done_result (hs w) = None ->
  required_ok w ->
  required_ok (snd (on_error cr med errcode w)).
Proof.
  destruct w as [[s mo dh hr hsent pid cpv csv pc pd ia dr] i u].
  cbn [hs done_result]. intros ->. intros (Hm & _).
  hs_simpl. subst mo. unfold on_error, send_plain_handshake, reconnect.
  destruct s; err_cases; req_leaf.
Qed.

Lemma required_ok_new (i : tr_peerIo) (members : tr_handshake)
  (marked : list (bytes * Z)) :
  io_decrypt i = None -> io_encrypt i = None ->
  required_ok (new_handshake cr med i TR_ENCRYPTION_REQUIRED members marked).
Proof.
  intros Hd He. unfold new_handshake, send_ya.
  destruct (io_is_incoming i) eqn:Hi; hs_step; rewrite ?Hd, ?He; req_leaf.
Qed.

Lemma reachable_from_new (i : tr_peerIo) (mode : tr_encryption_mode)
  (members : tr_handshake) (marked : list (bytes * Z)) (w : World) :
  reachable_from cr med crypto_provide
    (new_handshake cr med i mode members marked) w ->
  reachable cr med crypto_provide w.
Proof.
  induction 1 as [|w w' _ IH Hs]; [apply reachable_new|].
  exact (reachable_step cr med crypto_provide w w' IH Hs).
Qed.

Lemma reachable_required_ok (i : tr_peerIo) (members : tr_handshake)
  (marked : list (bytes * Z)) (w : World) :
  io_decrypt i = None -> io_encrypt i = None ->
  reachable_from cr med crypto_provide
    (new_handshake cr med i TR_ENCRYPTION_REQUIRED members marked) w ->
  required_ok w.
Proof.
  intros Hd He. induction 1 as [|w w' Hr IH Hstep].
  - apply required_ok_new; assumption.
  - pose proof (reachable_session_ok cr med crypto_provide w
                  (reachable_from_new _ _ _ _ _ Hr)) as Hok.
    destruct Hstep as [bs Hn | Hn | errcode Hn | Hn].
    + destruct w as [h io0 u]. destruct IH as (Hm & K & _).
      unfold receive. cbn [hs] in *. specialize (K Hn).
      destruct K as (Kd & Ke & Ko). req_leaf.
    + apply required_ok_dispatch; assumption.
    + apply required_ok_on_error; assumption.
    + destruct w as [h io0 u]. destruct IH as (Hm & _).
      unfold done. cbn [hs] in *. rewrite Hn. req_leaf.
Qed.

(** X13.  No success in the clear when encryption is required.  A
    session constructed with [TR_ENCRYPTION_REQUIRED] on an IO without
    filters, and brought to success by whatever bytes, errors and
    callbacks, has both directions of its IO keyed. *)
Theorem required_means_encrypted (i : tr_peerIo) (members : tr_handshake)
  (marked : list (bytes * Z)) (w : World) :
  io_decrypt i = None -> io_encrypt i = None ->
  reachable_from cr med crypto_provide
    (new_handshake cr med i TR_ENCRYPTION_REQUIRED members marked) w ->
  done_result (hs w) = Some true ->
  io_decrypt (io w) <> None /\ io_encrypt (io w) <> None.
Proof.
  intros Hd He Hr Hs.
  destruct (reachable_required_ok i members marked w Hd He Hr) as (_ & _ & K).
  exact (K Hs).
Qed.

End Required.

(** The end of a run: [moves_on] from the world it began with. *)
Ltac on_leaf :=
  unfold moves_on; hs_simpl; cbn [rank dh_private_key];
  repeat split; try lia; try reflexivity.

Section Moves.
Context (cr : Crypto) (med : Mediator).
Variable crypto_provide : tr_encryption_mode -> Z.

Lemma moves_on_dispatch (w : World) :
  moves_on w (snd (dispatch cr med crypto_provide w)).
Proof.
  destruct w as [[s mo dh hr hsent pid cpv csv pc pd ia dr] i u].
  unfold dispatch. hs_step.
  destruct s.
  4: { match goal with |- context [read_pad_a cr med ?w] =>
         destruct (read_pad_a_shape cr med w) as (k & [E|[E|E]]); rewrite E
       end; unfold done, after_read; hs_simpl;
       try destruct dr; on_leaf. }
  9: { match goal with |- context [read_vc cr med ?w] =>
         destruct (read_vc_shape cr med w) as (k & [E|[E|E]]); rewrite E
       end; unfold done, after_read; hs_simpl;
       try destruct dr; on_leaf. }
  all: unfold read_handshake, read_peer_id, read_ya, read_crypto_provide,
         read_pad_c, read_ia, read_payload_stream, read_yb,
         read_crypto_select, read_pad_d, parse_handshake;
       hs_cases; on_leaf.
Qed.

Lemma moves_on_on_error (errcode : Z) (w : World) :
  moves_on w (snd (on_error cr med errcode w)).
Proof.
  destruct w as [[s mo dh hr hsent pid cpv csv pc pd ia dr] i u].
  unfold on_error, send_plain_handshake, reconnect.
  destruct s, dr as [[|]|]; err_cases; on_leaf.
Qed.

(** X14.  A step never takes a session back.  Whatever arrives and
    whichever callback runs, the state stays or moves on in the order
    AwaitingYb, AwaitingVc, AwaitingCryptoSelect, AwaitingPadD,
    AwaitingHandshake, AwaitingYa, AwaitingPadA, AwaitingCryptoProvide,
    AwaitingPadC, AwaitingIa, AwaitingPayloadStream, AwaitingPeerId; and
    the mode, the private key, the direction and the address of the peer
    are kept. *)
Theorem step_never_back (w w' : World) :
  step cr med crypto_provide w w' ->
  (rank (state_ (hs w)) <= rank (state_ (hs w')))%nat /\
  encryption_mode_ (hs w') = encryption_mode_ (hs w) /\
  dh_private_key (dh_ (hs w')) = dh_private_key (dh_ (hs w)) /\
  io_is_incoming (io w') = io_is_incoming (io w) /\
  io_address (io w') = io_address (io w).
Proof.
  intros [bs Hd | Hd | errcode Hd | Hd].
  - unfold receive. hs_simpl. repeat split. lia.
  - apply moves_on_dispatch.
  - apply moves_on_on_error.
  - unfold done. rewrite Hd. hs_simpl. repeat split. lia.
Qed.

End Moves.

Section Loop.
Context (cr : Crypto) (med : Mediator).
Variable crypto_provide : tr_encryption_mode -> Z.

Lemma ready_for_more_short (w : World) :
  fst (ready_for_more READ_NOW w) = false -> short_of w.
Proof.
  destruct w as [h i u]. unfold ready_for_more, short_of. hs_step.
  destruct (state_ h); hs_step; try discriminate; intros H;
    apply Z.leb_gt in H; auto.
Qed.

Lemma can_read_loop_fuel (n : nat) : forall m w,
  (12 <= rank (state_ (hs w)) + n)%nat ->
  (12 <= rank (state_ (hs w)) + m)%nat ->
  can_read_loop cr med crypto_provide n w =
  can_read_loop cr med crypto_provide m w.
Proof.
  induction n as [|n IH]; intros m w Hn Hm.
  { pose proof (rank_bound (state_ (hs w))). lia. }
  destruct m as [|m].
  { pose proof (rank_bound (state_ (hs w))). lia. }
  cbn [can_read_loop]. unfold bind.
  pose proof (dispatch_advances cr med crypto_provide w) as Hadv.
  destruct (dispatch cr med crypto_provide w) as [r w1].
  cbn [fst snd] in Hadv.
  pose proof (ready_for_more_world r w1) as [Hw Hr].
  destruct (ready_for_more r w1) as [more w2]. cbn [fst snd] in Hw, Hr.
  subst w2. destruct more; [|reflexivity].
  destruct (Hadv (Hr eq_refl)) as [Hlt _]. apply IH; lia.
Qed.

Lemma can_read_loop_now (fuel : nat) : forall w,
  fst (can_read_loop cr med crypto_provide fuel w) = Some READ_NOW ->
  short_of (snd (can_read_loop cr med crypto_provide fuel w)).
Proof.
  induction fuel as [|fuel IH]; intros w; [discriminate|].
  cbn [can_read_loop]. unfold bind.
  destruct (dispatch cr med crypto_provide w) as [r w1].
  pose proof (ready_for_more_world r w1) as [Hw _].
  pose proof (ready_for_more_short w1) as Hs.
  destruct (ready_for_more r w1) as [more w2] eqn:E. cbn [fst snd] in Hw.
  subst w2. destruct more; [apply IH|].
  cbn [fst snd]. intros X. injection X as ->. apply Hs. rewrite E.
  reflexivity.
Qed.

(** X15.  The loop of [can_read] ends, on every session: twelve rounds
    are enough and more rounds change nothing.  It does not take the
    session back, and when it ends on READ_NOW the buffer is short of the
    PadC, the PadD or the initial payload that the state waits for. *)
Theorem can_read_ends (w : World) :
  exists r,
    fst (can_read cr med crypto_provide w) = Some r /\
    (forall fuel, (12 <= fuel)%nat ->
       can_read_loop cr med crypto_provide fuel w =
       can_read cr med crypto_provide w) /\
    (r = READ_NOW -> short_of (snd (can_read cr med crypto_provide w))) /\
    (rank (state_ (hs w)) <=
     rank (state_ (hs (snd (can_read cr med crypto_provide w)))))%nat.
Proof.
  destruct (can_read_total cr med crypto_provide w) as [r Hr].
  exists r. split; [exact Hr|]. split; [|split].
  - intros fuel Hf. unfold can_read. apply can_read_loop_fuel; lia.
  - intros ->. apply can_read_loop_now. exact Hr.
  - unfold can_read. clear Hr. generalize 12%nat. intros n. revert w.
    induction n as [|n IH]; intros w; [cbn; lia|].
    cbn [can_read_loop]. unfold bind.
    pose proof (moves_on_dispatch cr med crypto_provide w) as [Hm _].
    destruct (dispatch cr med crypto_provide w) as [r1 w1].
    cbn [snd] in Hm.
    pose proof (ready_for_more_world r1 w1) as [Hw _].
    destruct (ready_for_more r1 w1) as [more w2]. cbn [snd] in Hw.
    subst w2. destruct more; [|exact Hm].
    etransitivity; [exact Hm|]. apply IH.
Qed.

End Loop.

Section Wait.
Context (cr : Crypto) (med : Mediator).
Variable crypto_provide : tr_encryption_mode -> Z.

(** X16.  A handler that asks for more bytes has left the session alone.
    When a round of the read callback answers READ_LATER and the session
    has not completed, the two scans have dropped at most 512 bytes of
    padding and touched nothing else, and every other handler has left
    handshake, IO and buffer as they were. *)
Theorem wait_leaves_session (w : World) :
  done_result (hs w) = None ->
  fst (dispatch cr med crypto_provide w) = READ_LATER ->
  done_result (hs (snd (dispatch cr med crypto_provide w))) = None ->
  (exists k, (k <= 512)%nat /\
     snd (dispatch cr med crypto_provide w) = after_read k w) /\
  (state_ (hs w) <> AwaitingPadA -> state_ (hs w) <> AwaitingVc ->
   snd (dispatch cr med crypto_provide w) = w).
Proof.
  destruct w as [[s mo dh hr hsent pid cpv csv pc pd ia dr] i u].
  cbn [hs done_result]. intros ->.
  unfold dispatch. hs_step.
  destruct s.
  4: { unfold read_pad_a, bind, get_hs. cbn [hs dh_].
       match goal with |- context [read_pad_a_scan cr med ?n ?x ?w] =>
         destruct (read_pad_a_scan_shape cr med x n w)
           as (k & Hk & [E|[E|E]]); rewrite E
       end; unfold done; hs_simpl; intros; try discriminate.
       split; [|intros X; contradiction].
       exists k. split; [exact Hk|reflexivity]. }
  9: { unfold read_vc, bind, get_hs, torrentHash, get_io. cbn [hs io dh_].
       match goal with |- context [read_vc_scan cr med ?n ?x ?y ?w] =>
         destruct (read_vc_scan_shape cr med x y n w)
           as (k & Hk & [E|[E|E]]); rewrite E
       end; unfold done; hs_simpl; intros; try discriminate.
       split; [|intros _ X; contradiction].
       exists k. split; [exact Hk|reflexivity]. }
  all: unfold read_handshake, read_peer_id, read_ya, read_crypto_provide,
         read_pad_c, read_ia, read_payload_stream, read_yb,
         read_crypto_select, read_pad_d, parse_handshake;
       hs_cases; intros; try discriminate;
       (split; [exists 0%nat; split; [lia|]; rewrite after_read_0;
                reflexivity
               | intros; reflexivity]).
Qed.

End Wait.

(** ** Two sessions

    The read callback of each side runs on what the other side wrote. *)

Section Rounds.
Context (cr : Crypto) (med : Mediator).
Variable crypto_provide : tr_encryption_mode -> Z.

(** One round of the loop of [can_read]. *)
Lemma can_read_loop_go (n : nat) (w w1 : World) :
  dispatch cr med crypto_provide w = (READ_NOW, w1) ->
  fst (ready_for_more READ_NOW w1) = true ->
  can_read_loop cr med crypto_provide (S n) w =
  can_read_loop cr med crypto_provide n w1.
Proof.
  intros Hd Hr. cbn [can_read_loop]. unfold bind. rewrite Hd.
  pose proof (ready_for_more_world READ_NOW w1) as [Hw _].
  destruct (ready_for_more READ_NOW w1) as [more w2].
  cbn [fst snd] in Hw, Hr. subst. reflexivity.
Qed.

Lemma can_read_loop_stop (n : nat) (w w1 : World) (r : ReadState) :
  dispatch cr med crypto_provide w = (r, w1) ->
  r <> READ_NOW ->
  can_read_loop cr med crypto_provide (S n) w = (Some r, w1).
Proof.
  intros Hd Hr. cbn [can_read_loop]. unfold bind. rewrite Hd.
  destruct r; try contradiction; reflexivity.
Qed.

End Rounds.

Section Plain.
Context (cr : Crypto) (medA medB : Mediator).
Variables cpA cpB : tr_encryption_mode -> Z.

(** X17.  Two sessions in the clear.  An initiator that prefers plaintext
    and a responder that does not require encryption, both hosting the
    torrent, with peer-ids of their own, on IOs that have carried nothing.
    The responder reads what the initiator's constructor wrote, the
    initiator reads what the responder wrote: both complete with success,
    each holds the other's peer-id and extension flags, the responder's IO
    has taken the torrent hash, no byte is left unread, and the initiator
    has written nothing more. *)
Theorem plaintext_loopback (ioA ioB : tr_peerIo)
  (membersA membersB : tr_handshake) (modeB : tr_encryption_mode)
  (markedA markedB : list (bytes * Z)) (infoA infoB : tr_torrent_info) :
  let hash := io_torrent_hash ioA in
  io_is_incoming ioA = false -> io_is_incoming ioB = true ->
  fresh_io ioA -> fresh_io ioB ->
  modeB <> TR_ENCRYPTION_REQUIRED ->
  have_sent_bittorrent_handshake_ membersB = false ->
  torrent_info medA hash = Some infoA ->
  torrent_info medB hash = Some infoB ->
  length hash = 20%nat ->
  length (client_peer_id infoA) = 20%nat ->
  length (client_peer_id infoB) = 20%nat ->
  client_peer_id infoA <> client_peer_id infoB ->
  let a0 := new_handshake cr medA ioA TR_CLEAR_PREFERRED membersA markedA in
  let b0 := new_handshake cr medB ioB modeB membersB markedB in
  let b1 := snd (can_read cr medB cpB (receive (io_outbuf (io a0)) b0)) in
  let a1 := snd (can_read cr medA cpA (receive (io_outbuf (io b1)) a0)) in
  (done_result (hs b1) = Some true /\
   peer_id_ (hs b1) = Some (client_peer_id infoA) /\
   io_torrent_hash (io b1) = hash /\
   io_dht (io b1) = allows_dht medA /\
   io_ltep (io b1) = true /\ io_fext (io b1) = true /\
   io_inbuf (io b1) = []) /\
  (done_result (hs a1) = Some true /\
   peer_id_ (hs a1) = Some (client_peer_id infoB) /\
   io_dht (io a1) = allows_dht medB /\
   io_ltep (io a1) = true /\ io_fext (io a1) = true /\
   io_inbuf (io a1) = [] /\
   io_outbuf (io a1) = io_outbuf (io a0)).
Proof.
  intros hash HincA HincB (HinA & HoutA & HdecA & HencA)
    (HinB & HoutB & HdecB & HencB) Hmode HsentB HinfoA HinfoB Lh LpA LpB Hne.
  destruct ioA as [incA utpA addrA hashA inA outA decA encA dhtA ltepA fextA
                   recA].
  destruct ioB as [incB utpB addrB hashB inB outB decB encB dhtB ltepB fextB
                   recB].
  cbn [io_is_incoming io_inbuf io_outbuf io_decrypt io_encrypt
       io_torrent_hash] in *.
  subst hash incA incB inA inB outA outB decA decB encA encB.
  assert (Em : mode_eqb modeB TR_ENCRYPTION_REQUIRED = false).
  { apply not_true_is_false. intros X. apply mode_eqb_eq in X. auto. }
  pose proof (handshake_message_parts (allows_dht medA) hashA
                (client_peer_id infoA) [] Lh LpA) as PA.
  pose proof (handshake_message_parts (allows_dht medB) hashA
                (client_peer_id infoB) [] Lh LpB) as PB.
  cbv zeta in PA, PB. rewrite !app_nil_r in PA, PB.
  pose proof (length_handshake_message (allows_dht medA) hashA
                (client_peer_id infoA) Lh LpA) as LA.
  pose proof (length_handshake_message (allows_dht medB) hashA
                (client_peer_id infoB) Lh LpB) as LB.
  set (msgA := handshake_message (allows_dht medA) hashA
                 (client_peer_id infoA)) in *.
  set (msgB := handshake_message (allows_dht medB) hashA
                 (client_peer_id infoB)) in *.
  destruct PA as (PA1 & PA2 & PA3 & PA4 & PA5 & PA6).
  destruct PB as (PB1 & PB2 & PB3 & PB4 & PB5 & PB6).
  destruct (flags_have (allows_dht medA)) as (FA1 & FA2 & FA3).
  destruct (flags_have (allows_dht medB)) as (FB1 & FB2 & FB3).
  cbv zeta. unfold new_handshake. cbn [io_is_incoming mode_eqb negb].
  unfold send_plain_handshake. hs_step.
  rewrite !(build_handshake_message_known medA _ _ infoA)
    by (hs_simpl; exact HinfoA).
  hs_step. cbn [filter_crypt filter_advance app]. fold msgA.
  unfold receive. hs_step. cbn [app].
  (* the responder reads the handshake *)
  assert (S48 : (Z.of_nat (length msgA) <? IncomingHandshakeLen) = false)
    by (rewrite LA; reflexivity).
  assert (SW : starts_with msgA HandshakeName = true).
  { rewrite starts_with_firstn by (rewrite LA; cbn; lia).
    change (length HandshakeName) with 20%nat.
    rewrite PA1. apply bytes_eqb_refl. }
  unfold can_read.
  erewrite (can_read_loop_go cr medB cpB).
  2: { unfold dispatch, read_handshake.
       hs_exec ltac:(rewrite ?S48, ?SW, ?Em, ?PA1, ?PA2, ?PA3, ?PA5,
                       ?bytes_eqb_refl, ?HinfoB, ?HsentB, ?FA1, ?FA2, ?FA3).
       rewrite (build_handshake_message_known medB _ _ infoB)
         by (hs_simpl; exact HinfoB).
       hs_exec idtac. fold msgB. reflexivity. }
  2: { unfold ready_for_more. hs_step. reflexivity. }
  assert (NEB : bytes_eqb (client_peer_id infoB) (client_peer_id infoA)
                = false) by (apply bytes_eqb_neq; congruence).
  assert (NEA : bytes_eqb (client_peer_id infoA) (client_peer_id infoB)
                = false) by (apply bytes_eqb_neq; congruence).
  assert (F20A : firstn 20 (client_peer_id infoA) = client_peer_id infoA)
    by (rewrite <- LpA; apply firstn_all).
  assert (F20B : firstn 20 (client_peer_id infoB) = client_peer_id infoB)
    by (rewrite <- LpB; apply firstn_all).
  assert (S20A : skipn 20 (client_peer_id infoA) = [])
    by (rewrite <- LpA; apply skipn_all).
  assert (S20B : skipn 20 (client_peer_id infoB) = [])
    by (rewrite <- LpB; apply skipn_all).
  assert (Z20A : (Z.of_nat (length (client_peer_id infoA)) <? PeerIdLen)
                 = false) by (rewrite LpA; reflexivity).
  assert (Z20B : (Z.of_nat (length (client_peer_id infoB)) <? PeerIdLen)
                 = false) by (rewrite LpB; reflexivity).
  erewrite (can_read_loop_stop cr medB cpB).
  2: { unfold dispatch, read_peer_id.
       hs_exec ltac:(rewrite ?Z20A, ?F20A, ?S20A, ?HinfoB, ?NEB).
       reflexivity. }
  2: { destruct (done_func medB true); discriminate. }
  hs_simpl. cbn [app].
  (* the initiator reads the reply *)
  assert (S48B : (Z.of_nat (length msgB) <? IncomingHandshakeLen) = false)
    by (rewrite LB; reflexivity).
  erewrite (can_read_loop_go cr medA cpA).
  2: { unfold dispatch, read_handshake.
       hs_exec ltac:(rewrite ?S48B, ?PB1, ?PB2, ?PB3, ?PB5, ?andb_false_r,
                       ?bytes_eqb_refl, ?FB1, ?FB2, ?FB3).
       reflexivity. }
  2: { unfold ready_for_more. hs_step. reflexivity. }
  erewrite (can_read_loop_stop cr medA cpA).
  2: { unfold dispatch, read_peer_id.
       hs_exec ltac:(rewrite ?Z20B, ?F20B, ?S20B, ?HinfoA, ?NEA).
       reflexivity. }
  2: { destruct (done_func medA true); discriminate. }
  hs_simpl. repeat split.
Qed.

End Plain.

Section Encrypted.
Context (cr : Crypto) (medA medB : Mediator).
Variables cpA cpB : tr_encryption_mode -> Z.

(** X18.  Two sessions, encrypted.  An initiator that does not prefer
    plaintext and a responder, both hosting the torrent, with peer-ids of
    their own, on IOs that have carried nothing; SHA-1 gives 20 bytes,
    public keys have 96 bytes and do not look like a plaintext handshake,
    and Diffie-Hellman gives both sides one secret.  The two are not both
    seeds, the responder accepts something of what the initiator offers,
    the pads hold neither needle before their end, and the responder's
    encrypted handshake does not begin with the protocol name.  The four
    messages go back and forth, each callback reading what the other side
    wrote since: both sessions complete with success, each holds the
    other's peer-id, the responder has found the torrent from the
    obfuscated hash and holds the initiator's [crypto_provide], the
    initiator holds the responder's choice, no byte is left unread, and
    each side deciphers with the key and at the position the other side
    enciphers with. *)
Theorem encrypted_loopback (ioA ioB : tr_peerIo)
  (membersA membersB : tr_handshake) (modeA modeB : tr_encryption_mode)
  (markedA markedB : list (bytes * Z)) (infoA infoB : tr_torrent_info) :
  let hash := io_torrent_hash ioA in
  let KA := dh_public_key cr (private_key medA) in
  let KB := dh_public_key cr (private_key medB) in
  let S := dh_shared_secret cr (private_key medA) KB in
  let padA := pad medA PadaMaxlen in
  let padB := pad medB PadbMaxlen in
  let needleA := sha1 cr (req1 ++ S) in
  let kB := sha1 cr (keyB ++ S ++ hash) in
  let needleB := crypt cr kB 0 VC in
  let crypto_select := getCryptoSelect modeB (cpA modeA) in
  let msgB :=
    handshake_message (allows_dht medB) hash (client_peer_id infoB) in
  io_is_incoming ioA = false -> io_is_incoming ioB = true ->
  fresh_io ioA -> fresh_io ioB ->
  modeA <> TR_CLEAR_PREFERRED ->
  (forall x, length (sha1 cr x) = 20%nat) ->
  length KA = 96%nat -> length KB = 96%nat ->
  dh_shared_secret cr (private_key medB) KA = S ->
  starts_with KA HandshakeName = false ->
  starts_with KB HandshakeName = false ->
  length hash = 20%nat -> hash <> zero_digest ->
  torrent_info medA hash = Some infoA ->
  torrent_info medB hash = Some infoB ->
  torrent_info_from_obfuscated medB (sha1 cr (req2 ++ hash)) = Some infoB ->
  info_hash infoB = hash ->
  is_done infoB && is_peer_known_seed medB (id infoB) (io_address ioB)
    = false ->
  length (client_peer_id infoA) = 20%nat ->
  length (client_peer_id infoB) = 20%nat ->
  client_peer_id infoA <> client_peer_id infoB ->
  0 <= cpA modeA < 2 ^ 32 ->
  crypto_select <> 0 ->
  (length padA <= 512)%nat -> (length padB <= 512)%nat ->
  no_needle_before (length padA) needleA (padA ++ needleA) ->
  no_needle_before (length padB) needleB (padB ++ needleB) ->
  starts_with (crypt cr kB 14 msgB) HandshakeName = false ->
  let a0 := new_handshake cr medA ioA modeA membersA markedA in
  let b0 := new_handshake cr medB ioB modeB membersB markedB in
  let b1 := snd (can_read cr medB cpB (receive (io_outbuf (io a0)) b0)) in
  let a1 := snd (can_read cr medA cpA (receive (io_outbuf (io b1)) a0)) in
  let b2 :=
    snd (can_read cr medB cpB
           (receive (skipn (length (io_outbuf (io a0))) (io_outbuf (io a1)))
              b1)) in
  let a2 :=
    snd (can_read cr medA cpA
           (receive (skipn (length (io_outbuf (io b1))) (io_outbuf (io b2)))
              a1)) in
  (done_result (hs b2) = Some true /\
   peer_id_ (hs b2) = Some (client_peer_id infoA) /\
   io_torrent_hash (io b2) = hash /\
   crypto_provide_ (hs b2) = cpA modeA /\
   io_inbuf (io b2) = []) /\
  (done_result (hs a2) = Some true /\
   peer_id_ (hs a2) = Some (client_peer_id infoB) /\
   crypto_select_ (hs a2) = crypto_select /\
   io_inbuf (io a2) = []) /\
  io_decrypt (io b2) = io_encrypt (io a2) /\
  io_decrypt (io a2) = io_encrypt (io b2) /\
  io_encrypt (io a2) <> None /\ io_encrypt (io b2) <> None.
Proof.
  intros hash KA KB S padA padB needleA kB needleB cs msgB
    HincA HincB (HinA & HoutA & HdecA & HencA)
    (HinB & HoutB & HdecB & HencB) HmodeA Hsha LKA LKB Hagree HKA HKB
    Lh Hnz HinfoA HinfoB Hobf Hih Hseed LpA LpB Hne Hcp Hcs LpadA LpadB
    HnoA HnoB Hraw a0 b0 b1 a1 b2 a2.
  destruct ioA as [incA utpA addrA hashA inA outA decA encA dhtA ltepA fextA
                   recA].
  destruct ioB as [incB utpB addrB hashB inB outB decB encB dhtB ltepB fextB
                   recB].
  cbn [io_is_incoming io_inbuf io_outbuf io_decrypt io_encrypt
       io_torrent_hash io_address] in *.
  subst incA incB inA inB outA outB decA decB encA encB.
  subst hash.
  assert (EmA : mode_eqb modeA TR_CLEAR_PREFERRED = false).
  { apply not_true_is_false. intros X. apply mode_eqb_eq in X. auto. }
  set (msgA := handshake_message (allows_dht medA) hashA
                 (client_peer_id infoA)).
  (* the constructors *)
  evar (WA0 : World). assert (Ea0 : a0 = WA0).
  { subst a0 WA0. unfold new_handshake. cbn [io_is_incoming]. rewrite EmA.
    cbn [negb]. unfold send_ya. hs_step.
    cbn [filter_crypt filter_advance app dh_private_key].
    fold KA padA. reflexivity. }
  evar (WB0 : World). assert (Eb0 : b0 = WB0).
  { subst b0 WB0. unfold new_handshake. cbn [io_is_incoming]. hs_step.
    reflexivity. }
  clearbody a0 b0. subst a0 b0.
  (* the responder hears Ya and PadA *)
  assert (SKA : (Z.of_nat (length (KA ++ padA)) <? IncomingHandshakeLen)
                = false).
  { rewrite length_app, LKA. apply Z.ltb_ge. unfold IncomingHandshakeLen.
    lia. }
  assert (SWA : starts_with (KA ++ padA) HandshakeName = false).
  { rewrite starts_with_prefix by (rewrite LKA; cbn; lia). exact HKA. }
  assert (S96A : (Z.of_nat (length (KA ++ padA)) <? KeyLen) = false).
  { rewrite length_app, LKA. apply Z.ltb_ge. unfold KeyLen. lia. }
  assert (F96A : firstn 96 (KA ++ padA) = KA) by (apply firstn_exact, LKA).
  assert (K96A : skipn 96 (KA ++ padA) = padA) by (apply skipn_exact, LKA).
  assert (LnA : length needleA = 20%nat) by apply Hsha.
  assert (SB : secret cr {| dh_private_key := private_key medB;
                            dh_peer_public_key := KA |} = S)
    by exact Hagree.
  assert (SA : secret cr {| dh_private_key := private_key medA;
                            dh_peer_public_key := KB |} = S)
    by reflexivity.
  set (tailA := skipn (length padA - 19) padA).
  evar (WB1 : World). assert (Eb1 : b1 = WB1).
  { subst b1 WB1. unfold WA0, WB0, receive. hs_simpl. cbn [app].
    unfold can_read.
    erewrite (can_read_loop_go cr medB cpB).
    2: { unfold dispatch, read_handshake.
         hs_exec ltac:(rewrite ?SKA, ?SWA). reflexivity. }
    2: { unfold ready_for_more. hs_step. reflexivity. }
    erewrite (can_read_loop_go cr medB cpB).
    2: { unfold dispatch, read_ya.
         hs_exec ltac:(rewrite ?S96A, ?F96A, ?K96A). fold KB padB.
         reflexivity. }
    2: { unfold ready_for_more. hs_step. reflexivity. }
    erewrite (can_read_loop_stop cr medB cpB).
    2: { unfold dispatch, read_pad_a. hs_step. rewrite SB. fold needleA.
         change (Z.to_nat PadaMaxlen) with 512%nat.
         rewrite read_pad_a_scan_later.
         - unfold after_read. hs_simpl. fold tailA.
           cbn [filter_advance]. reflexivity.
         - hs_simpl. lia.
         - hs_simpl. apply (no_needle_in_pad padA needleA) in HnoA.
           rewrite LnA in HnoA. exact HnoA. }
    2: discriminate.
    cbn [snd]. reflexivity. }
  clearbody b1. subst b1.
  (* the initiator hears Yb and PadB *)
  assert (SWB : starts_with (KB ++ padB) HandshakeName = false).
  { rewrite starts_with_prefix by (rewrite LKB; cbn; lia). exact HKB. }
  assert (S20B : (Z.of_nat (length (KB ++ padB)) <? 20) = false).
  { rewrite length_app, LKB. apply Z.ltb_ge. lia. }
  assert (S96B : (Z.of_nat (length (KB ++ padB)) <? KeyLen) = false).
  { rewrite length_app, LKB. apply Z.ltb_ge. unfold KeyLen. lia. }
  assert (F96B : firstn 96 (KB ++ padB) = KB) by (apply firstn_exact, LKB).
  assert (K96B : skipn 96 (KB ++ padB) = padB) by (apply skipn_exact, LKB).
  assert (LnB : length needleB = 8%nat)
    by (unfold needleB; rewrite length_crypt; reflexivity).
  set (kA := sha1 cr (keyA ++ S ++ hashA)).
  set (x_or := xor_bytes (sha1 cr (req2 ++ hashA)) (sha1 cr (req3 ++ S))).
  set (plainA := VC ++ be32 (cpA modeA) ++ be16 0 ++ be16 68 ++ msgA).
  set (tailB := skipn (length padB - 7) padB).
  assert (LA : length msgA = 68%nat)
    by (apply length_handshake_message; assumption).
  assert (LplainA : length plainA = 84%nat).
  { unfold plainA. rewrite !length_app, LA. reflexivity. }
  evar (WA1 : World). assert (Ea1 : a1 = WA1).
  { subst a1 WA1. unfold WA0, WB1, receive. hs_simpl. cbn [app].
    unfold can_read.
    erewrite (can_read_loop_go cr medA cpA).
    2: { unfold dispatch, read_yb.
         hs_exec ltac:(rewrite ?S20B, ?SWB, ?S96B, ?F96B, ?K96B, ?SA).
         rewrite (build_handshake_message_known medA _ _ infoA)
           by (hs_simpl; exact HinfoA).
         hs_exec ltac:(unfold encrypt_key; rewrite ?SA).
         fold needleA x_or kA msgA.
         change ((VC ++ be32 (cpA modeA) ++ be16 0) ++ be16 68 ++ msgA)
           with plainA.
         rewrite LplainA. reflexivity. }
    2: { unfold ready_for_more. hs_step. reflexivity. }
    erewrite (can_read_loop_stop cr medA cpA).
    2: { unfold dispatch, read_vc. hs_step. unfold encrypt_key.
         rewrite SA. fold kB needleB.
         change (Z.to_nat PadbMaxlen) with 512%nat.
         rewrite read_vc_scan_later.
         - unfold after_read. hs_simpl. fold tailB.
           cbn [filter_advance]. reflexivity.
         - hs_simpl. lia.
         - hs_simpl. apply (no_needle_in_pad padB needleB) in HnoB.
           rewrite LnB in HnoB. exact HnoB. }
    2: discriminate.
    cbn [snd]. reflexivity. }
  clearbody a1. subst a1.
  (* the responder hears the third message *)
  set (ENC := crypt cr kA 0 plainA).
  assert (D3 : skipn (length (io_outbuf (io WA0))) (io_outbuf (io WA1)) =
               needleA ++ x_or ++ ENC).
  { unfold WA0, WA1. hs_simpl. rewrite <- (app_assoc (KA ++ padA)).
    rewrite skipn_exact by reflexivity. rewrite <- app_assoc. reflexivity. }
  assert (Lx : length x_or = 20%nat).
  { unfold x_or. rewrite length_xor_bytes; rewrite !Hsha; reflexivity. }
  assert (LENC : length ENC = 84%nat)
    by (unfold ENC; rewrite length_crypt; exact LplainA).
  assert (LtA : (length tailA <= 19)%nat)
    by (unfold tailA; rewrite length_skipn; lia).
  assert (Xo : xor_bytes x_or (sha1 cr (req3 ++ S)) =
               sha1 cr (req2 ++ hashA)).
  { unfold x_or. apply xor_bytes_involutive. rewrite !Hsha. reflexivity. }
  assert (S34 : (Z.of_nat (length (x_or ++ ENC)) <? Sha1Len + 8 + 4 + 2)
                = false) by (rewrite length_app, Lx, LENC; reflexivity).
  assert (F20x : firstn 20 (x_or ++ ENC) = x_or) by (apply firstn_exact, Lx).
  assert (K20x : skipn 20 (x_or ++ ENC) = ENC) by (apply skipn_exact, Lx).
  assert (PAf8 : firstn 8 plainA = VC) by reflexivity.
  assert (PAf4 : firstn 4 (skipn 8 plainA) = be32 (cpA modeA))
    by reflexivity.
  assert (PAf2 : firstn 2 (skipn 12 plainA) = be16 0) by reflexivity.
  assert (PAs14 : skipn 14 plainA = be16 68 ++ msgA) by reflexivity.
  assert (Dcp : be_decode (be32 (cpA modeA)) = cpA modeA)
    by (apply be_decode_be32; exact Hcp).
  assert (D0 : be_decode (be16 0) = 0) by reflexivity.
  assert (D68 : be_decode (be16 68) = 68) by reflexivity.
  assert (G0 : (0 >? PadcMaxlen) = false) by reflexivity.
  assert (S2 : (Z.of_nat (length (crypt cr kA 14 (be16 68 ++ msgA))) <? 0 + 2)
               = false).
  { rewrite length_crypt, length_app, LA. reflexivity. }
  assert (B68f : firstn 2 (be16 68 ++ msgA) = be16 68) by reflexivity.
  assert (B68s : skipn 2 (be16 68 ++ msgA) = msgA) by reflexivity.
  assert (LB : length msgB = 68%nat)
    by (apply length_handshake_message; assumption).
  set (replyB := VC ++ be32 cs ++ be16 0 ++ msgB).
  assert (LreplyB : length replyB = 82%nat).
  { unfold replyB. rewrite !length_app, LB. reflexivity. }
  assert (S68A : (Z.of_nat (length (crypt cr kA 16 msgA)) <? HandshakeSize)
                 = false) by (rewrite length_crypt, LA; reflexivity).
  assert (Lc16 : length (crypt cr kA 16 msgA) = 68%nat)
    by (rewrite length_crypt; exact LA).
  assert (Lc14 : length (crypt cr kA 14 (be16 68 ++ msgA)) = 70%nat)
    by (rewrite length_crypt, length_app, LA; reflexivity).
  pose proof (handshake_message_parts (allows_dht medA) hashA
                (client_peer_id infoA) [] Lh LpA) as PA.
  cbv zeta in PA. rewrite !app_nil_r in PA. fold msgA in PA.
  destruct PA as (PA1 & PA2 & PA3 & PA4 & PA5 & PA6).
  pose proof (handshake_message_parts (allows_dht medB) hashA
                (client_peer_id infoB) [] Lh LpB) as PB.
  cbv zeta in PB. rewrite !app_nil_r in PB. fold msgB in PB.
  destruct PB as (PB1 & PB2 & PB3 & PB4 & PB5 & PB6).
  destruct (flags_have (allows_dht medA)) as (FA1 & FA2 & FA3).
  destruct (flags_have (allows_dht medB)) as (FB1 & FB2 & FB3).
  assert (NZ : bytes_eqb hashA zero_digest = false)
    by (apply bytes_eqb_neq; exact Hnz).
  assert (NEB : bytes_eqb (client_peer_id infoB) (client_peer_id infoA)
                = false) by (apply bytes_eqb_neq; congruence).
  assert (NEA : bytes_eqb (client_peer_id infoA) (client_peer_id infoB)
                = false) by (apply bytes_eqb_neq; congruence).
  evar (WB2 : World). assert (Eb2 : b2 = WB2).
  { subst b2 WB2. rewrite D3. unfold WB1 at 1, receive. hs_simpl.
    unfold can_read.
    erewrite (can_read_loop_go cr medB cpB).
    2: { unfold dispatch, read_pad_a. hs_step. rewrite SB. fold needleA.
         change (Z.to_nat PadaMaxlen) with 512%nat.
         rewrite (read_pad_a_scan_found cr medB tailA needleA (x_or ++ ENC)).
         - unfold after_read. hs_simpl.
           rewrite (app_assoc tailA needleA).
           rewrite skipn_exact by (rewrite length_app, LnA; reflexivity).
           cbn [filter_advance]. reflexivity.
         - reflexivity.
         - exact LnA.
         - lia.
         - hs_simpl. apply no_needle_in_tail. exact HnoA. }
    2: { unfold ready_for_more. hs_step. reflexivity. }
    erewrite (can_read_loop_go cr medB cpB).
    2: { unfold dispatch, read_crypto_provide.
         hs_exec ltac:(unfold decrypt_key;
                       rewrite ?S34, ?F20x, ?K20x, ?SB, ?Xo, ?Hobf, ?Hih,
                         ?Hseed; fold kA ENC).
         unfold ENC.
         hs_exec ltac:(rewrite ?crypt_skipn, ?crypt_firstn; cbn [Nat.add];
                       rewrite ?crypt_involutive, ?PAf8, ?PAf4, ?PAf2,
                         ?PAs14, ?Dcp, ?D0, ?G0).
         fold ENC. reflexivity. }
    2: { unfold ready_for_more. hs_step. apply Z.leb_le. lia. }
    erewrite (can_read_loop_go cr medB cpB).
    2: { unfold dispatch, read_pad_c.
         hs_exec ltac:(change (Z.to_nat 0) with 0%nat;
                       rewrite ?firstn_O, ?skipn_O; cbn [length];
                       rewrite ?S2, ?crypt_skipn, ?crypt_firstn, ?Nat.add_0_r;
                       cbn [Nat.add];
                       rewrite ?crypt_involutive, ?B68f, ?B68s, ?D68).
         reflexivity. }
    2: { unfold ready_for_more. hs_step. rewrite length_crypt, LA.
         reflexivity. }
    erewrite (can_read_loop_go cr medB cpB).
    2: { unfold dispatch. hs_step.
         rewrite (read_ia_run cr medB _ infoB).
         - hs_simpl. unfold encrypt_key. rewrite SB. fold kB cs msgB.
           fold replyB. rewrite LreplyB. reflexivity.
         - hs_simpl. rewrite length_crypt, LA. lia.
         - hs_simpl. exact HinfoB.
         - hs_simpl. exact Hcs. }
    2: { unfold ready_for_more. hs_step. reflexivity. }
    erewrite (can_read_loop_stop cr medB cpB).
    2: { unfold dispatch, read_payload_stream, parse_handshake.
         hs_exec ltac:(rewrite ?S68A;
                       rewrite ?firstn_len
                         by (repeat first [rewrite length_crypt
                                          |rewrite length_skipn]; lia);
                       rewrite ?crypt_skipn, ?crypt_firstn;
                       cbn [Nat.add];
                       rewrite ?crypt_involutive, ?PA1, ?PA2, ?PA3, ?PA4,
                         ?PA6, ?bytes_eqb_refl, ?NZ, ?HinfoB, ?NEB,
                         ?FA1, ?FA2, ?FA3).
         cbn [crypt]. reflexivity. }
    2: { destruct (done_func medB true); discriminate. }
    cbn [snd]. reflexivity. }
  clearbody b2. subst b2.
  (* the initiator hears the fourth message *)
  set (restB := be32 cs ++ be16 0 ++ msgB).
  set (RB := crypt cr kB 8 restB).
  assert (D4 : skipn (length (io_outbuf (io WB1))) (io_outbuf (io WB2)) =
               needleB ++ RB).
  { unfold WB1, WB2. hs_simpl. rewrite skipn_exact by reflexivity.
    unfold replyB. rewrite crypt_app. reflexivity. }
  destruct (getCryptoSelect_offered modeB (cpA modeA) Hcs) as [Hcs12 Hland].
  fold cs in Hcs12, Hland.
  assert (Dcs : be_decode (be32 cs) = cs).
  { apply be_decode_be32. destruct Hcs12 as [-> | ->]; lia. }
  assert (LRB : length RB = 74%nat).
  { unfold RB, restB. rewrite length_crypt, !length_app, LB. reflexivity. }
  assert (LtB : (length tailB <= 7)%nat)
    by (unfold tailB; rewrite length_skipn; lia).
  assert (S6 : (Z.of_nat (length RB) <? 4 + 2) = false)
    by (rewrite LRB; reflexivity).
  assert (RBf4 : firstn 4 restB = be32 cs) by reflexivity.
  assert (RBf2 : firstn 2 (skipn 4 restB) = be16 0) by reflexivity.
  assert (RBs6 : skipn 6 restB = msgB) by reflexivity.
  assert (G512 : (0 >? 512) = false) by reflexivity.
  assert (Lc14B : length (crypt cr kB 14 msgB) = 68%nat)
    by (rewrite length_crypt; exact LB).
  assert (S0 : (Z.of_nat (length (crypt cr kB 14 msgB)) <? 0) = false)
    by (rewrite Lc14B; reflexivity).
  assert (S48B : (Z.of_nat (length (crypt cr kB 14 msgB))
                  <? IncomingHandshakeLen) = false)
    by (rewrite Lc14B; reflexivity).
  assert (Lc62 : length (crypt cr kB 62 (client_peer_id infoB)) = 20%nat)
    by (rewrite length_crypt; exact LpB).
  assert (S20p : (Z.of_nat (length (crypt cr kB 62 (client_peer_id infoB)))
                  <? PeerIdLen) = false)
    by (rewrite Lc62; reflexivity).
  assert (F20B : firstn 20 (client_peer_id infoB) = client_peer_id infoB)
    by (rewrite <- LpB; apply firstn_all).
  assert (K20B : skipn 20 (client_peer_id infoB) = [])
    by (rewrite <- LpB; apply skipn_all).
  assert (Lz : length (crypt cr kB 12 (be16 0)) = 2%nat)
    by (rewrite length_crypt; reflexivity).
  evar (WA2 : World). assert (Ea2 : a2 = WA2).
  { subst a2 WA2. rewrite D4. unfold WA1 at 1, receive. hs_simpl.
    unfold can_read.
    erewrite (can_read_loop_go cr medA cpA).
    2: { unfold dispatch, read_vc. hs_step. unfold encrypt_key.
         rewrite SA. fold kB needleB.
         change (Z.to_nat PadbMaxlen) with 512%nat.
         rewrite (read_vc_scan_found cr medA tailB needleB hashA RB).
         - hs_simpl. unfold decrypt_key. rewrite SA. fold kB.
           reflexivity.
         - reflexivity.
         - exact LnB.
         - lia.
         - hs_simpl. apply no_needle_in_tail. exact HnoB. }
    2: { unfold ready_for_more. hs_step. reflexivity. }
    erewrite (can_read_loop_go cr medA cpA).
    2: { unfold dispatch, read_crypto_select.
         hs_exec ltac:(rewrite ?S6). unfold RB.
         hs_exec ltac:(rewrite ?crypt_skipn, ?crypt_firstn; cbn [Nat.add];
                       rewrite ?crypt_involutive, ?RBf4, ?RBf2, ?RBs6,
                         ?Dcs, ?Hland, ?D0, ?G512, ?Lz).
         reflexivity. }
    2: { unfold ready_for_more. hs_step. apply Z.leb_le. lia. }
    erewrite (can_read_loop_go cr medA cpA).
    2: { unfold dispatch, read_pad_d.
         hs_exec ltac:(change (Z.to_nat 0) with 0%nat;
                       rewrite ?S0, ?firstn_O, ?skipn_O; cbn [length];
                       rewrite ?Nat.add_0_r).
         reflexivity. }
    2: { unfold ready_for_more. hs_step. reflexivity. }
    erewrite (can_read_loop_go cr medA cpA).
    2: { unfold dispatch, read_handshake.
         hs_exec ltac:(rewrite ?S48B; hs_simpl;
                       rewrite ?Hraw, ?andb_false_r;
                       rewrite ?firstn_len
                         by (repeat first [rewrite length_crypt
                                          |rewrite length_skipn]; lia);
                       rewrite ?crypt_skipn, ?crypt_firstn;
                       cbn [Nat.add];
                       rewrite ?crypt_involutive, ?PB1, ?PB2, ?PB3, ?PB5,
                         ?bytes_eqb_refl, ?FB1, ?FB2, ?FB3, ?negb_true_eq).
         reflexivity. }
    2: { unfold ready_for_more. hs_step. reflexivity. }
    erewrite (can_read_loop_stop cr medA cpA).
    2: { unfold dispatch, read_peer_id.
         hs_exec ltac:(rewrite ?S20p;
                       rewrite ?firstn_len
                         by (repeat first [rewrite length_crypt
                                          |rewrite length_skipn]; lia);
                       rewrite ?crypt_skipn, ?crypt_firstn;
                       cbn [Nat.add];
                       rewrite ?crypt_involutive, ?F20B, ?K20B, ?HinfoA,
                         ?NEA).
         cbn [crypt]. reflexivity. }
    2: { destruct (done_func medA true); discriminate. }
    cbn [snd]. reflexivity. }
  clearbody a2. subst a2.
  unfold WA2, WB2.
  cbn [hs io done_result peer_id_ crypto_provide_ crypto_select_
       io_torrent_hash io_inbuf io_decrypt io_encrypt
       hs_with_state hs_with_dh hs_with_have_read hs_with_have_sent
       hs_with_peer_id hs_with_crypto_provide hs_with_crypto_select
       hs_with_pad_c_len hs_with_pad_d_len hs_with_ia_len hs_with_done
       io_with_torrent_hash io_with_in io_with_out io_with_extensions].
  repeat split; discriminate.
Qed.

End Encrypted.

(** ** The further properties on concrete sessions *)

(** X2: the second client has received the handshake of the first, and
    three bytes more. *)
Lemma handshake_message_round_trip_witness :
  let r := parse_handshake Pair.crypto Pair.mediator_b
             (Pair.heard_a [1; 2; 3]) in
  fst r = Ok /\
  peer_id_ (hs (snd r)) = Some Sample.our_peer_id /\
  io_ltep (io (snd r)) = true /\
  io_fext (io (snd r)) = true /\
  io_dht (io (snd r)) = true /\
  pending Pair.crypto (snd r) = [1; 2; 3].
Proof.
  refine (handshake_message_round_trip Pair.crypto Pair.mediator_a
            Pair.mediator_b Pair.io_a Sample.torrent (Pair.heard_a [1; 2; 3])
            [1; 2; 3] _ eq_refl eq_refl _ _ _ _).
  - vm_compute. reflexivity.
  - vm_compute. discriminate.
  - vm_compute. reflexivity.
  - vm_compute. reflexivity.
  - intros [info [E1 E2]]. vm_compute in E1. injection E1 as E.
    subst info. vm_compute in E2. discriminate E2.
Defined.

(** X3: an incoming session of the sample client holds the plaintext
    handshake of a peer on the hosted torrent. *)
Lemma read_handshake_incoming_witness :
  let w := Pair.holds_handshake true in
  let w' := snd (read_handshake Sample.crypto Sample.mediator w) in
  have_read_anything_from_peer_ (hs w') = true /\
  state_ (hs w') = AwaitingPeerId /\
  io_torrent_hash (io w') = Sample.torrent_hash /\
  io_outbuf (io w') =
    handshake_message true Sample.torrent_hash Sample.our_peer_id.
Proof.
  destruct (read_handshake_incoming Sample.crypto Sample.mediator
              (Pair.holds_handshake true) eq_refl eq_refl eq_refl eq_refl
              ltac:(vm_compute; discriminate)) as (H0 & _ & H).
  destruct (H ltac:(vm_compute; reflexivity)) as [_ H2].
  destruct (H2 ltac:(vm_compute; discriminate) Sample.torrent
              ltac:(vm_compute; reflexivity))
    as (_ & S1 & _ & S2 & _ & _ & _ & _ & _ & S3).
  exact (conj H0 (conj S1 (conj S2 S3))).
Defined.

(** X4: an outgoing session that sent its handshake in the clear holds
    the peer's. *)
Lemma read_handshake_outgoing_witness :
  let w := Pair.holds_handshake false in
  let r := read_handshake Sample.crypto Sample.mediator w in
  fst r = READ_NOW /\ state_ (hs (snd r)) = AwaitingPeerId /\
  done_result (hs (snd r)) = None /\
  io_outbuf (io (snd r)) = io_outbuf (io w).
Proof.
  destruct (read_handshake_outgoing Sample.crypto Sample.mediator
              (Pair.holds_handshake false) eq_refl eq_refl
              ltac:(vm_compute; discriminate)) as (_ & _ & H).
  cbv zeta in H.
  assert (G1 : encryption_mode_ (hs (Pair.holds_handshake false)) <>
               TR_ENCRYPTION_REQUIRED) by (vm_compute; discriminate).
  assert (G2 : firstn 20 (pending Sample.crypto (Pair.holds_handshake false))
               = HandshakeName) by (vm_compute; reflexivity).
  assert (G3 : firstn 20
                 (skipn 28 (pending Sample.crypto (Pair.holds_handshake false)))
               = io_torrent_hash (io (Pair.holds_handshake false)))
    by (vm_compute; reflexivity).
  destruct (H (or_introl G1) G2 G3) as (_ & _ & _ & _ & _ & S & _).
  exact (S ltac:(vm_compute; reflexivity)).
Defined.

(** X5: the sample responder sends a PadB of two bytes. *)
Lemma read_vc_resynchronises_witness :
  let w := Pair.before_vc [5; 6] in
  let r := read_vc Sample.crypto Sample.mediator w in
  state_ (hs w) = AwaitingVc /\
  fst r = READ_NOW /\
  state_ (hs (snd r)) = AwaitingCryptoSelect /\
  pending Sample.crypto (snd r) = be32 2 ++ be16 0.
Proof.
  split; [vm_compute; reflexivity|].
  pose proof (read_vc_resynchronises Sample.crypto Sample.mediator
                (Pair.before_vc [5; 6]) [5; 6]
                (crypt Sample.crypto Sample.responder_key 8
                   (be32 2 ++ be16 0))) as H.
  cbv zeta in H.
  destruct H as (H1 & H2 & _ & _ & _ & H3).
  - vm_compute. reflexivity.
  - vm_compute. lia.
  - apply no_needle_before_check. vm_compute. reflexivity.
  - destruct (H3 ltac:(vm_compute; reflexivity)) as [H4 _].
    split; [exact H1|]. split; [exact H2|].
    rewrite H4. vm_compute. reflexivity.
Defined.

(** X6: the sample responder sends 512 zero bytes as PadB. *)
Lemma read_vc_512_fails_witness :
  let w := Pair.before_vc (repeat 0 512) in
  state_ (hs w) = AwaitingVc /\
  done_result (hs w) = None /\
  failed (snd (read_vc Sample.crypto Sample.mediator w)).
Proof.
  split; [vm_compute; reflexivity|].
  split; [vm_compute; reflexivity|].
  pose proof (read_vc_512_fails Sample.crypto Sample.mediator
                (Pair.before_vc (repeat 0 512)) (repeat 0 512)
                (crypt Sample.crypto Sample.responder_key 8
                   (be32 2 ++ be16 0))) as H.
  cbv zeta in H.
  destruct H as (H1 & _).
  - vm_compute. reflexivity.
  - vm_compute. reflexivity.
  - vm_compute. reflexivity.
  - apply no_needle_before_check. vm_compute. reflexivity.
  - exact H1.
Defined.

(** X8: an incoming encrypted session has read the two bytes of PadC; the
    sample initiator offered plaintext and RC4. *)
Lemma read_ia_replies_witness :
  let w := Sample.read
             (Sample.after_crypto_provide [1; 2; 3] VC 2
                Sample.their_peer_id) in
  let w' := snd (read_ia Sample.crypto Sample.mediator w) in
  state_ (hs w) = AwaitingIa /\
  state_ (hs w') = AwaitingPayloadStream /\
  io_outbuf (io w') =
    io_outbuf (io w) ++
    crypt Sample.crypto Sample.responder_key 0
      (VC ++ be32 2 ++ be16 0 ++
       handshake_message true Sample.torrent_hash Sample.our_peer_id).
Proof.
  split; [vm_compute; reflexivity|].
  pose proof (read_ia_replies Sample.crypto Sample.mediator
                (Sample.read
                   (Sample.after_crypto_provide [1; 2; 3] VC 2
                      Sample.their_peer_id))
                Sample.torrent) as H.
  cbv zeta in H.
  destruct H as (_ & _ & _ & H).
  - vm_compute. reflexivity.
  - vm_compute. discriminate.
  - vm_compute. reflexivity.
  - destruct (H ltac:(vm_compute; discriminate)) as (_ & H1 & _ & _ & H2 & _).
    split; [exact H1|]. rewrite H2. vm_compute. reflexivity.
Defined.

(** X9: the connection of an outgoing session that requires encryption
    is refused while it waits for Yb. *)
Lemma on_error_gives_up_witness :
  let w := Sample.start false false Sample.torrent_hash [true]
             TR_ENCRYPTION_REQUIRED in
  state_ (hs w) = AwaitingYb /\
  failed (snd (on_error Sample.crypto Sample.mediator ECONNREFUSED w)).
Proof.
  split; [vm_compute; reflexivity|].
  exact (proj1 (on_error_gives_up Sample.crypto Sample.mediator
                  (Sample.start false false Sample.torrent_hash [true]
                     TR_ENCRYPTION_REQUIRED) ECONNREFUSED
                  eq_refl (or_intror (or_introl eq_refl)))).
Defined.

(** X10: the same with a session that prefers encryption, one successful
    reconnect at hand. *)
Lemma on_error_retries_in_the_clear_witness :
  let w := Sample.start false false Sample.torrent_hash [true]
             TR_ENCRYPTION_PREFERRED in
  let w' := snd (on_error Sample.crypto Sample.mediator ECONNREFUSED w) in
  done_result (hs w') = None /\
  state_ (hs w') = AwaitingHandshake /\
  have_sent_bittorrent_handshake_ (hs w') = true /\
  io_reconnects (io w') = [] /\
  utp_failed w' = utp_failed w.
Proof.
  exact (proj1 (on_error_retries_in_the_clear Sample.crypto Sample.mediator
                  (Sample.start false false Sample.torrent_hash [true]
                     TR_ENCRYPTION_PREFERRED) ECONNREFUSED []
                  eq_refl (or_introl eq_refl) eq_refl
                  ltac:(vm_compute; discriminate) eq_refl) eq_refl).
Defined.

(** X11: an outgoing session that has found the responder's VC. *)
Lemma reachable_direction_witness :
  state_ (hs (Sample.after_vc 2 0)) = AwaitingCryptoSelect /\
  io_is_incoming (io (Sample.after_vc 2 0)) = false.
Proof.
  split; [vm_compute; reflexivity|].
  refine (proj2 (reachable_direction Sample.crypto Sample.mediator
                   Sample.crypto_provide (Sample.after_vc 2 0) _) _).
  - unfold Sample.after_vc, Sample.read, Sample.start.
    repeat (eapply reachable_step;
            [| first [ apply step_read | apply step_receive ];
               vm_compute; reflexivity ]).
    apply reachable_new.
  - vm_compute. reflexivity.
Defined.

(** X12: an incoming encrypted session that has read the initiator's
    handshake. *)
Lemma success_means_witness :
  let w := Sample.read (Sample.after_ia [1; 2; 3] VC 2 Sample.their_peer_id) in
  done_result (hs w) = Some true /\
  have_sent_bittorrent_handshake_ (hs w) = true /\
  have_read_anything_from_peer_ (hs w) = true /\
  exists p, peer_id_ (hs w) = Some p /\ length p = 20%nat /\
            ~ is_self Sample.mediator (io_torrent_hash (io w)) p.
Proof.
  split; [vm_compute; reflexivity|].
  apply (success_means Sample.crypto Sample.mediator Sample.crypto_provide).
  - unfold Sample.after_ia, Sample.after_crypto_provide, Sample.after_pad_a,
      Sample.after_ya, Sample.read, Sample.start.
    repeat (eapply reachable_step;
            [| first [ apply step_read | apply step_receive ];
               vm_compute; reflexivity ]).
    apply reachable_new.
  - vm_compute. reflexivity.
Defined.

(** X13: an incoming session that requires encryption, seven rounds of
    the read callback after the initiator's stream arrived. *)
Lemma required_means_encrypted_witness :
  let w := Pair.required_session 7 in
  done_result (hs w) = Some true /\
  io_decrypt (io w) <> None /\ io_encrypt (io w) <> None.
Proof.
  split; [vm_compute; reflexivity|].
  apply (required_means_encrypted Sample.crypto Sample.mediator
           Sample.crypto_provide (Sample.new_io true false [] [])
           Sample.members []).
  - reflexivity.
  - reflexivity.
  - unfold Pair.required_session, Pair.rounds, Sample.read, Sample.start.
    repeat (eapply from_step;
            [| first [ apply step_read | apply step_receive ];
               vm_compute; reflexivity ]).
    apply from_here.
  - vm_compute. reflexivity.
Defined.

(** X14: the read callback runs [read_yb]. *)
Lemma step_never_back_witness :
  let w := Sample.got_yb in
  let w' := Sample.read w in
  state_ (hs w) = AwaitingYb /\ state_ (hs w') = AwaitingVc /\
  (rank (state_ (hs w)) <= rank (state_ (hs w')))%nat /\
  encryption_mode_ (hs w') = encryption_mode_ (hs w) /\
  dh_private_key (dh_ (hs w')) = dh_private_key (dh_ (hs w)) /\
  io_is_incoming (io w') = io_is_incoming (io w) /\
  io_address (io w') = io_address (io w).
Proof.
  split; [vm_compute; reflexivity|].
  split; [vm_compute; reflexivity|].
  apply (step_never_back Sample.crypto Sample.mediator Sample.crypto_provide).
  apply step_read. vm_compute. reflexivity.
Defined.

(** X16: three bytes have arrived on an incoming session, and
    [read_handshake] waits for 48. *)
Lemma wait_leaves_session_witness :
  let w := receive [19; 66; 105]
             (Sample.start true false [] [] TR_ENCRYPTION_PREFERRED) in
  snd (dispatch Sample.crypto Sample.mediator Sample.crypto_provide w) = w.
Proof.
  refine (proj2 (wait_leaves_session Sample.crypto Sample.mediator
                   Sample.crypto_provide
                   (receive [19; 66; 105]
                      (Sample.start true false [] []
                         TR_ENCRYPTION_PREFERRED)) _ _ _) _ _).
  - vm_compute. reflexivity.
  - vm_compute. reflexivity.
  - vm_compute. reflexivity.
  - vm_compute. discriminate.
  - vm_compute. discriminate.
Defined.

(** X17: the two clients in the clear. *)
Lemma plaintext_loopback_witness :
  let a0 := new_handshake Pair.crypto Pair.mediator_a Pair.io_a
              TR_CLEAR_PREFERRED Sample.members [] in
  let b0 := new_handshake Pair.crypto Pair.mediator_b Pair.io_b
              TR_ENCRYPTION_PREFERRED Sample.members [] in
  let b1 := snd (can_read Pair.crypto Pair.mediator_b Sample.crypto_provide
                   (receive (io_outbuf (io a0)) b0)) in
  let a1 := snd (can_read Pair.crypto Pair.mediator_a Sample.crypto_provide
                   (receive (io_outbuf (io b1)) a0)) in
  (done_result (hs b1) = Some true /\
   peer_id_ (hs b1) = Some Sample.our_peer_id) /\
  (done_result (hs a1) = Some true /\
   peer_id_ (hs a1) = Some Sample.their_peer_id).
Proof.
  pose proof (plaintext_loopback Pair.crypto Pair.mediator_a Pair.mediator_b
                Sample.crypto_provide Sample.crypto_provide
                Pair.io_a Pair.io_b Sample.members Sample.members
                TR_ENCRYPTION_PREFERRED [] [] Sample.torrent Pair.torrent_b
                eq_refl eq_refl
                (conj eq_refl (conj eq_refl (conj eq_refl eq_refl)))
                (conj eq_refl (conj eq_refl (conj eq_refl eq_refl)))
                ltac:(discriminate) eq_refl
                ltac:(vm_compute; reflexivity) ltac:(vm_compute; reflexivity)
                eq_refl eq_refl eq_refl ltac:(vm_compute; discriminate))
    as [[B1 [B2 _]] [A1 [A2 _]]].
  exact (conj (conj B1 B2) (conj A1 A2)).
Defined.

(** X18: the two clients, the responder requiring encryption. *)
Lemma encrypted_loopback_witness :
  let a0 := new_handshake Pair.crypto Pair.mediator_a Pair.io_a
              TR_ENCRYPTION_PREFERRED Sample.members [] in
  let b0 := new_handshake Pair.crypto Pair.mediator_b Pair.io_b
              TR_ENCRYPTION_REQUIRED Sample.members [] in
  let b1 := snd (can_read Pair.crypto Pair.mediator_b Sample.crypto_provide
                   (receive (io_outbuf (io a0)) b0)) in
  let a1 := snd (can_read Pair.crypto Pair.mediator_a Sample.crypto_provide
                   (receive (io_outbuf (io b1)) a0)) in
  let b2 :=
    snd (can_read Pair.crypto Pair.mediator_b Sample.crypto_provide
           (receive (skipn (length (io_outbuf (io a0))) (io_outbuf (io a1)))
              b1)) in
  let a2 :=
    snd (can_read Pair.crypto Pair.mediator_a Sample.crypto_provide
           (receive (skipn (length (io_outbuf (io b1))) (io_outbuf (io b2)))
              a1)) in
  (done_result (hs b2) = Some true /\
   peer_id_ (hs b2) = Some Sample.our_peer_id) /\
  (done_result (hs a2) = Some true /\
   peer_id_ (hs a2) = Some Sample.their_peer_id) /\
  io_decrypt (io b2) = io_encrypt (io a2) /\
  io_decrypt (io a2) = io_encrypt (io b2).
Proof.
  pose proof (encrypted_loopback Pair.crypto Pair.mediator_a Pair.mediator_b
                Sample.crypto_provide Sample.crypto_provide
                Pair.io_a Pair.io_b Sample.members Sample.members
                TR_ENCRYPTION_PREFERRED TR_ENCRYPTION_REQUIRED [] []
                Sample.torrent Pair.torrent_b
                eq_refl eq_refl
                (conj eq_refl (conj eq_refl (conj eq_refl eq_refl)))
                (conj eq_refl (conj eq_refl (conj eq_refl eq_refl)))
                ltac:(discriminate)
                (fun _ => eq_refl)
                eq_refl eq_refl
                ltac:(vm_compute; reflexivity)
                ltac:(vm_compute; reflexivity)
                ltac:(vm_compute; reflexivity)
                eq_refl
                ltac:(vm_compute; discriminate)
                ltac:(vm_compute; reflexivity)
                ltac:(vm_compute; reflexivity)
                ltac:(vm_compute; reflexivity)
                eq_refl
                eq_refl
                eq_refl eq_refl
                ltac:(vm_compute; discriminate)
                ltac:(vm_compute; split; [discriminate|reflexivity])
                ltac:(vm_compute; discriminate)
                ltac:(vm_compute; lia) ltac:(vm_compute; lia)
                ltac:(apply no_needle_before_check; vm_compute; reflexivity)
                ltac:(apply no_needle_before_check; vm_compute; reflexivity)
                ltac:(vm_compute; reflexivity))
    as [[B1 [B2 _]] [[A1 [A2 _]] [D1 [D2 _]]]].
  exact (conj (conj B1 B2) (conj (conj A1 A2) (conj D1 D2))).
Defined.
